(** * Lexicologia: segmentation, lexical search, inline formatting,
      highlighting and export numbering

    A shallow embedding of the core text library of the repository
    (the module that exports [searchInFiles], [exportToDocx] and
    [countParagraphs]) together with the properties its specification
    states about it.

    Character model.  A JavaScript string is a sequence of UTF-16 code
    units.  The embedding covers the strings whose code units lie in
    U+0000..U+00FF (Latin-1): a string is a [list ascii] and an [ascii]
    is read as the code unit of the same number.  On that range
    [toLowerCase] maps a string to a string of the same length, so it is
    a character map. *)

From Stdlib Require Import Ascii String DecimalString.
From Stdlib Require Import Bool Arith PeanoNat Lia QArith.
From Stdlib Require Import List.
Import ListNotations.
Open Scope nat_scope.
Open Scope list_scope.

Set Implicit Arguments.

(** ** JavaScript strings *)

Module Js.

Definition jsstring := list ascii.

Definition str (s : string) : jsstring := list_ascii_of_string s.
Arguments str s%_string.

Definition code (c : ascii) : nat := nat_of_ascii c.

Definition LF : ascii := ascii_of_nat 10.
Definition CR : ascii := ascii_of_nat 13.
Definition SP : ascii := ascii_of_nat 32.
Definition QUOTE : ascii := ascii_of_nat 34.

Definition char_eqb (a b : ascii) : bool := Ascii.eqb a b.

Fixpoint str_eqb (a b : jsstring) : bool :=
  match a, b with
  | [], [] => true
  | x :: a', y :: b' => char_eqb x y && str_eqb a' b'
  | _, _ => false
  end.

(** WhiteSpace and LineTerminator code points below U+0100: TAB, LF, VT,
    FF, CR, SP and NBSP.  [trim] and the class [\s] both use this set. *)
Definition isWhiteSpace (c : ascii) : bool :=
  existsb (Nat.eqb (code c)) [9; 10; 11; 12; 13; 32; 160].

(** LineTerminator below U+0100: the characters [.] does not match. *)
Definition isLineTerminator (c : ascii) : bool :=
  existsb (Nat.eqb (code c)) [10; 13].

(** [String.prototype.toLowerCase] on one Latin-1 code unit: A-Z and the
    accented capitals U+00C0..U+00DE (without the multiplication sign
    U+00D7) move up by 32, everything else is unchanged. *)
Definition lowerChar (c : ascii) : ascii :=
  let n := code c in
  if ((65 <=? n) && (n <=? 90)) ||
     ((192 <=? n) && (n <=? 222) && negb (n =? 215))
  then ascii_of_nat (n + 32) else c.

Definition toLowerCase (s : jsstring) : jsstring := map lowerChar s.

Fixpoint dropWhile (p : ascii -> bool) (s : jsstring) : jsstring :=
  match s with
  | [] => []
  | c :: r => if p c then dropWhile p r else s
  end.

Definition trimStart (s : jsstring) : jsstring := dropWhile isWhiteSpace s.
Definition trimEnd (s : jsstring) : jsstring :=
  rev (dropWhile isWhiteSpace (rev s)).
Definition trim (s : jsstring) : jsstring := trimEnd (trimStart s).

Fixpoint startsWith (s p : jsstring) {struct p} : bool :=
  match p with
  | [] => true
  | a :: p' =>
      match s with
      | [] => false
      | b :: s' => char_eqb a b && startsWith s' p'
      end
  end.

Definition endsWith (s p : jsstring) : bool := startsWith (rev s) (rev p).

Fixpoint includes (s sub : jsstring) : bool :=
  startsWith s sub ||
  match s with
  | [] => false
  | _ :: r => includes r sub
  end.

(** [s.slice(from, -back)] for non-negative [from] and [back]: the
    characters from index [from] up to index [length - back]; empty when
    the two indices cross. *)
Definition slice (s : jsstring) (from back : nat) : jsstring :=
  firstn ((length s - back) - from) (skipn from s).

(** [s.substring(0, n)]. *)
Definition substring0 (s : jsstring) (n : nat) : jsstring := firstn n s.

(** [parts.join(sep)]. *)
Fixpoint join (sep : jsstring) (parts : list jsstring) : jsstring :=
  match parts with
  | [] => []
  | [p] => p
  | p :: rest => p ++ sep ++ join sep rest
  end.

(** [n.toString()] for a non-negative integer. *)
Definition numToString (n : nat) : jsstring :=
  str (NilZero.string_of_uint (Nat.to_uint n)).

(** [s.padStart(width, fill)] with a one-character filler. *)
Definition padStart (s : jsstring) (width : nat) (fill : ascii) : jsstring :=
  repeat fill (width - length s) ++ s.

(** *** Successive matches of a pattern

    Every pattern of the library is used with the global flag, or
    through [split]: the engine looks for the leftmost position at or
    after the previous match end where the pattern matches.  A pattern is
    given by what it does at one position: [here s] is the matched text
    and the text after it when the pattern matches at the start of [s]. *)

Section Scan.
(** [M] is what a match carries: the matched text, possibly tagged. *)
Variable M : Type.
Variable here : jsstring -> option (M * jsstring).

(** [exec] from a given position: the text skipped, the match, the
    text after the match. *)
Fixpoint exec (s : jsstring) : option (jsstring * M * jsstring) :=
  match here s with
  | Some (m, after) => Some ([], m, after)
  | None =>
      match s with
      | [] => None
      | c :: r =>
          match exec r with
          | Some (before, m, after) => Some (c :: before, m, after)
          | None => None
          end
      end
  end.

(** All successive matches, each with the text between it and the
    previous one, and the text after the last match.  Each match
    consumes at least one character, so [length s] rounds are enough
    (lemma [execAll_fuel] below). *)
Fixpoint execAll (fuel : nat) (s : jsstring)
  : list (jsstring * M) * jsstring :=
  match fuel with
  | 0 => ([], s)
  | S fuel' =>
      match exec s with
      | None => ([], s)
      | Some (before, m, after) =>
          let (ms, tail) := execAll fuel' after in
          ((before, m) :: ms, tail)
      end
  end.
End Scan.

(** [s.match(re)] with a global [re], with [null] read as the empty array
    (the library always writes [(s.match(re) || [])]). *)
Definition matchAll (here : jsstring -> option (jsstring * jsstring))
    (s : jsstring) : list jsstring :=
  map snd (fst (execAll here (length s) s)).

(** [s.split(sep)]: the texts between the matches; with [capture] the
    matched texts are spliced in between (a pattern wrapped in one
    capturing group). *)
Definition splitWith (here : jsstring -> option (jsstring * jsstring))
    (capture : bool) (s : jsstring) : list jsstring :=
  let (ms, tail) := execAll here (length s) s in
  flat_map (fun bm => fst bm :: (if capture then [snd bm] else [])) ms
    ++ [tail].

(** A literal separator string, as in [s.split('|')]. *)
Definition literalHere (sep s : jsstring) : option (jsstring * jsstring) :=
  match sep with
  | [] => None
  | _ :: _ => if startsWith s sep then Some (sep, skipn (length sep) s)
              else None
  end.

Definition split (s sep : jsstring) : list jsstring :=
  splitWith (literalHere sep) false s.

(** [s.replace(/x/g, y)] for a literal [x]. *)
Definition replaceAll (s x y : jsstring) : jsstring :=
  let (ms, tail) := execAll (literalHere x) (length s) s in
  flat_map (fun bm => fst bm ++ y) ms ++ tail.

End Js.
Import Js.

(** ** The regular-expression fragment behind [new RegExp(source, flags)]

    Two call sites build a pattern from the search term at run time.
    The fragment modelled here is the one those patterns live in when the
    term is ordinary text: a sequence of atoms, each matching exactly one
    character, optionally wrapped in one capturing group.  A source
    outside the fragment is reported as [Beyond], never guessed. *)

Module Re.

Inductive exn : Type := SyntaxError.

Inductive outcome (A : Type) : Type :=
| Returns (a : A)
| Throws (e : exn)
| Beyond.
Arguments Returns {A} a.
Arguments Throws {A} e.
Arguments Beyond {A}.

Definition bind {A B} (x : outcome A) (k : A -> outcome B) : outcome B :=
  match x with
  | Returns a => k a
  | Throws e => Throws e
  | Beyond => Beyond
  end.

Notation "'do' x <- e ;; k" := (bind e (fun x => k))
  (at level 10, x pattern, e at level 100, k at level 200).

Inductive atom : Type :=
| Lit (c : ascii)      (* a pattern character, or an escaped syntax character *)
| Dot.                 (* [.] : any character but a line terminator *)

(** A compiled pattern: at least one atom, so a match is never empty. *)
Record regex : Type := mkRegex {
  capture : bool;
  first : atom;
  others : list atom;
  ignoreCase : bool
}.

(** SyntaxCharacter of the pattern grammar. *)
Definition isSyntaxChar (c : ascii) : bool :=
  existsb (char_eqb c) (str "^$\.*+?()[]{}|").

(** The longest run of atoms at the start of a pattern source, and the
    source left after it: a pattern character stands for itself, a
    backslash before a syntax character is an identity escape. *)
Fixpoint parseAtoms (src : jsstring) : list atom * jsstring :=
  match src with
  | [] => ([], [])
  | c :: r =>
      if char_eqb c "\"%char then
        match r with
        | e :: r' =>
            if isSyntaxChar e
            then let (a, rest) := parseAtoms r' in (Lit e :: a, rest)
            else ([], src)
        | [] => ([], src)
        end
      else if char_eqb c "."%char then
        let (a, rest) := parseAtoms r in (Dot :: a, rest)
      else if isSyntaxChar c then ([], src)
      else let (a, rest) := parseAtoms r in (Lit c :: a, rest)
  end.

Definition compiled (cap : bool) (a : list atom) (ic : bool) : outcome regex :=
  match a with
  | [] => Beyond
  | x :: xs => Returns (mkRegex cap x xs ic)
  end.

(** [new RegExp(src, flags)]: [ic] is the [i] flag (the [g] flag is set at
    both call sites).  A group opened and never closed is a SyntaxError
    ("Unterminated group"). *)
Definition RegExp (src : jsstring) (ic : bool) : outcome regex :=
  match src with
  | c :: r =>
      if char_eqb c "("%char then
        let (a, rest) := parseAtoms r in
        match rest with
        | [] => Throws SyntaxError
        | [d] => if char_eqb d ")"%char then compiled true a ic else Beyond
        | _ => Beyond
        end
      else
        let (a, rest) := parseAtoms src in
        match rest with
        | [] => compiled false a ic
        | d :: r' =>
            if char_eqb d "("%char then
              match snd (parseAtoms r') with
              | [] => Throws SyntaxError
              | _ => Beyond
              end
            else Beyond
        end
  | [] => Beyond
  end.

(** Code units of [c.toUpperCase()] for a Latin-1 character. *)
Definition upperUnits (c : ascii) : list nat :=
  let n := code c in
  if (97 <=? n) && (n <=? 122) then [n - 32]
  else if (224 <=? n) && (n <=? 254) && negb (n =? 247) then [n - 32]
  else if n =? 255 then [376]
  else if n =? 181 then [924]
  else if n =? 223 then [83; 83]
  else [n].

(** Canonicalize of the pattern semantics (no [u] flag). *)
Definition canonicalize (c : ascii) : nat :=
  let n := code c in
  match upperUnits c with
  | [cu] => if (128 <=? n) && (cu <? 128) then n else cu
  | _ => n
  end.

Definition atomMatches (ic : bool) (a : atom) (c : ascii) : bool :=
  match a with
  | Lit x => if ic then canonicalize x =? canonicalize c else char_eqb x c
  | Dot => negb (isLineTerminator c)
  end.

Fixpoint atomsHere (ic : bool) (a : list atom) (s : jsstring)
  : option (jsstring * jsstring) :=
  match a with
  | [] => Some ([], s)
  | x :: a' =>
      match s with
      | [] => None
      | c :: r =>
          if atomMatches ic x c then
            match atomsHere ic a' r with
            | Some (m, after) => Some (c :: m, after)
            | None => None
            end
          else None
      end
  end.

Definition here (rx : regex) (s : jsstring) : option (jsstring * jsstring) :=
  atomsHere (ignoreCase rx) (first rx :: others rx) s.

(** [s.match(rx)] and [s.split(rx)] for a global compiled pattern. *)
Definition matchRx (s : jsstring) (rx : regex) : list jsstring :=
  matchAll (here rx) s.

Definition splitRx (s : jsstring) (rx : regex) : list jsstring :=
  splitWith (here rx) (capture rx) s.

(** [term.replace(/[.*+?^${}()|[\]\\]/g, '\\$&')]: a backslash goes before
    every character of the class, which is the set of syntax characters. *)
Definition escapeRegExp (term : jsstring) : jsstring :=
  flat_map (fun c => if isSyntaxChar c then ["\"%char; c] else [c]) term.

End Re.
Import Re.

(** ** Segmentation engine: [splitTextIntoParagraphs] *)

Module Segmentation.

Inductive splitterKind : Type :=
| SepString (sep : jsstring)     (* a separator string *)
| SepBlankRun.                   (* the pattern /\n\s*\n/ *)

Record method : Type := mkMethod {
  name : jsstring;
  splitter : splitterKind;
  result : list jsstring
}.

Record methodInfo : Type := mkMethodInfo {
  infoName : jsstring;
  paragraphCount : nat;
  avgLength : nat;
  sample : list jsstring
}.

Record SplitInfo : Type := mkSplitInfo {
  originalLength : nat;
  normalizedLength : nat;
  hasCarriageReturns : bool;
  hasWindowsLineEndings : bool;
  doubleNewlineCount : nat;
  singleNewlineCount : nat;
  chosenMethod : jsstring;
  splitMethods : list methodInfo
}.

Record SplitResult : Type := mkSplitResult {
  paragraphs : list jsstring;
  splitInfo : SplitInfo
}.

(** [\s*\n] after a first line break, greedy with backtracking: take a
    white-space character and go on if that leads to a match, otherwise
    close the match on a line break here. *)
Fixpoint blankRunTail (s : jsstring) : option (jsstring * jsstring) :=
  match s with
  | [] => None
  | c :: r =>
      match (if isWhiteSpace c then blankRunTail r else None) with
      | Some (m, after) => Some (c :: m, after)
      | None => if char_eqb c LF then Some ([c], r) else None
      end
  end.

(** The pattern /\n\s*\n/ at one position. *)
Definition blankRunHere (s : jsstring) : option (jsstring * jsstring) :=
  match s with
  | [] => None
  | c :: r =>
      if char_eqb c LF then
        match blankRunTail r with
        | Some (m, after) => Some (c :: m, after)
        | None => None
        end
      else None
  end.

(** The anchored line tests of the "meaningful lines" filter; [\s*$] is
    [forallb isWhiteSpace] on what is left. *)
Definition isChar (x : ascii) (c : ascii) : bool := char_eqb c x.

(* /^#+\s*$/ *)
Definition onlyHashes (t : jsstring) : bool :=
  match t with
  | c :: r => isChar "#" c && forallb isWhiteSpace (dropWhile (isChar "#") r)
  | [] => false
  end.

(* /^[-*+]\s*$/ *)
Definition onlyBullet (t : jsstring) : bool :=
  match t with
  | c :: r => (isChar "-" c || isChar "*" c || isChar "+" c)
              && forallb isWhiteSpace r
  | [] => false
  end.

(* /^\s*$/ *)
Definition onlySpace (t : jsstring) : bool := forallb isWhiteSpace t.

(* /^```\s*$/ *)
Definition onlyFence (t : jsstring) : bool :=
  startsWith t (str "```") && forallb isWhiteSpace (skipn 3 t).

(* /^---+\s*$/ *)
Definition onlyRule (t : jsstring) : bool :=
  startsWith t (str "---")
  && forallb isWhiteSpace (dropWhile (isChar "-") (skipn 3 t)).

Definition keepLine (p : jsstring) : bool :=
  let trimmed := trim p in
  (0 <? length trimmed) && (3 <=? length trimmed).

Definition notBlank (p : jsstring) : bool := 0 <? length (trim p).

Definition meaningful (p : jsstring) : bool :=
  let trimmed := trim p in
  (10 <? length trimmed)
  && negb (onlyHashes trimmed)
  && negb (onlyBullet trimmed)
  && negb (onlySpace trimmed)
  && negb (onlyFence trimmed)
  && negb (onlyRule trimmed).

Definition nameSingle : jsstring := str "Single newline (\n) - Standard".
Definition nameDouble : jsstring := str "Double newline (\n\n) - Spaced paragraphs".
Definition nameMeaningful : jsstring := str "Meaningful lines (length > 10)".
Definition nameBlocks : jsstring := str "Paragraph blocks (empty line separated)".

(** [text.replace(/\r\n/g, '\n').replace(/\r/g, '\n')]. *)
Definition normalize (text : jsstring) : jsstring :=
  replaceAll (replaceAll text [CR; LF] [LF]) [CR] [LF].

(** The four candidate segmentations, [methods[0]] .. [methods[3]]. *)
Definition method0 (normalizedText : jsstring) : method :=
  mkMethod nameSingle (SepString [LF])
    (filter keepLine (split normalizedText [LF])).
Definition method1 (normalizedText : jsstring) : method :=
  mkMethod nameDouble (SepString [LF; LF])
    (filter notBlank (split normalizedText [LF; LF])).
Definition method2 (normalizedText : jsstring) : method :=
  mkMethod nameMeaningful (SepString [LF])
    (filter meaningful (split normalizedText [LF])).
Definition method3 (normalizedText : jsstring) : method :=
  mkMethod nameBlocks SepBlankRun
    (filter notBlank (splitWith blankRunHere false normalizedText)).

Definition count (m : method) : nat := length (result m).

(** [Math.round(sum / n)] for non-negative integers [sum] and [n > 0]. *)
Definition roundDiv (sum n : nat) : nat := (2 * sum + n) / (2 * n).

Definition describe (m : method) : methodInfo :=
  mkMethodInfo (name m) (count m)
    (if 0 <? count m
     then roundDiv (fold_left (fun sum p => sum + length p) (result m) 0)
                   (count m)
     else 0)
    (map (fun p => substring0 p 100
                   ++ (if 100 <? length p then str "..." else []))
         (firstn 3 (result m))).

(** The ordered rules that pick a candidate.  Counts are array lengths;
    on that range the comparison [c < a * 0.8] of the source, made on
    doubles, holds exactly when [5 * c < 4 * a]. *)
Definition chooseMethod (m0 m1 m2 m3 : method) : method :=
  let meaningfulLinesCount := count m2 in
  let singleNewlineCount := count m0 in
  let doubleNewlineCount := count m1 in
  let paragraphBlocksCount := count m3 in
  if (5 <? meaningfulLinesCount)
     && (5 * meaningfulLinesCount <? 4 * singleNewlineCount) then m2
  else if (doubleNewlineCount <? singleNewlineCount)
          && (3 <? singleNewlineCount) then m0
  else if 3 <? doubleNewlineCount then m1
  else if doubleNewlineCount <? paragraphBlocksCount then m3
  else m0.

(** First safety check: [n / 5] and [n / 3] are double divisions in the
    source, and [k < n / 5] holds exactly when [5 * k < n]. *)
Definition safetyTooMany (m1 m2 chosen : method) : method :=
  if 500 <? count chosen then
    if (0 <? count m1) && (5 * count m1 <? count chosen) then m1
    else if (0 <? count m2) && (3 * count m2 <? count chosen) then m2
    else chosen
  else chosen.

(** Second safety check. *)
Definition safetyTooFew (m0 : method) (normalizedLen : nat) (chosen : method)
  : method :=
  if (count chosen <? 5) && (1000 <? normalizedLen) then
    if count chosen * 2 <? count m0 then m0 else chosen
  else chosen.

Definition finalMethod (normalizedText : jsstring) : method :=
  let m0 := method0 normalizedText in
  let m1 := method1 normalizedText in
  let m2 := method2 normalizedText in
  let m3 := method3 normalizedText in
  safetyTooFew m0 (length normalizedText)
    (safetyTooMany m1 m2 (chooseMethod m0 m1 m2 m3)).

Definition splitTextIntoParagraphs (text : jsstring) : SplitResult :=
  let normalizedText := normalize text in
  let methods := [method0 normalizedText; method1 normalizedText;
                  method2 normalizedText; method3 normalizedText] in
  let chosen := finalMethod normalizedText in
  mkSplitResult (result chosen)
    (mkSplitInfo (length text) (length normalizedText)
       (includes text [CR]) (includes text [CR; LF])
       (length (matchAll (literalHere [LF; LF]) normalizedText))
       (length (matchAll (literalHere [LF]) normalizedText))
       (name chosen)
       (map describe methods)).

Definition countParagraphs (text : jsstring) : nat :=
  length (paragraphs (splitTextIntoParagraphs text)).

End Segmentation.
Import Segmentation.

(** ** Search matcher: [processFoundParagraph] and [searchInFiles] *)

Module Search.

Record FileData : Type := mkFileData {
  id : jsstring;
  fileDataName : jsstring;
  content : jsstring;
  size : nat;
  type : jsstring
}.

Record SearchResult : Type := mkSearchResult {
  fileName : jsstring;
  foundParagraphs : list jsstring;
  totalParagraphs : nat;
  occurrenceCount : nat
}.

Record DebugDetails : Type := mkDebugDetails {
  dFileName : jsstring;
  dParagraphIndex : nat;
  dOriginalParagraph : jsstring;
  searchTerm : jsstring;
  containsPipe : bool;
  splitCount : nat;
  sentences : list jsstring;
  selectedSentences : list jsstring;
  finalParagraph : jsstring
}.

Record DebugInfo : Type := mkDebugInfo {
  debugFileName : jsstring;
  paragraphIndex : nat;
  originalParagraph : jsstring;
  processedParagraph : jsstring;
  debugDetails : DebugDetails
}.

Definition PIPE : jsstring := str "|".

(** The [for] loop over [sentences[1..]]: the parts kept for the final
    paragraph and the trace lines, both in order. *)
Fixpoint selectSentences (processedSearchTerm : jsstring)
    (rest : list jsstring) (parts selected : list jsstring)
  : list jsstring * list jsstring :=
  match rest with
  | [] => (parts, selected)
  | sentence :: rest' =>
      if includes (toLowerCase sentence) processedSearchTerm
      then selectSentences processedSearchTerm rest'
             (parts ++ [sentence]) (selected ++ [str "[MATCH] " ++ sentence])
      else selectSentences processedSearchTerm rest'
             parts (selected ++ [str "[SKIP] " ++ sentence])
  end.

Definition processFoundParagraph (paragraph searchTerm fileName : jsstring)
    (paragraphIndex : nat) : jsstring * DebugDetails :=
  let processedSearchTerm := toLowerCase (trim searchTerm) in
  let debugData sentences selected final :=
    mkDebugDetails fileName paragraphIndex paragraph processedSearchTerm
      (includes paragraph PIPE) (length (split paragraph PIPE))
      sentences selected final in
  if includes paragraph PIPE && (3 <=? length (split paragraph PIPE)) then
    let sentences := map trim (split paragraph PIPE) in
    match sentences with
    | [] => (paragraph, debugData [] [] paragraph)   (* split is never empty *)
    | base :: rest =>
        let (parts, selected) :=
          selectSentences processedSearchTerm rest
            [base] [str "[BASE] " ++ base] in
        let result := join [SP] parts in
        (result, debugData sentences selected result)
    end
  else (paragraph, debugData [] [] paragraph).

(** [lowerParagraph.match(new RegExp(processedTerm, 'g')) || []).length]:
    the term goes into the pattern as it is. *)
Definition countOccurrences (lowerParagraph processedTerm : jsstring)
  : outcome nat :=
  do rx <- RegExp processedTerm false ;;
  Returns (length (matchRx lowerParagraph rx)).

(** The state of one file's [forEach]: paragraphs found, occurrences
    counted, trace records. *)
Definition fileState : Type := (list jsstring * nat * list DebugInfo)%type.

Fixpoint forEachParagraph (file : FileData) (searchTerm processedTerm : jsstring)
    (ps : list jsstring) (index : nat) (st : fileState) : outcome fileState :=
  match ps with
  | [] => Returns st
  | paragraph :: ps' =>
      let '(found, occ, dbg) := st in
      let lowerParagraph := toLowerCase paragraph in
      if includes lowerParagraph processedTerm then
        do n <- countOccurrences lowerParagraph processedTerm ;;
        let (processed, debug) :=
          processFoundParagraph paragraph searchTerm (fileDataName file) index in
        forEachParagraph file searchTerm processedTerm ps' (S index)
          (found ++ [processed], occ + n,
           dbg ++ [mkDebugInfo (fileDataName file) index paragraph processed debug])
      else forEachParagraph file searchTerm processedTerm ps' (S index) st
  end.

Definition searchOutput : Type := (list SearchResult * list DebugInfo)%type.

Fixpoint forEachFile (files : list FileData) (searchTerm processedTerm : jsstring)
    (ids : list jsstring) (acc : searchOutput) : outcome searchOutput :=
  match ids with
  | [] => Returns acc
  | fileId :: ids' =>
      match find (fun f => str_eqb (id f) fileId) files with
      | None => forEachFile files searchTerm processedTerm ids' acc
      | Some file =>
          let allParagraphs := paragraphs (splitTextIntoParagraphs (content file)) in
          do st <- forEachParagraph file searchTerm processedTerm
                     allParagraphs 0 ([], 0, []) ;;
          let '(found, occ, dbg) := st in
          if 0 <? length found then
            forEachFile files searchTerm processedTerm ids'
              (fst acc ++ [mkSearchResult (fileDataName file) found
                             (length allParagraphs) occ],
               snd acc ++ dbg)
          else forEachFile files searchTerm processedTerm ids' acc
      end
  end.

Definition searchInFiles (files : list FileData) (selectedFileIds : list jsstring)
    (searchTerm : jsstring) : outcome searchOutput :=
  if (length (trim searchTerm) =? 0) || (length selectedFileIds =? 0)
  then Returns ([], [])
  else forEachFile files searchTerm (toLowerCase (trim searchTerm))
         selectedFileIds ([], []).

End Search.
Import Search.

(** ** Inline format parser and highlight compositor *)

Module Format.

Record ParsedMarkdownSegment : Type := mkSegment {
  text : jsstring;
  isBold : bool;
  isItalic : bool;
  isCode : bool;
  isStrikethrough : bool;
  isHighlighted : bool
}.

Definition plain (t : jsstring) : ParsedMarkdownSegment :=
  mkSegment t false false false false false.

(** [.*?] followed by the closing delimiter: stop at the first position
    where the delimiter stands, walking over characters [.] accepts. *)
Fixpoint lazyUntil (close : jsstring) (s : jsstring)
  : option (jsstring * jsstring) :=
  if startsWith s close then Some (close, skipn (length close) s)
  else match s with
       | [] => None
       | c :: r =>
           if isLineTerminator c then None
           else match lazyUntil close r with
                | Some (m, after) => Some (c :: m, after)
                | None => None
                end
       end.

(** One alternative [open .*? close] at the start of [s]. *)
Definition delimited (delim : jsstring) (s : jsstring)
  : option (jsstring * jsstring) :=
  if startsWith s delim then
    match lazyUntil delim (skipn (length delim) s) with
    | Some (m, after) => Some (delim ++ m, after)
    | None => None
    end
  else None.

Inductive alternative : Type := AltBold | AltItalic | AltCode | AltStrike.

Definition delimiterOf (a : alternative) : jsstring :=
  match a with
  | AltBold => str "**"
  | AltItalic => str "*"
  | AltCode => str "`"
  | AltStrike => str "~~"
  end.

Definition orElse {A} (x y : option A) : option A :=
  match x with Some _ => x | None => y end.

Definition tagged (a : alternative) (s : jsstring)
  : option (alternative * jsstring * jsstring) :=
  match delimited (delimiterOf a) s with
  | Some (m, after) => Some (a, m, after)
  | None => None
  end.

(** The alternation [\*\*.*?\*\* | \*.*?\* | `.*?` | ~~.*?~~] at one
    position: the first alternative that matches wins. *)
Definition markdownHere (s : jsstring)
  : option (alternative * jsstring * jsstring) :=
  orElse (tagged AltBold s)
    (orElse (tagged AltItalic s) (orElse (tagged AltCode s) (tagged AltStrike s))).

(** The body of the [while] loop after the plain text: flags and clean
    text are decided on the matched text alone. *)
Definition styled (matchedText : jsstring) : ParsedMarkdownSegment :=
  if startsWith matchedText (str "**") && endsWith matchedText (str "**")
  then mkSegment (slice matchedText 2 2) true false false false false
  else if startsWith matchedText (str "*") && endsWith matchedText (str "*")
  then mkSegment (slice matchedText 1 1) false true false false false
  else if startsWith matchedText (str "`") && endsWith matchedText (str "`")
  then mkSegment (slice matchedText 1 1) false false true false false
  else if startsWith matchedText (str "~~") && endsWith matchedText (str "~~")
  then mkSegment (slice matchedText 2 2) false false false true false
  else mkSegment matchedText false false false false false.

Definition plainIfAny (t : jsstring) : list ParsedMarkdownSegment :=
  match t with
  | [] => []
  | _ :: _ => [plain t]
  end.

(** The [while ((match = markdownRegex.exec(text)) !== null)] loop, on the
    text from [lastIndex] on.  A match has at least two characters, so the
    fuel [length text] is never used up before the text is. *)
Fixpoint splitByMarkdownLoop (fuel : nat) (rest : jsstring)
  : list ParsedMarkdownSegment :=
  match fuel with
  | 0 => plainIfAny rest
  | S fuel' =>
      match exec markdownHere rest with
      | None => plainIfAny rest
      | Some (before, (_, matchedText), after) =>
          plainIfAny before ++ styled matchedText
            :: splitByMarkdownLoop fuel' after
      end
  end.

Definition splitByMarkdown (text : jsstring) : list ParsedMarkdownSegment :=
  splitByMarkdownLoop (length text) text.

Definition withText (segment : ParsedMarkdownSegment) (part : jsstring)
    (highlighted : bool) : ParsedMarkdownSegment :=
  mkSegment part (isBold segment) (isItalic segment) (isCode segment)
    (isStrikethrough segment) highlighted.

(** What [applyHighlightToSegments] does with one segment. *)
Definition highlightSegment (processedTerm : jsstring)
    (segment : ParsedMarkdownSegment) : outcome (list ParsedMarkdownSegment) :=
  if includes (toLowerCase (text segment)) processedTerm then
    do regex <- RegExp (str "(" ++ escapeRegExp processedTerm ++ str ")") true ;;
    let parts := splitRx (text segment) regex in
    Returns
      (flat_map
         (fun part =>
            match part with
            | [] => []
            | _ :: _ =>
                [withText segment part
                   (str_eqb (toLowerCase part) processedTerm)]
            end)
         parts)
  else Returns [segment].

Fixpoint forEachSegment (processedTerm : jsstring)
    (segments result : list ParsedMarkdownSegment)
  : outcome (list ParsedMarkdownSegment) :=
  match segments with
  | [] => Returns result
  | segment :: segments' =>
      do out <- highlightSegment processedTerm segment ;;
      forEachSegment processedTerm segments' (result ++ out)
  end.

Definition applyHighlightToSegments (segments : list ParsedMarkdownSegment)
    (searchTerm : jsstring) : outcome (list ParsedMarkdownSegment) :=
  if length (trim searchTerm) =? 0 then Returns segments
  else forEachSegment (toLowerCase (trim searchTerm)) segments [].

Definition getFormattedTextSegments (text searchTerm : jsstring)
  : outcome (list ParsedMarkdownSegment) :=
  applyHighlightToSegments (splitByMarkdown text) searchTerm.

End Format.
Import Format.

(** ** Export renderer: what [exportToDocx] hands to the document writer

    The writer ([docx]) and [saveAs] are external.  The embedding keeps
    the options each [TextRun] and [Paragraph] is constructed with, in
    order, and the file name passed to [saveAs].  The two readings of the
    clock are parameters. *)

Module Renderer.

Inductive headingLevel : Type := TITLE | HEADING_1.

Record TextRun : Type := mkTextRun {
  runText : jsstring;
  bold : option bool;
  italics : option bool;
  strike : option bool;
  highlight : option jsstring;
  font : option jsstring
}.

Record Paragraph : Type := mkParagraph {
  paraText : option jsstring;
  heading : option headingLevel;
  spacingBefore : option nat;
  spacingAfter : option nat;
  children : option (list TextRun);
  bottomBorder : bool
}.

Definition numberPrefix (paragraphCounter : nat) : jsstring :=
  padStart (numToString paragraphCounter) 2 "0" ++ str ". ".

Definition prefixRun (paragraphCounter : nat) : TextRun :=
  mkTextRun (numberPrefix paragraphCounter) (Some true) None None None None.

Definition segmentRun (segment : ParsedMarkdownSegment) : TextRun :=
  mkTextRun (text segment) (Some (isBold segment)) (Some (isItalic segment))
    (Some (isStrikethrough segment))
    (if isHighlighted segment then Some (str "yellow") else None)
    (if isCode segment then Some (str "Courier New") else None).

Definition entryParagraph (textRuns : list TextRun) : Paragraph :=
  mkParagraph None None None (Some 200) (Some textRuns) false.

(** State of the export loops: the global paragraph counter and the
    children pushed so far. *)
Definition exportState : Type := (nat * list Paragraph)%type.

Fixpoint forEachFound (searchTerm : jsstring) (ps : list jsstring)
    (st : exportState) : outcome exportState :=
  match ps with
  | [] => Returns st
  | paragraph :: ps' =>
      let paragraphCounter := S (fst st) in
      do segments <- getFormattedTextSegments paragraph searchTerm ;;
      let textRuns := prefixRun paragraphCounter :: map segmentRun segments in
      forEachFound searchTerm ps'
        (paragraphCounter, snd st ++ [entryParagraph textRuns])
  end.

Definition fileHeader (r : SearchResult) : list Paragraph :=
  [ mkParagraph (Some (str "File: " ++ fileName r)) (Some HEADING_1)
      (Some 400) (Some 200) None false;
    mkParagraph
      (Some (str "Found " ++ numToString (length (foundParagraphs r))
             ++ str " paragraphs with " ++ numToString (occurrenceCount r)
             ++ str " occurrences"))
      None None (Some 200) None false ].

Fixpoint forEachResult (searchTerm : jsstring) (results : list SearchResult)
    (st : exportState) : outcome exportState :=
  match results with
  | [] => Returns st
  | r :: results' =>
      do st' <- forEachFound searchTerm (foundParagraphs r)
                  (fst st, snd st ++ fileHeader r) ;;
      forEachResult searchTerm results' st'
  end.

Definition isAlnum (c : ascii) : bool :=
  let n := code c in
  ((97 <=? n) && (n <=? 122)) || ((65 <=? n) && (n <=? 90))
  || ((48 <=? n) && (n <=? 57)).

(** [searchTerm.replace(/[^a-zA-Z0-9]/g, '_')]. *)
Definition termSlug (searchTerm : jsstring) : jsstring :=
  map (fun c => if isAlnum c then c else "_"%char) searchTerm.

Definition exportFileName (searchTerm isoNow : jsstring) : jsstring :=
  str "search_results_" ++ termSlug searchTerm ++ str "_"
    ++ firstn 10 isoNow ++ str ".docx".

Definition titleParagraphs (searchTerm localeDate : jsstring) : list Paragraph :=
  [ mkParagraph
      (Some (str "Search Results for " ++ [QUOTE] ++ searchTerm ++ [QUOTE]))
      (Some TITLE) None (Some 400) None false;
    mkParagraph (Some (str "Generated on: " ++ localeDate))
      None None (Some 600) None false ].

Definition closingRule : Paragraph :=
  mkParagraph (Some []) None (Some 400) None None true.

(** The children of the document and the file name given to [saveAs]. *)
Definition exportToDocx (localeDate isoNow : jsstring)
    (results : list SearchResult) (searchTerm : jsstring)
  : outcome (list Paragraph * jsstring) :=
  do st <- forEachResult searchTerm results
             (0, titleParagraphs searchTerm localeDate) ;;
  Returns (snd st ++ [closingRule], exportFileName searchTerm isoNow).

End Renderer.
Import Renderer.

(** ** Vocabulary of the properties *)

Module Props.

(** Concatenation of the [text] fields of a span sequence. *)
Definition concatText (segments : list ParsedMarkdownSegment) : jsstring :=
  flat_map text segments.

(** The formatting runs the parser recognises in a text, in order: each
    with the text before it, the alternative that matched and the matched
    text; and the text after the last run. *)
Definition markdownRuns (t : jsstring)
  : list (jsstring * (alternative * jsstring)) * jsstring :=
  execAll markdownHere (length t) t.

(** What a run carries between its two delimiter markers. *)
Definition innerOf (run : alternative * jsstring) : jsstring :=
  let d := length (delimiterOf (fst run)) in slice (snd run) d d.

(** Number of marker characters of a run: opening plus closing. *)
Definition markersOf (run : alternative * jsstring) : nat :=
  2 * length (delimiterOf (fst run)).

Definition strippedMarkers (t : jsstring) : nat :=
  list_sum (map (fun r => markersOf (snd r)) (fst (markdownRuns t))).

(** The text with the delimiter markers of its recognised runs removed. *)
Definition withoutMarkers (t : jsstring) : jsstring :=
  flat_map (fun r => fst r ++ innerOf (snd r)) (fst (markdownRuns t))
    ++ snd (markdownRuns t).

(** Non-overlapping, case-insensitive occurrences of the trimmed term,
    scanning from the left. *)
Definition nonOverlappingCount (paragraph term : jsstring) : nat :=
  length (matchAll (literalHere (toLowerCase (trim term)))
            (toLowerCase paragraph)).

(** One flag per character of the highlighted output. *)
Definition highlightMask (out : list ParsedMarkdownSegment) : list bool :=
  flat_map (fun o => repeat (isHighlighted o) (length (text o))) out.

(** The term occurs at index [i] of the concatenated span texts, and the
    boundary after the spans [before] falls strictly inside it. *)
Definition straddles (before after : list ParsedMarkdownSegment)
    (term : jsstring) (i : nat) : Prop :=
  startsWith (skipn i (toLowerCase (concatText (before ++ after))))
             (toLowerCase (trim term)) = true
  /\ i < length (concatText before) < i + length (trim term).

(** The sanitisation rule in the words of the interface description:
    characters outside [A-Za-z0-9] are removed. *)
Definition stripNonAlnum (term : jsstring) : jsstring := filter isAlnum term.

(** The character class [A-Za-z0-9], by code. *)
Definition asciiAlnum (c : ascii) : Prop :=
  65 <= code c <= 90 \/ 97 <= code c <= 122 \/ 48 <= code c <= 57.

(** The text runs of the numbered entries among the document children. *)
Definition entryRuns (children : list Paragraph) : list (list TextRun) :=
  flat_map (fun p => match Renderer.children p with
                     | Some runs => [runs]
                     | None => []
                     end) children.

(** The span pushed for one piece of a cut span: nothing for an empty
    piece. *)
Definition partSpans (processedTerm : jsstring)
    (segment : ParsedMarkdownSegment) (part : jsstring)
  : list ParsedMarkdownSegment :=
  match part with
  | [] => []
  | _ :: _ =>
      [withText segment part (str_eqb (toLowerCase part) processedTerm)]
  end.

(** The parts one span is cut into for a non-empty lowered term: the
    value [highlightSegment] returns (lemma [highlightSegment_returns]). *)
Definition highlightParts (processedTerm : jsstring)
    (segment : ParsedMarkdownSegment) : list ParsedMarkdownSegment :=
  if includes (toLowerCase (text segment)) processedTerm then
    flat_map (partSpans processedTerm segment)
      (splitWith (atomsHere true (map Lit processedTerm)) true (text segment))
  else [segment].

(** The value [getFormattedTextSegments] returns. *)
Definition formattedSegments (t searchTerm : jsstring)
  : list ParsedMarkdownSegment :=
  if length (trim searchTerm) =? 0 then splitByMarkdown t
  else flat_map (highlightParts (toLowerCase (trim searchTerm)))
         (splitByMarkdown t).

(** The runs of the entries numbered [k + 1], [k + 2], ... *)
Fixpoint entriesFrom (searchTerm : jsstring) (k : nat) (ps : list jsstring)
  : list (list TextRun) :=
  match ps with
  | [] => []
  | p :: ps' =>
      (prefixRun (S k) :: map segmentRun (formattedSegments p searchTerm))
        :: entriesFrom searchTerm (S k) ps'
  end.

(** [c < 80% of a], [k < n / q] on counts, as rationals. *)
Definition ofCount (n : nat) : Q := inject_Z (Z.of_nat n).

(** *** Documents used as concrete inputs *)

Definition line24 : jsstring := str "abcdefghijklmnopqrstuvwx".

(** 60 lines of 24 characters; the first two are separated by a double
    line break, the others by a single one: 1500 characters. *)
Definition doc1500 : jsstring :=
  line24 ++ [LF; LF]
  ++ flat_map (fun _ => line24 ++ [LF]) (seq 0 58) ++ line24.

(** The same figures on a text that is mostly blank lines: one line of
    1377 letters, a double line break, two lines of three letters with a
    line holding one space between them, then 56 more lines holding one
    space: 1500 characters, 60 line breaks, one double line break. *)
Definition docSparse : jsstring :=
  repeat "x"%char 1377 ++ [LF; LF]
  ++ str "abc" ++ [LF; SP; LF] ++ str "abd"
  ++ flat_map (fun _ => [LF; SP]) (seq 0 56).

(** 501 blocks separated by a line holding one space; two blocks have
    three letters, the others one: 2005 characters. *)
Definition blankSep : jsstring := [LF; SP; LF].
Definition docBlocks : jsstring :=
  str "xxx" ++ blankSep ++ str "yyy"
  ++ flat_map (fun _ => blankSep ++ str "z") (seq 0 499).

Definition file (content : jsstring) : FileData :=
  mkFileData (str "1") (str "notes.md") content (length content)
    (str "text/markdown").

Definition twoDocs : list SearchResult :=
  [ mkSearchResult (str "A.md") [str "first abc"; str "second abc"] 5 2;
    mkSearchResult (str "B.md") [str "third abc"] 3 1 ].

End Props.
Import Props.

(** ** Plain-text rendering: [removeMarkdownSyntax] *)

Module Plain.

(** [s.replace(/d(.*?)d/g, '$1')] for a delimiter [d]: every run loses its
    two markers; group 1 is the run between them. *)
Definition replaceDelimited (d s : jsstring) : jsstring :=
  let (ms, tail) := execAll (delimited d) (length s) s in
  flat_map (fun bm => fst bm ++ slice (snd bm) (length d) (length d)) ms
    ++ tail.

Definition removeMarkdownSyntax (t : jsstring) : jsstring :=
  replaceDelimited (str "~~")
    (replaceDelimited (str "`")
       (replaceDelimited (str "*") (replaceDelimited (str "**") t))).

End Plain.
Import Plain.

(** ** Data files: the loader service

    [fetch] is external: a response is [Some body] when the request
    succeeds with an ok status and [None] otherwise (a failed request or
    an exception, both of which the code turns into the same result). *)

Module Loader.

(** [new Blob([content]).size]: the UTF-8 length; a code unit below
    U+0080 takes one byte, the others of the Latin-1 range two. *)
Definition blobSize (content : jsstring) : nat :=
  list_sum (map (fun c => if code c <? 128 then 1 else 2) content).

Definition dataPrefix : jsstring := str "data-".

Definition loadDataFile (filename : jsstring) (response : option jsstring)
  : option FileData :=
  match response with
  | None => None
  | Some content =>
      Some (mkFileData (dataPrefix ++ filename) filename content
              (blobSize content)
              (if endsWith filename (str ".md") then str "text/markdown"
               else str "text/plain"))
  end.

(** The lines of an index file that name a data file. *)
Definition loadFromIndexFile (response : option jsstring) : list jsstring :=
  match response with
  | None => []
  | Some content =>
      filter (fun filename => endsWith filename (str ".md")
                              || endsWith filename (str ".txt"))
        (filter (fun line => (0 <? length line)
                             && negb (startsWith line (str "#")))
           (map trim (split content [LF])))
  end.

(** [availableFilenames.map(loadDataFile)] with the null results filtered
    out; [fetchFile] is the response for each file name. *)
Definition loadFiles (fetchFile : jsstring -> option jsstring)
    (availableFilenames : list jsstring) : list FileData :=
  flat_map (fun filename =>
              match loadDataFile filename (fetchFile filename) with
              | Some f => [f]
              | None => []
              end) availableFilenames.

Definition isDataFile (fileId : jsstring) : bool :=
  startsWith fileId dataPrefix.

Definition headerLine1 : jsstring :=
  str "# Arquivos dispon" ++ [ascii_of_nat 237]
  ++ str "veis em /public/data/".
Definition headerLine2 : jsstring :=
  str "# Este arquivo pode ser usado para listar os arquivos dispon"
  ++ [ascii_of_nat 237] ++ str "veis".
Definition headerLine3 : jsstring :=
  str "# Linhas come" ++ [ascii_of_nat 231] ++ str "ando com # s"
  ++ [ascii_of_nat 227] ++ str "o coment" ++ [ascii_of_nat 225]
  ++ str "rios e ser" ++ [ascii_of_nat 227] ++ str "o ignoradas".
Definition headerLine4 : jsstring := str "# Um arquivo por linha".

(** The template literal of the header: four comment lines and a blank
    line. *)
Definition indexHeader : jsstring :=
  headerLine1 ++ [LF] ++ headerLine2 ++ [LF] ++ headerLine3 ++ [LF]
  ++ headerLine4 ++ [LF] ++ [LF].

Definition generateIndexFileContent (filenames : list jsstring) : jsstring :=
  indexHeader ++ join [LF] filenames.

End Loader.
Import Loader.

(** ** The lexical module: file list, selection and statistics

    The component keeps its file list and its selection in state; each
    handler is the function from the state before to the state after. *)

Module Lexical.

Record ModuleState : Type := mkState {
  files : list FileData;
  selectedFileIds : list jsstring
}.

(** [array.includes(x)] on an array of strings. *)
Definition includesId (ids : list jsstring) (x : jsstring) : bool :=
  existsb (str_eqb x) ids.

(** The state updates of [loadDataFiles] once the data files are
    loaded: they replace the data files of the list, uploaded files stay;
    the selection becomes LO.md alone if it is there, all data files
    otherwise. *)
Definition loadDataFiles (dataFiles : list FileData) (st : ModuleState)
  : ModuleState :=
  mkState
    (dataFiles
     ++ filter (fun f => negb (startsWith (id f) (str "data-"))) (files st))
    (match find (fun f => str_eqb (fileDataName f) (str "LO.md")) dataFiles with
     | Some loFile => [id loFile]
     | None => map id dataFiles
     end).

(** The effect that keeps [selectedFiles] up to date. *)
Definition selectedFiles (st : ModuleState) : list FileData :=
  filter (fun file => includesId (selectedFileIds st) (id file)) (files st).

Definition handleFileConfiguration (fileIds : list jsstring)
    (st : ModuleState) : ModuleState :=
  mkState (files st) fileIds.

Definition handleRemoveFile (fileId : jsstring) (st : ModuleState)
  : ModuleState :=
  if startsWith fileId (str "data-") then st
  else mkState
         (filter (fun f => negb (str_eqb (id f) fileId)) (files st))
         (filter (fun i => negb (str_eqb i fileId)) (selectedFileIds st)).

(** The two totals of [renderStats]. *)
Definition totalOccurrences (searchResults : list SearchResult) : nat :=
  fold_left (fun sum result => sum + occurrenceCount result) searchResults 0.

Definition totalParagraphsFound (searchResults : list SearchResult) : nat :=
  fold_left (fun sum result => sum + length (foundParagraphs result))
    searchResults 0.

End Lexical.
Import Lexical.

(** ** On-screen results: [processTextWithHighlight] and [processMarkdown]

    The elements returned are kept as data: one constructor per tag. *)

Module Display.

Inductive inline : Type :=
| Strong (content : jsstring)
| Em (content : jsstring)
| CodeEl (content : jsstring)
| Del (content : jsstring)
| Span (content : jsstring).

Inductive rendered : Type :=
| RawText (t : jsstring)
| Parts (parts : list (bool * list inline)).   (* [true]: a <mark> *)

(** The markdown pattern as [split] uses it: the matched text. *)
Definition markdownText (s : jsstring) : option (jsstring * jsstring) :=
  match markdownHere s with
  | Some (_, m, after) => Some (m, after)
  | None => None
  end.

(** The element for one part of the split; nothing for an empty part. *)
Definition markdownElement (part : jsstring) : list inline :=
  match part with
  | [] => []
  | _ :: _ =>
      if startsWith part (str "**") && endsWith part (str "**")
      then [Strong (slice part 2 2)]
      else if startsWith part (str "*") && endsWith part (str "*")
              && negb (startsWith part (str "**"))
      then [Em (slice part 1 1)]
      else if startsWith part (str "`") && endsWith part (str "`")
      then [CodeEl (slice part 1 1)]
      else if startsWith part (str "~~") && endsWith part (str "~~")
      then [Del (slice part 2 2)]
      else [Span part]
  end.

Definition processMarkdown (t : jsstring) : list inline :=
  match t with
  | [] => []
  | _ :: _ => flat_map markdownElement (splitWith markdownText true t)
  end.

(** [regex.test(s)] for a global pattern whose [lastIndex] is given: the
    answer and the new [lastIndex]. *)
Definition regexTest (rx : regex) (lastIndex : nat) (s : jsstring)
  : bool * nat :=
  if length s <? lastIndex then (false, 0)
  else match exec (here rx) (skipn lastIndex s) with
       | Some (before, m, _) =>
           (true, lastIndex + length before + length m)
       | None => (false, 0)
       end.

(** [parts.map(...)]: the one pattern object is tested on each part in
    turn, its [lastIndex] carried from one part to the next. *)
Fixpoint renderParts (rx : regex) (lastIndex : nat) (parts : list jsstring)
  : list (bool * list inline) :=
  match parts with
  | [] => []
  | part :: parts' =>
      let (isHighlight, lastIndex') := regexTest rx lastIndex part in
      (isHighlight, processMarkdown part) :: renderParts rx lastIndex' parts'
  end.

Definition processTextWithHighlight (t term : jsstring) : outcome rendered :=
  if length (trim term) =? 0 then Returns (RawText t)
  else
    do regex <- RegExp (str "(" ++ escapeRegExp term ++ str ")") true ;;
    Returns (Parts (renderParts regex 0 (splitRx t regex))).

End Display.
Import Display.

(** ** Vocabulary of the further properties *)

Module MoreProps.

(** The document [exportToDocx] builds for the results from number
    [k + 1] on: for each result its two header lines, then its entries. *)
Fixpoint blocksFrom (searchTerm : jsstring) (k : nat)
    (results : list SearchResult) : list Paragraph :=
  match results with
  | [] => []
  | r :: results' =>
      fileHeader r
      ++ map entryParagraph (entriesFrom searchTerm k (foundParagraphs r))
      ++ blocksFrom searchTerm (k + length (foundParagraphs r)) results'
  end.

(** What one trace record says about the paragraph it was made for. *)
Definition traceOf (term : jsstring) (file : FileData) (ps : list jsstring)
    (d : DebugInfo) : Prop :=
  debugFileName d = fileDataName file
  /\ nth_error ps (paragraphIndex d) = Some (originalParagraph d)
  /\ includes (toLowerCase (originalParagraph d)) (toLowerCase (trim term))
     = true
  /\ processedParagraph d
     = fst (processFoundParagraph (originalParagraph d) term
              (fileDataName file) (paragraphIndex d)).

Definition traceRecord (allFiles : list FileData) (term : jsstring)
    (d : DebugInfo) : Prop :=
  exists file,
    In file allFiles
    /\ traceOf term file (paragraphs (splitTextIntoParagraphs (content file))) d.

(** What a result says about the file it was made for. *)
Definition resultOf (allFiles : list FileData) (ids : list jsstring)
    (r : SearchResult) : Prop :=
  exists file,
    In file allFiles /\ In (id file) ids
    /\ fileName r = fileDataName file
    /\ totalParagraphs r = countParagraphs (content file)
    /\ foundParagraphs r <> []
    /\ length (foundParagraphs r) <= totalParagraphs r.

(** Occurrences of the term in the paragraph a trace record was made
    for. *)
Definition countedIn (term : jsstring) (d : DebugInfo) : nat :=
  nonOverlappingCount (originalParagraph d) term.

(** A term in which no character belongs to the pattern syntax. *)
Definition ordinary (t : jsstring) : bool :=
  forallb (fun c => negb (isSyntaxChar c)) t.

(** The four style flags of a span. *)
Definition styleOf (s : ParsedMarkdownSegment) : bool * bool * bool * bool :=
  (isBold s, isItalic s, isCode s, isStrikethrough s).

(** A span of the format parser: not highlighted; not empty when it has
    no style; on one line and of exactly one style when it has one. *)
Definition wellFormedSpan (s : ParsedMarkdownSegment) : Prop :=
  isHighlighted s = false
  /\ (styleOf s = (false, false, false, false) -> text s <> [])
  /\ (styleOf s <> (false, false, false, false) ->
      forallb (fun c => negb (isLineTerminator c)) (text s) = true
      /\ (styleOf s = (true, false, false, false)
          \/ styleOf s = (false, true, false, false)
          \/ styleOf s = (false, false, true, false)
          \/ styleOf s = (false, false, false, true))).

(** The parts of a split with the flag each should carry: the captured
    matches and nothing else. *)
Definition captureFlags (ms : list (jsstring * jsstring)) (tail : jsstring)
  : list (jsstring * bool) :=
  flat_map (fun bm => [(fst bm, false); (snd bm, true)]) ms ++ [(tail, false)].

(** Every selected id is the id of a file of the list. *)
Definition selectionKnown (st : ModuleState) : Prop :=
  forall i, In i (selectedFileIds st) ->
            exists f, In f (Lexical.files st) /\ id f = i.

(** A file name as the index file lists it. *)
Definition indexable (filename : jsstring) : Prop :=
  trim filename = filename
  /\ ~ In LF filename
  /\ startsWith filename (str "#") = false
  /\ (endsWith filename (str ".md") = true
      \/ endsWith filename (str ".txt") = true).

End MoreProps.
Import MoreProps.

(** ** Sanity checks of the embedding on small inputs *)

Example split_pipe :
  split (str "a|b||c") (str "|") = [str "a"; str "b"; str ""; str "c"].
Proof. reflexivity. Qed.

Example split_double_newline :
  split [LF; LF; LF] [LF; LF] = [[]; [LF]].
Proof. reflexivity. Qed.

Example trim_both : trim (str "  a b ") = str "a b".
Proof. reflexivity. Qed.

Example blank_run_split :
  splitWith blankRunHere false (str "a" ++ [LF; SP; LF; LF] ++ str "b")
  = [str "a"; str "b"].
Proof. reflexivity. Qed.

Example markdown_bold_then_plain :
  splitByMarkdown (str "x **b** `c` *")
  = [plain (str "x "); mkSegment (str "b") true false false false false;
     plain (str " "); mkSegment (str "c") false false true false false;
     plain (str " *")].
Proof. reflexivity. Qed.

Example regexp_escaped_group :
  RegExp (str "(" ++ escapeRegExp (str "a.b") ++ str ")") true
  = Returns (mkRegex true (Lit "a") [Lit "."; Lit "b"] true).
Proof. reflexivity. Qed.

Example highlight_case_preserved :
  getFormattedTextSegments (str "this has abc in it") (str "ABC")
  = Returns [plain (str "this has ");
             mkSegment (str "abc") false false false false true;
             plain (str " in it")].
Proof. reflexivity. Qed.

(** ** Facts about the string primitives *)

Section StringFacts.

Lemma char_eqb_eq (a b : ascii) : char_eqb a b = true <-> a = b.
Proof. unfold char_eqb. apply Ascii.eqb_eq. Qed.

Lemma char_eqb_refl (a : ascii) : char_eqb a a = true.
Proof. apply char_eqb_eq. reflexivity. Qed.

Lemma str_eqb_eq (a b : jsstring) : str_eqb a b = true <-> a = b.
Proof.
  revert b. induction a as [|x a IH]; intros [|y b]; simpl; split;
    try congruence; try reflexivity.
  - intros H. apply andb_true_iff in H as [H1 H2].
    apply char_eqb_eq in H1. apply IH in H2. congruence.
  - intros H. injection H as -> ->. rewrite char_eqb_refl. simpl.
    apply IH. reflexivity.
Qed.

Lemma startsWith_app (p r : jsstring) : startsWith (p ++ r) p = true.
Proof.
  induction p as [|a p IH]; simpl; [reflexivity|].
  rewrite char_eqb_refl. exact IH.
Qed.

Lemma startsWith_split (s p : jsstring) :
  startsWith s p = true -> s = p ++ skipn (length p) s.
Proof.
  revert s. induction p as [|a p IH]; intros s H; simpl in *; [reflexivity|].
  destruct s as [|b s]; [discriminate|].
  apply andb_true_iff in H as [H1 H2]. apply char_eqb_eq in H1. subst b.
  simpl. f_equal. apply IH. exact H2.
Qed.

Lemma endsWith_app (a p : jsstring) : endsWith (a ++ p) p = true.
Proof. unfold endsWith. rewrite rev_app_distr. apply startsWith_app. Qed.

Lemma skipn_exact (p r : jsstring) : skipn (length p) (p ++ r) = r.
Proof. induction p; simpl; auto. Qed.

Lemma firstn_exact (p r : jsstring) : firstn (length p) (p ++ r) = p.
Proof. induction p; simpl; congruence. Qed.

(** Cutting the two markers off a delimited run leaves what is between. *)
Lemma slice_delimited (d x : jsstring) :
  slice (d ++ x ++ d) (length d) (length d) = x.
Proof.
  unfold slice. rewrite skipn_exact. rewrite !length_app.
  replace (length d + (length x + length d) - length d - length d)
    with (length x) by lia.
  apply firstn_exact.
Qed.

Lemma literalHere_sound (sep s m after : jsstring) :
  literalHere sep s = Some (m, after) -> s = m ++ after /\ m <> [].
Proof.
  unfold literalHere. destruct sep as [|c sep]; [discriminate|].
  destruct (startsWith s (c :: sep)) eqn:E; [|discriminate].
  intros H. injection H as <- <-. split; [|discriminate].
  apply startsWith_split. exact E.
Qed.

Lemma atomsHere_sound (ic : bool) (a : list atom) :
  forall s m after,
    atomsHere ic a s = Some (m, after) ->
    s = m ++ after /\ length m = length a.
Proof.
  induction a as [|x a IH]; intros s m after H; simpl in H.
  - injection H as <- <-. auto.
  - destruct s as [|c r]; [discriminate|].
    destruct (atomMatches ic x c); [|discriminate].
    destruct (atomsHere ic a r) as [[m' after']|] eqn:E; [|discriminate].
    injection H as <- <-. apply IH in E as [-> E]. simpl. auto.
Qed.

End StringFacts.

(** ** Facts about successive matches *)

Section ScanFacts.
Variable M : Type.
Variable here : jsstring -> option (M * jsstring).
Variable textOf : M -> jsstring.
Hypothesis here_sound :
  forall s m after,
    here s = Some (m, after) -> s = textOf m ++ after /\ textOf m <> [].

Lemma exec_here (s before after : jsstring) (m : M) :
  exec here s = Some (before, m, after) ->
  exists s', s = before ++ s' /\ here s' = Some (m, after).
Proof.
  revert before. induction s as [|c r IH]; intros before H; simpl in H.
  - destruct (here []) as [[m' a']|] eqn:E; [|discriminate].
    injection H as <- <- <-. exists []. auto.
  - destruct (here (c :: r)) as [[m' a']|] eqn:E.
    + injection H as <- <- <-. exists (c :: r). auto.
    + destruct (exec here r) as [[[b' m'] a']|] eqn:E'; [|discriminate].
      injection H as <- <- <-.
      destruct (IH b' eq_refl) as (s' & -> & Hs').
      exists s'. auto.
Qed.

Lemma exec_sound (s before after : jsstring) (m : M) :
  exec here s = Some (before, m, after) ->
  s = before ++ textOf m ++ after /\ length after < length s.
Proof.
  intros H. apply exec_here in H as (s' & -> & H).
  apply here_sound in H as [-> Hne]. split; [reflexivity|].
  rewrite !length_app. destruct (textOf m); [congruence|simpl; lia].
Qed.

Lemma exec_nil : exec here [] = None.
Proof.
  simpl. destruct (here []) as [[m a]|] eqn:E; [|reflexivity].
  apply here_sound in E as [E Hne].
  destruct (textOf m); [congruence|discriminate].
Qed.

(** The matches and the texts around them make up the scanned text. *)
Lemma execAll_sound (fuel : nat) :
  forall s ms tail,
    execAll here fuel s = (ms, tail) ->
    s = flat_map (fun bm => fst bm ++ textOf (snd bm)) ms ++ tail.
Proof.
  induction fuel as [|fuel IH]; intros s ms tail H; simpl in H.
  - injection H as <- <-. reflexivity.
  - destruct (exec here s) as [[[b m] a]|] eqn:E.
    + destruct (execAll here fuel a) as [ms' tail'] eqn:E'.
      injection H as <- <-. apply exec_sound in E as [-> _].
      simpl. rewrite (IH _ _ _ E') at 1. rewrite <- !app_assoc. reflexivity.
    + injection H as <- <-. reflexivity.
Qed.

(** Fuel beyond the length of the text changes nothing. *)
Lemma execAll_fuel (f1 : nat) :
  forall f2 s, length s <= f1 -> length s <= f2 ->
               execAll here f1 s = execAll here f2 s.
Proof.
  induction f1 as [|f1 IH]; intros f2 s H1 H2.
  - destruct s; [|simpl in H1; lia].
    destruct f2; cbn [execAll]; [reflexivity|].
    rewrite exec_nil. reflexivity.
  - destruct f2 as [|f2].
    + destruct s; [|simpl in H2; lia]. cbn [execAll].
      rewrite exec_nil. reflexivity.
    + cbn [execAll].
      destruct (exec here s) as [[[b m] a]|] eqn:E; [|reflexivity].
      apply exec_sound in E as [_ Hlt].
      rewrite (IH f2 a) by lia. reflexivity.
Qed.
End ScanFacts.

(** ** Facts about the inline format parser *)

Section MarkdownFacts.

Lemma lazyUntil_sound (close : jsstring) :
  forall s m after,
    lazyUntil close s = Some (m, after) ->
    (exists x, m = x ++ close) /\ s = m ++ after.
Proof.
  induction s as [|c r IH]; intros m after H; simpl in H.
  - destruct (startsWith [] close) eqn:E; [|discriminate].
    injection H as <- <-. split; [exists []; reflexivity|].
    apply (startsWith_split _ _ E).
  - destruct (startsWith (c :: r) close) eqn:E.
    + injection H as <- <-. split; [exists []; reflexivity|].
      apply (startsWith_split _ _ E).
    + destruct (isLineTerminator c); [discriminate|].
      destruct (lazyUntil close r) as [[m' after']|] eqn:E'; [|discriminate].
      injection H as <- <-.
      destruct (IH _ _ eq_refl) as [[x ->] ->].
      split; [exists (c :: x); reflexivity|reflexivity].
Qed.

(** With a one-character delimiter the lazy run stops at the first one:
    the text before the closing marker does not contain it. *)
Lemma lazyUntil_single (d : ascii) :
  forall s m after,
    lazyUntil [d] s = Some (m, after) ->
    exists x, m = x ++ [d] /\ ~ In d x.
Proof.
  induction s as [|c r IH]; intros m after H; simpl in H; [discriminate|].
  rewrite andb_true_r in H. destruct (char_eqb d c) eqn:E.
  - injection H as <- <-. exists []. auto.
  - destruct (isLineTerminator c); [discriminate|].
    destruct (lazyUntil [d] r) as [[m' after']|] eqn:E'; [|discriminate].
    injection H as <- <-.
    destruct (IH _ _ eq_refl) as (x & -> & Hx).
    exists (c :: x). split; [reflexivity|].
    intros [->|Hin]; [|auto].
    rewrite char_eqb_refl in E. discriminate.
Qed.

Lemma delimited_sound (d s m after : jsstring) :
  delimited d s = Some (m, after) ->
  (exists x, m = d ++ x ++ d) /\ s = m ++ after.
Proof.
  unfold delimited. destruct (startsWith s d) eqn:E; [|discriminate].
  destruct (lazyUntil d (skipn (length d) s)) as [[m' after']|] eqn:E';
    [|discriminate].
  intros H. injection H as <- <-.
  apply lazyUntil_sound in E' as [[x ->] E'].
  split; [exists x; reflexivity|].
  rewrite (startsWith_split _ _ E) at 1. rewrite E'.
  rewrite <- !app_assoc. reflexivity.
Qed.

Lemma markdownHere_delimited (s m after : jsstring) (a : alternative) :
  markdownHere s = Some (a, m, after) ->
  delimited (delimiterOf a) s = Some (m, after).
Proof.
  unfold markdownHere, orElse, tagged.
  destruct (delimited (delimiterOf AltBold) s) as [[m1 a1]|] eqn:E1;
    [intros H; injection H as <- <- <-; exact E1|].
  destruct (delimited (delimiterOf AltItalic) s) as [[m2 a2]|] eqn:E2;
    [intros H; injection H as <- <- <-; exact E2|].
  destruct (delimited (delimiterOf AltCode) s) as [[m3 a3]|] eqn:E3;
    [intros H; injection H as <- <- <-; exact E3|].
  destruct (delimited (delimiterOf AltStrike) s) as [[m4 a4]|] eqn:E4;
    [intros H; injection H as <- <- <-; exact E4|discriminate].
Qed.

Lemma markdownHere_sound (s : jsstring) (m : alternative * jsstring)
    (after : jsstring) :
  markdownHere s = Some (m, after) -> s = snd m ++ after /\ snd m <> [].
Proof.
  destruct m as [a m]. intros H. apply markdownHere_delimited in H.
  apply delimited_sound in H as [[x ->] ->]. split; [reflexivity|].
  destruct a; discriminate.
Qed.

(** A recognised run is its content between two markers. *)
Lemma run_shape (s m after : jsstring) (a : alternative) :
  markdownHere s = Some (a, m, after) ->
  m = delimiterOf a ++ innerOf (a, m) ++ delimiterOf a.
Proof.
  intros H. apply markdownHere_delimited in H.
  apply delimited_sound in H as [[x ->] _].
  unfold innerOf. cbn [fst snd]. rewrite slice_delimited. reflexivity.
Qed.

(** The flags are chosen by looking at the matched text, not at the
    alternative that matched; the text kept is the run's content all the
    same. *)
Lemma styled_inner (s m after : jsstring) (a : alternative) :
  markdownHere s = Some (a, m, after) ->
  text (styled m) = innerOf (a, m).
Proof.
  intros H. apply markdownHere_delimited in H. unfold delimited in H.
  destruct (startsWith s (delimiterOf a)) eqn:E; [|discriminate].
  destruct (lazyUntil (delimiterOf a) (skipn (length (delimiterOf a)) s))
    as [[m' after']|] eqn:E'; [|discriminate].
  injection H as <- <-. unfold innerOf. cbn [fst snd].
  destruct a; cbn [delimiterOf] in *.
  - apply lazyUntil_sound in E' as [[x ->] _].
    unfold styled. change (str "**" ++ x ++ str "**")
      with (str "**" ++ (x ++ str "**")).
    rewrite startsWith_app.
    replace (endsWith (str "**" ++ x ++ str "**") (str "**")) with true
      by (symmetry; rewrite app_assoc; apply endsWith_app).
    reflexivity.
  - apply lazyUntil_single in E' as (x & -> & Hx).
    destruct x as [|c x].
    + reflexivity.
    + assert (Hc : char_eqb "*" c = false).
      { destruct (char_eqb "*" c) eqn:Ec; [|reflexivity].
        apply char_eqb_eq in Ec. subst c. exfalso. apply Hx. left. reflexivity. }
      unfold styled. cbn [str list_ascii_of_string app startsWith].
      rewrite Hc. cbn [andb].
      replace (endsWith ("*"%char :: c :: x ++ ["*"%char]) ["*"%char])
        with true
        by (symmetry; apply (endsWith_app ("*"%char :: c :: x) ["*"%char])).
      reflexivity.
  - apply lazyUntil_sound in E' as [[x ->] _].
    unfold styled. cbn [str list_ascii_of_string app startsWith].
    replace (endsWith ("`"%char :: x ++ ["`"%char]) ["`"%char]) with true
      by (symmetry; apply (endsWith_app ("`"%char :: x) ["`"%char])).
    reflexivity.
  - apply lazyUntil_sound in E' as [[x ->] _].
    unfold styled. cbn [str list_ascii_of_string app startsWith].
    replace (endsWith ("~"%char :: "~"%char :: x ++ ["~"%char; "~"%char])
               ["~"%char; "~"%char]) with true
      by (symmetry;
          apply (endsWith_app ("~"%char :: "~"%char :: x) ["~"%char; "~"%char])).
    reflexivity.
Qed.

Lemma concatText_app (a b : list ParsedMarkdownSegment) :
  concatText (a ++ b) = concatText a ++ concatText b.
Proof. unfold concatText. apply flat_map_app. Qed.

Lemma concatText_plainIfAny (t : jsstring) : concatText (plainIfAny t) = t.
Proof. destruct t; simpl; [reflexivity|]. rewrite app_nil_r. reflexivity. Qed.

(** The spans of the loop, joined, are the scanned text with each run
    replaced by its content. *)
Lemma loop_concat (fuel : nat) :
  forall s,
    concatText (splitByMarkdownLoop fuel s)
    = flat_map (fun r => fst r ++ innerOf (snd r))
        (fst (execAll markdownHere fuel s))
      ++ snd (execAll markdownHere fuel s).
Proof.
  induction fuel as [|fuel IH]; intros s; simpl.
  - apply concatText_plainIfAny.
  - destruct (exec markdownHere s) as [[[b [a m]] after]|] eqn:E.
    + destruct (execAll markdownHere fuel after) as [ms tail] eqn:E'.
      apply exec_here in E as (s' & -> & E).
      rewrite concatText_app, concatText_plainIfAny.
      change (concatText (styled m :: splitByMarkdownLoop fuel after))
        with (text (styled m) ++ concatText (splitByMarkdownLoop fuel after)).
      rewrite (styled_inner _ E), IH, E'. simpl.
      rewrite <- !app_assoc. reflexivity.
    + apply concatText_plainIfAny.
Qed.

Lemma runs_length (fuel : nat) :
  forall s,
    length (flat_map (fun r => fst r ++ innerOf (snd r))
              (fst (execAll markdownHere fuel s))
            ++ snd (execAll markdownHere fuel s))
    + list_sum (map (fun r => markersOf (snd r))
                  (fst (execAll markdownHere fuel s)))
    = length s.
Proof.
  induction fuel as [|fuel IH]; intros s; simpl.
  - rewrite Nat.add_0_r. reflexivity.
  - destruct (exec markdownHere s) as [[[b [a m]] after]|] eqn:E.
    + destruct (execAll markdownHere fuel after) as [ms tail] eqn:E'.
      apply exec_here in E as (s' & -> & E).
      pose proof (run_shape _ E) as Hm.
      assert (Hlen : length m = length (innerOf (a, m)) + markersOf (a, m)).
      { rewrite Hm at 1. unfold markersOf. cbn [fst].
        rewrite !length_app. lia. }
      apply markdownHere_sound in E as [-> _]. cbn [fst snd] in *.
      specialize (IH after). rewrite E' in IH. cbn [fst snd] in IH.
      cbn [flat_map map list_sum fold_right fst snd].
      rewrite !length_app. rewrite <- IH. rewrite !length_app, Hlen.
      unfold list_sum. lia.
    + simpl. rewrite Nat.add_0_r. reflexivity.
Qed.

(** The fuel [length text] is never the reason the loop stops. *)
Lemma splitByMarkdownLoop_fuel (f1 : nat) :
  forall f2 s, length s <= f1 -> length s <= f2 ->
               splitByMarkdownLoop f1 s = splitByMarkdownLoop f2 s.
Proof.
  induction f1 as [|f1 IH]; intros f2 s H1 H2.
  - destruct s; [|simpl in H1; lia].
    destruct f2; cbn [splitByMarkdownLoop]; [reflexivity|].
    rewrite (exec_nil _ snd markdownHere_sound). reflexivity.
  - destruct f2 as [|f2].
    + destruct s; [|simpl in H2; lia]. cbn [splitByMarkdownLoop].
      rewrite (exec_nil _ snd markdownHere_sound). reflexivity.
    + cbn [splitByMarkdownLoop].
      destruct (exec markdownHere s) as [[[b [a m]] after]|] eqn:E;
        [|reflexivity].
      apply (exec_sound _ snd markdownHere_sound) in E as [_ Hlt].
      rewrite (IH f2 after) by lia. reflexivity.
Qed.

End MarkdownFacts.

(** ** Facts about the highlight compositor *)

Section HighlightFacts.

Lemma not_syntax_neq (c x : ascii) :
  isSyntaxChar c = false -> isSyntaxChar x = true -> char_eqb c x = false.
Proof.
  intros Hc Hx. destruct (char_eqb c x) eqn:E; [|reflexivity].
  apply char_eqb_eq in E. congruence.
Qed.

(** Escaping turns every term into a run of literal atoms. *)
Lemma parseAtoms_escape (t : jsstring) :
  parseAtoms (escapeRegExp t ++ str ")") = (map Lit t, str ")").
Proof.
  induction t as [|c t IH]; [reflexivity|].
  unfold escapeRegExp in *. cbn [flat_map].
  destruct (isSyntaxChar c) eqn:E.
  - cbn [app parseAtoms]. rewrite char_eqb_refl, E, IH. reflexivity.
  - cbn [app parseAtoms].
    rewrite (not_syntax_neq c "\" E eq_refl).
    rewrite (not_syntax_neq c "." E eq_refl).
    rewrite E, IH. reflexivity.
Qed.

Lemma RegExp_escaped (c : ascii) (t : jsstring) :
  RegExp (str "(" ++ escapeRegExp (c :: t) ++ str ")") true
  = Returns (mkRegex true (Lit c) (map Lit t) true).
Proof.
  unfold RegExp. cbn [str list_ascii_of_string app].
  rewrite char_eqb_refl.
  change (escapeRegExp (c :: t) ++ [")"%char])
    with (escapeRegExp (c :: t) ++ str ")").
  rewrite parseAtoms_escape. reflexivity.
Qed.

Lemma highlightSegment_returns (t : jsstring) (segment : ParsedMarkdownSegment) :
  t <> [] ->
  highlightSegment t segment = Returns (highlightParts t segment).
Proof.
  intros Ht. destruct t as [|c t]; [congruence|].
  unfold highlightSegment, highlightParts.
  destruct (includes (toLowerCase (text segment)) (c :: t)); [|reflexivity].
  rewrite RegExp_escaped. reflexivity.
Qed.

Lemma forEachSegment_returns (t : jsstring) :
  t <> [] ->
  forall segments result,
    forEachSegment t segments result
    = Returns (result ++ flat_map (highlightParts t) segments).
Proof.
  intros Ht. induction segments as [|s segments IH]; intros result; simpl.
  - rewrite app_nil_r. reflexivity.
  - rewrite (highlightSegment_returns s Ht). simpl.
    rewrite IH, <- app_assoc. reflexivity.
Qed.

Lemma trimmed_term_nonempty (searchTerm : jsstring) :
  (length (trim searchTerm) =? 0) = false ->
  toLowerCase (trim searchTerm) <> [].
Proof.
  intros H. apply Nat.eqb_neq in H. unfold toLowerCase.
  destruct (trim searchTerm); [simpl in H; congruence|discriminate].
Qed.

(** The compositor never throws: the escaped pattern always compiles. *)
Lemma applyHighlight_returns (segments : list ParsedMarkdownSegment)
    (searchTerm : jsstring) :
  applyHighlightToSegments segments searchTerm
  = Returns (if length (trim searchTerm) =? 0 then segments
             else flat_map (highlightParts (toLowerCase (trim searchTerm)))
                    segments).
Proof.
  unfold applyHighlightToSegments.
  destruct (length (trim searchTerm) =? 0) eqn:E; [reflexivity|].
  apply (forEachSegment_returns (trimmed_term_nonempty _ E)).
Qed.

Lemma getFormatted_returns (t searchTerm : jsstring) :
  getFormattedTextSegments t searchTerm
  = Returns (formattedSegments t searchTerm).
Proof.
  unfold getFormattedTextSegments, formattedSegments.
  rewrite applyHighlight_returns.
  destruct (length (trim searchTerm) =? 0); reflexivity.
Qed.

Lemma literal_here_sound (c : ascii) (t : jsstring) :
  forall s m after,
    atomsHere true (map Lit (c :: t)) s = Some (m, after) ->
    s = (fun x : jsstring => x) m ++ after /\ (fun x : jsstring => x) m <> [].
Proof.
  intros s m after H. apply atomsHere_sound in H as [-> H].
  split; [reflexivity|]. destruct m; [discriminate|discriminate].
Qed.

(** The pieces of a capturing split, joined, are the text. *)
Lemma split_capture_concat (c : ascii) (t s : jsstring) :
  concat (splitWith (atomsHere true (map Lit (c :: t))) true s) = s.
Proof.
  unfold splitWith.
  destruct (execAll (atomsHere true (map Lit (c :: t))) (length s) s)
    as [ms tail] eqn:E.
  apply (execAll_sound _ (fun x => x) (@literal_here_sound c t)) in E.
  rewrite E. clear E.
  induction ms as [|[b m] ms IH]; simpl; [apply app_nil_r|].
  rewrite IH, <- !app_assoc. reflexivity.
Qed.

Lemma partSpans_concat (t : jsstring) (segment : ParsedMarkdownSegment)
    (parts : list jsstring) :
  concatText (flat_map (partSpans t segment) parts) = concat parts.
Proof.
  induction parts as [|p parts IH]; [reflexivity|].
  cbn [flat_map concat]. rewrite concatText_app, IH.
  destruct p; simpl; [reflexivity|]. rewrite app_nil_r. reflexivity.
Qed.

(** Cutting one span loses and duplicates nothing. *)
Lemma highlightParts_concat (t : jsstring) (segment : ParsedMarkdownSegment) :
  t <> [] -> concatText (highlightParts t segment) = text segment.
Proof.
  intros Ht. destruct t as [|c t]; [congruence|]. unfold highlightParts.
  destruct (includes (toLowerCase (text segment)) (c :: t)).
  - rewrite partSpans_concat. apply split_capture_concat.
  - simpl. apply app_nil_r.
Qed.

Lemma flat_highlight_concat (t : jsstring) (segments : list ParsedMarkdownSegment) :
  t <> [] ->
  concatText (flat_map (highlightParts t) segments) = concatText segments.
Proof.
  intros Ht. induction segments as [|s segments IH]; [reflexivity|].
  cbn [flat_map]. rewrite concatText_app, IH, (highlightParts_concat s Ht).
  reflexivity.
Qed.

(** A highlighted part of a cut span reads as the term, and lies inside
    the span it was cut from. *)
Lemma highlightParts_highlighted (t : jsstring)
    (segment o : ParsedMarkdownSegment) :
  t <> [] -> isHighlighted segment = false ->
  In o (highlightParts t segment) -> isHighlighted o = true ->
  toLowerCase (text o) = t
  /\ exists u v, text segment = u ++ text o ++ v.
Proof.
  intros Ht Hseg Hin Ho. destruct t as [|c t]; [congruence|].
  unfold highlightParts in Hin.
  destruct (includes (toLowerCase (text segment)) (c :: t)).
  - apply in_flat_map in Hin as (part & Hpart & Hin).
    destruct part as [|a part]; [contradiction|].
    destruct Hin as [<-|[]]. cbn [isHighlighted text withText] in *.
    split; [apply str_eqb_eq; exact Ho|].
    apply in_split in Hpart as (l1 & l2 & Hsplit).
    exists (concat l1), (concat l2).
    rewrite <- (split_capture_concat c t (text segment)) at 1.
    rewrite Hsplit, concat_app. reflexivity.
  - destruct Hin as [<-|[]]. congruence.
Qed.

End HighlightFacts.

(** ** Properties of the format parser and the highlight compositor *)

Lemma length_concatText (segments : list ParsedMarkdownSegment) :
  length (concatText segments)
  = list_sum (map (fun s => length (text s)) segments).
Proof.
  induction segments as [|s segments IH]; [reflexivity|].
  unfold concatText in *. cbn [flat_map map list_sum fold_right].
  rewrite length_app, IH. reflexivity.
Qed.

Lemma splitByMarkdown_withoutMarkers (t : jsstring) :
  concatText (splitByMarkdown t) = withoutMarkers t.
Proof. apply loop_concat. Qed.

Lemma no_runs_plain (t : jsstring) :
  fst (markdownRuns t) = [] -> splitByMarkdown t = plainIfAny t.
Proof.
  unfold markdownRuns, splitByMarkdown. destruct t as [|c r]; [reflexivity|].
  cbn [length execAll splitByMarkdownLoop].
  destruct (exec markdownHere (c :: r)) as [[[b [a m]] after]|];
    [|reflexivity].
  destruct (execAll markdownHere (length r) after). discriminate.
Qed.

(** C8.  [splitByMarkdown] is a total function; the lengths of the texts
    of its spans add up to the length of the input minus the marker
    characters of the runs the pattern recognises (two markers per run,
    of one or two characters each); what it emits is the input with
    exactly those markers removed; and where the pattern recognises no
    run (delimiter characters without a partner) the whole input comes
    out as one plain span. *)
Theorem splitByMarkdown_accounts_for_input (t : jsstring) :
  list_sum (map (fun s => length (text s)) (splitByMarkdown t))
    + strippedMarkers t = length t
  /\ list_sum (map (fun s => length (text s)) (splitByMarkdown t))
     = length t - strippedMarkers t
  /\ concatText (splitByMarkdown t) = withoutMarkers t
  /\ (fst (markdownRuns t) = [] -> splitByMarkdown t = plainIfAny t).
Proof.
  assert (H : list_sum (map (fun s => length (text s)) (splitByMarkdown t))
              + strippedMarkers t = length t).
  { rewrite <- length_concatText, splitByMarkdown_withoutMarkers.
    apply runs_length. }
  split; [exact H|]. split; [lia|].
  split; [apply splitByMarkdown_withoutMarkers|apply no_runs_plain].
Qed.

(** A lone asterisk, with no partner on its line, stays in the text. *)
Lemma splitByMarkdown_accounts_for_input_witness :
  fst (markdownRuns (str "2 * 3 ~ 6`")) = []
  /\ splitByMarkdown (str "2 * 3 ~ 6`") = [plain (str "2 * 3 ~ 6`")].
Proof.
  split; [reflexivity|].
  apply (proj2 (proj2 (proj2
           (splitByMarkdown_accounts_for_input (str "2 * 3 ~ 6`"))))).
  reflexivity.
Defined.

(** C1, as stated, fails: the markers of a recognised run are not part of
    any span, so the spans of "**a**" read "a". *)
Lemma formatted_spans_drop_markers :
  getFormattedTextSegments (str "**a**") (str "a")
  = Returns [mkSegment (str "a") true false false false true]
  /\ concatText [mkSegment (str "a") true false false false true]
     <> str "**a**".
Proof. split; [reflexivity|discriminate]. Qed.

(** C1, amended.  For every paragraph text and every search term,
    [getFormattedTextSegments] returns, and the texts of the highlighted
    spans, concatenated, are the paragraph text with the delimiter
    markers of its recognised formatting runs removed: highlighting loses
    and duplicates nothing.  For a text without a recognised run they
    are the text itself. *)
Theorem formatted_spans_concat (t searchTerm : jsstring) :
  exists out,
    getFormattedTextSegments t searchTerm = Returns out
    /\ concatText out = concatText (splitByMarkdown t)
    /\ concatText out = withoutMarkers t
    /\ (fst (markdownRuns t) = [] -> concatText out = t).
Proof.
  exists (formattedSegments t searchTerm).
  split; [apply getFormatted_returns|].
  assert (H : concatText (formattedSegments t searchTerm)
              = concatText (splitByMarkdown t)).
  { unfold formattedSegments.
    destruct (length (trim searchTerm) =? 0) eqn:E; [reflexivity|].
    apply flat_highlight_concat. apply trimmed_term_nonempty. exact E. }
  split; [exact H|]. rewrite H.
  split; [apply splitByMarkdown_withoutMarkers|].
  intros Hruns. rewrite (no_runs_plain _ Hruns).
  apply concatText_plainIfAny.
Qed.

Lemma formatted_spans_concat_witness :
  exists out,
    getFormattedTextSegments (str "this has abc in it") (str "ABC")
    = Returns out
    /\ concatText out = str "this has abc in it".
Proof.
  destruct (formatted_spans_concat (str "this has abc in it") (str "ABC"))
    as (out & H1 & _ & _ & H2).
  exists out. split; [exact H1|]. apply H2. reflexivity.
Defined.

(** C10, as stated, fails where the term overlaps itself: with spans
    "aa" and "a" and term "aa", the occurrence at index 1 runs across the
    boundary, and its first character is marked, being also the end of
    the occurrence inside the first span. *)
Lemma straddling_occurrence_marked :
  exists out,
    applyHighlightToSegments ([plain (str "aa")] ++ [plain (str "a")]) (str "aa")
    = Returns out
    /\ straddles [plain (str "aa")] [plain (str "a")] (str "aa") 1
    /\ nth 1 (highlightMask out) false = true.
Proof.
  eexists. split; [reflexivity|]. split; [|reflexivity].
  split; [reflexivity|]. vm_compute. lia.
Qed.

(** C10, amended.  For spans not yet highlighted and a term that is not
    blank, the compositor returns; every span it marks reads, letter case
    aside, as the trimmed term and is a piece of one input span; the
    result for a sequence is the result for its first spans followed by
    the result for the others, each covering the text of its own spans;
    and where no span contains the term by itself nothing is marked, so
    an occurrence across a boundary is marked only where it shares
    characters with an occurrence inside one span. *)
Theorem highlight_decided_per_span
    (segments : list ParsedMarkdownSegment) (searchTerm : jsstring) :
  trim searchTerm <> [] ->
  Forall (fun s => isHighlighted s = false) segments ->
  exists out,
    applyHighlightToSegments segments searchTerm = Returns out
    /\ (forall o, In o out -> isHighlighted o = true ->
          toLowerCase (text o) = toLowerCase (trim searchTerm)
          /\ exists s u v, In s segments /\ text s = u ++ text o ++ v)
    /\ (forall l1 l2, segments = l1 ++ l2 ->
          exists o1 o2,
            applyHighlightToSegments l1 searchTerm = Returns o1
            /\ applyHighlightToSegments l2 searchTerm = Returns o2
            /\ out = o1 ++ o2
            /\ concatText o1 = concatText l1
            /\ concatText o2 = concatText l2)
    /\ (Forall (fun s => includes (toLowerCase (text s))
                           (toLowerCase (trim searchTerm)) = false) segments ->
        out = segments).
Proof.
  intros Hterm Hplain.
  assert (E : (length (trim searchTerm) =? 0) = false).
  { apply Nat.eqb_neq. destruct (trim searchTerm); [congruence|discriminate]. }
  pose proof (trimmed_term_nonempty _ E) as Ht.
  set (t := toLowerCase (trim searchTerm)) in *.
  assert (R : forall l, applyHighlightToSegments l searchTerm
                        = Returns (flat_map (highlightParts t) l)).
  { intros l. rewrite applyHighlight_returns, E. reflexivity. }
  exists (flat_map (highlightParts t) segments).
  split; [apply R|]. split; [|split].
  - intros o Hin Ho. apply in_flat_map in Hin as (s & Hs & Hin).
    rewrite Forall_forall in Hplain.
    destruct (@highlightParts_highlighted t s o Ht (Hplain _ Hs) Hin Ho)
      as (Heq & u & v & Huv).
    split; [exact Heq|]. exists s, u, v. auto.
  - intros l1 l2 ->.
    exists (flat_map (highlightParts t) l1), (flat_map (highlightParts t) l2).
    rewrite !R, flat_map_app, !(flat_highlight_concat _ Ht). auto.
  - intros Hnone. clear Hplain R. induction segments as [|s l IH];
      [reflexivity|].
    inversion Hnone as [|? ? Hs Hl]; subst. cbn [flat_map].
    rewrite (IH Hl). unfold highlightParts. fold t. rewrite Hs. reflexivity.
Qed.

(** "ab" then "c" holds "bc" only across the boundary: nothing is marked. *)
Lemma highlight_decided_per_span_witness :
  trim (str " bc ") <> []
  /\ Forall (fun s => isHighlighted s = false)
       [plain (str "ab"); mkSegment (str "c") true false false false false]
  /\ exists out,
       applyHighlightToSegments
         [plain (str "ab"); mkSegment (str "c") true false false false false]
         (str " bc ") = Returns out
       /\ out = [plain (str "ab"); mkSegment (str "c") true false false false false].
Proof.
  assert (H1 : trim (str " bc ") <> []) by discriminate.
  assert (H2 : Forall (fun s => isHighlighted s = false)
                 [plain (str "ab");
                  mkSegment (str "c") true false false false false])
    by (repeat constructor).
  split; [exact H1|]. split; [exact H2|].
  destruct (@highlight_decided_per_span _ (str " bc ") H1 H2)
    as (out & Hr & _ & _ & Hnone).
  exists out. split; [exact Hr|]. apply Hnone. repeat constructor.
Defined.

(** ** Properties of the search matcher *)

Section SearchFacts.

Lemma selectSentences_filter (t : jsstring) :
  forall rest parts selected,
    fst (selectSentences t rest parts selected)
    = parts ++ filter (fun s => includes (toLowerCase s) t) rest.
Proof.
  induction rest as [|s rest IH]; intros parts selected; simpl.
  - symmetry. apply app_nil_r.
  - destruct (includes (toLowerCase s) t); rewrite IH.
    + rewrite <- app_assoc. reflexivity.
    + reflexivity.
Qed.

(** A term made of ordinary characters compiles to itself, letter by
    letter. *)
Lemma parseAtoms_ordinary (t : jsstring) :
  forallb (fun c => negb (isSyntaxChar c)) t = true ->
  parseAtoms t = (map Lit t, []).
Proof.
  induction t as [|c t IH]; [reflexivity|]. cbn [forallb].
  intros H. apply andb_true_iff in H as [Hc Ht]. apply negb_true_iff in Hc.
  cbn [parseAtoms map].
  rewrite (not_syntax_neq c "\" Hc eq_refl).
  rewrite (not_syntax_neq c "." Hc eq_refl).
  rewrite Hc, (IH Ht). reflexivity.
Qed.

Lemma atomsHere_literal (t : jsstring) :
  forall s,
    atomsHere false (map Lit t) s
    = if startsWith s t then Some (t, skipn (length t) s) else None.
Proof.
  induction t as [|x t IH]; intros s; [reflexivity|].
  cbn [map atomsHere startsWith length]. destruct s as [|c r]; [reflexivity|].
  cbn [atomMatches skipn]. destruct (char_eqb x c) eqn:E; [|reflexivity].
  apply char_eqb_eq in E. subst c. cbn [andb]. rewrite IH.
  destruct (startsWith r t); reflexivity.
Qed.

Lemma exec_ext (M : Type) (h1 h2 : jsstring -> option (M * jsstring)) :
  (forall s, h1 s = h2 s) -> forall s, exec h1 s = exec h2 s.
Proof.
  intros H. induction s as [|c r IH]; simpl; rewrite H; [reflexivity|].
  rewrite IH. reflexivity.
Qed.

Lemma execAll_ext (M : Type) (h1 h2 : jsstring -> option (M * jsstring)) :
  (forall s, h1 s = h2 s) ->
  forall fuel s, execAll h1 fuel s = execAll h2 fuel s.
Proof.
  intros H. induction fuel as [|fuel IH]; intros s; [reflexivity|].
  cbn [execAll]. rewrite (exec_ext _ _ H).
  destruct (exec h2 s) as [[[b m] a]|]; [|reflexivity].
  rewrite IH. reflexivity.
Qed.

(** Where the term has no pattern syntax in it, the count is the count of
    its non-overlapping occurrences. *)
Lemma countOccurrences_ordinary (lowerParagraph t : jsstring) :
  t <> [] ->
  forallb (fun c => negb (isSyntaxChar c)) t = true ->
  countOccurrences lowerParagraph t
  = Returns (length (matchAll (literalHere t) lowerParagraph)).
Proof.
  intros Hne Hord. destruct t as [|c t]; [congruence|].
  unfold countOccurrences, RegExp.
  pose proof Hord as Hc. cbn [forallb] in Hc.
  apply andb_true_iff in Hc as [Hc _]. apply negb_true_iff in Hc.
  rewrite (not_syntax_neq c "(" Hc eq_refl).
  rewrite (parseAtoms_ordinary _ Hord).
  cbn [map compiled bind]. unfold matchRx, matchAll, here.
  cbn [ignoreCase first others].
  rewrite (execAll_ext (atomsHere false (Lit c :: map Lit t))
             (literalHere (c :: t))); [reflexivity|].
  intros s. apply (atomsHere_literal (c :: t)).
Qed.

End SearchFacts.

Example occurrences_abcabc :
  exists results debug,
    searchInFiles [file (str "abcabc")] [str "1"] (str "abc")
    = Returns (results, debug)
    /\ map occurrenceCount results = [2].
Proof. do 2 eexists. split; reflexivity. Qed.

(** C2.  The claim is that [searchInFiles] returns for every term because
    the term is escaped before it is used as a pattern.  The occurrence
    count builds its pattern from the bare term: on a document holding an
    opening parenthesis and the term "(" the call throws a SyntaxError,
    while the highlight compositor, which escapes the same term, returns. *)
Theorem searchInFiles_throws_on_open_paren :
  searchInFiles [file (str "f(x) = 1")] [str "1"] (str "(")
  = Throws SyntaxError
  /\ applyHighlightToSegments [plain (str "f(x) = 1")] (str "(")
     = Returns [plain (str "f");
                mkSegment (str "(") false false false false true;
                plain (str "x) = 1")].
Proof. split; reflexivity. Qed.

(** C6.  The claim is that the count is the number of non-overlapping
    occurrences of the term.  With the term "." and the paragraph "a.b"
    the pattern is the bare dot, which matches every character: the
    result carries 3 where the term occurs once. *)
Theorem occurrenceCount_of_dot :
  exists results debug,
    searchInFiles [file (str "a.b")] [str "1"] (str ".")
    = Returns (results, debug)
    /\ map occurrenceCount results = [3]
    /\ map foundParagraphs results = [[str "a.b"]]
    /\ nonOverlappingCount (str "a.b") (str ".") = 1.
Proof. do 2 eexists. repeat split; reflexivity. Qed.

(** C5.  For every paragraph and term: when the paragraph contains "|"
    and splits on it into at least three pieces, the paragraph emitted is
    the first piece followed by the later pieces whose lower-cased text
    contains the lower-cased trimmed term, in order, joined by one space,
    each piece trimmed of surrounding white space; otherwise it is the
    paragraph itself.  The paragraph of the description restructures as
    described. *)
Theorem processFoundParagraph_restructures
    (paragraph searchTerm fileName : jsstring) (index : nat) :
  let pieces := map trim (split paragraph PIPE) in
  let keeps s := includes (toLowerCase s) (toLowerCase (trim searchTerm)) in
  let emitted := fst (processFoundParagraph paragraph searchTerm fileName index) in
  (includes paragraph PIPE = true -> 3 <= length (split paragraph PIPE) ->
   emitted = join [SP] (hd [] pieces :: filter keeps (tl pieces)))
  /\ (includes paragraph PIPE = false \/ length (split paragraph PIPE) < 3 ->
      emitted = paragraph)
  /\ fst (processFoundParagraph
            (str "Intro text | mentions abc here | unrelated clause | another abc mention")
            (str "abc") fileName index)
     = str "Intro text mentions abc here another abc mention".
Proof.
  cbv zeta. split; [|split; [|reflexivity]].
  - intros Hpipe Hlen. unfold processFoundParagraph. rewrite Hpipe.
    apply Nat.leb_le in Hlen. rewrite Hlen. cbn [andb].
    destruct (map trim (split paragraph PIPE)) as [|base rest] eqn:E.
    + apply map_eq_nil in E. rewrite E in Hlen. discriminate.
    + pose proof (selectSentences_filter (toLowerCase (trim searchTerm)) rest
                    [base] [str "[BASE] " ++ base]) as Hsel.
      destruct (selectSentences (toLowerCase (trim searchTerm)) rest [base]
                  [str "[BASE] " ++ base]) as [parts selected].
      cbn [fst hd tl] in *. rewrite Hsel. reflexivity.
  - intros Hnot. unfold processFoundParagraph.
    destruct (includes paragraph PIPE && (3 <=? length (split paragraph PIPE)))
      eqn:E; [|reflexivity].
    apply andb_true_iff in E as [E1 E2]. apply Nat.leb_le in E2.
    destruct Hnot as [Hnot|Hnot]; [congruence|lia].
Qed.

Lemma processFoundParagraph_restructures_witness :
  includes (str "a | B here | c") PIPE = true
  /\ 3 <= length (split (str "a | B here | c") PIPE)
  /\ fst (processFoundParagraph (str "a | B here | c") (str " b ") (str "f") 0)
     = str "a B here".
Proof.
  assert (H1 : includes (str "a | B here | c") PIPE = true) by reflexivity.
  assert (H2 : 3 <= length (split (str "a | B here | c") PIPE))
    by (vm_compute; lia).
  split; [exact H1|]. split; [exact H2|].
  exact (proj1 (processFoundParagraph_restructures
                  (str "a | B here | c") (str " b ") (str "f") 0) H1 H2).
Defined.

(** ** Properties of the segmentation engine *)

Section SegmentationFacts.

Lemma below_80_percent (c a : nat) :
  (ofCount c < (8 # 10) * ofCount a)%Q <-> 5 * c < 4 * a.
Proof.
  unfold ofCount, Qlt, Qmult, inject_Z. cbn [Qnum Qden]. lia.
Qed.

Lemma below_fraction (k n : nat) (q : positive) :
  (ofCount k < ofCount n / inject_Z (Zpos q))%Q <-> Pos.to_nat q * k < n.
Proof.
  unfold ofCount, Qlt, Qdiv, Qmult, Qinv, inject_Z. cbn [Qnum Qden]. lia.
Qed.

Lemma splitText_final (t : jsstring) :
  paragraphs (splitTextIntoParagraphs t) = result (finalMethod (normalize t))
  /\ chosenMethod (splitInfo (splitTextIntoParagraphs t))
     = name (finalMethod (normalize t)).
Proof. split; reflexivity. Qed.

End SegmentationFacts.

Ltac ltb_cases :=
  repeat match goal with
         | |- context [?x <? ?y] => destruct (Nat.ltb_spec x y)
         end.

Ltac rule_case :=
  intros; unfold chooseMethod; ltb_cases; cbn [andb];
  try reflexivity; lia.

Lemma split_length (s sep : jsstring) :
  length (split s sep) = S (length (matchAll (literalHere sep) s)).
Proof.
  unfold split, splitWith, matchAll.
  destruct (execAll (literalHere sep) (length s) s) as [ms tail].
  cbn [fst]. rewrite length_app, length_map. cbn [length].
  rewrite Nat.add_1_r. f_equal.
  induction ms as [|bm ms IH]; [reflexivity|].
  cbn [flat_map app length]. rewrite IH. reflexivity.
Qed.

Lemma counts_bounded_by_breaks (t : jsstring) :
  count (method1 (normalize t))
  <= doubleNewlineCount (splitInfo (splitTextIntoParagraphs t)) + 1
  /\ count (method0 (normalize t))
     <= singleNewlineCount (splitInfo (splitTextIntoParagraphs t)) + 1.
Proof.
  unfold count, method0, method1, splitTextIntoParagraphs.
  cbn [result splitInfo doubleNewlineCount singleNewlineCount].
  rewrite !Nat.add_1_r, <- !split_length. split; apply filter_length_le.
Qed.

(** C3, as stated, fails on its example: the three figures do not decide
    the strategy.  [docSparse] has 1500 characters, one double line break
    and 60 line breaks, but only three of its lines hold text; rule 2
    needs more than three, rule 3 does not apply either, and rule 4 picks
    the blank-line-separated blocks. *)
Lemma figures_do_not_decide_the_strategy :
  let n := normalize docSparse in
  let info := splitInfo (splitTextIntoParagraphs docSparse) in
  originalLength info = 1500
  /\ doubleNewlineCount info = 1
  /\ singleNewlineCount info = 60
  /\ count (method0 n) = 3 /\ count (method1 n) = 2
  /\ count (method2 n) = 1 /\ count (method3 n) = 3
  /\ chooseMethod (method0 n) (method1 n) (method2 n) (method3 n) = method3 n
  /\ chosenMethod info = nameBlocks
  /\ chosenMethod info <> nameSingle
  /\ splitter (finalMethod n) = SepBlankRun
  /\ paragraphs (splitTextIntoParagraphs docSparse) = result (method3 n).
Proof.
  cbv zeta.
  repeat match goal with |- _ /\ _ => split end;
    try (vm_compute; reflexivity).
  vm_compute. discriminate.
Qed.

(** C3, amended.  For every text the candidate picked before the safety
    checks follows the ordered rules: (c) when its count is above 5 and
    below 80% of (a)'s; else (a) when its count is above (b)'s and above
    3; else (b) when its count is above 3; else (d) when its count is
    above (b)'s; else (a).  Where no safety check applies the function
    returns that candidate.  Whenever (a) has more paragraphs than (b),
    more than 3 and at most 500, the text is split on single line breaks,
    by (a) or by (c), never on double line breaks.  The counts of (b) and
    (a) are at most one more than the numbers of double and of single
    line breaks reported; so a document with one double line break among
    its 60 line breaks is split on single line breaks as soon as (a)
    keeps more than 3 of its lines, whatever its length.  A document of
    1500 characters with these figures and 60 lines of text is split by
    candidate (a). *)
Theorem chooseMethod_follows_rules (t : jsstring) :
  let n := normalize t in
  let m0 := method0 n in
  let m1 := method1 n in
  let m2 := method2 n in
  let m3 := method3 n in
  let info := splitInfo (splitTextIntoParagraphs t) in
  let rule1 := 5 < count m2
               /\ (ofCount (count m2) < (8 # 10) * ofCount (count m0))%Q in
  let rule2 := count m1 < count m0 /\ 3 < count m0 in
  let rule3 := 3 < count m1 in
  let rule4 := count m1 < count m3 in
  let chosen := chooseMethod m0 m1 m2 m3 in
  (rule1 -> chosen = m2)
  /\ (~ rule1 -> rule2 -> chosen = m0)
  /\ (~ rule1 -> ~ rule2 -> rule3 -> chosen = m1)
  /\ (~ rule1 -> ~ rule2 -> ~ rule3 -> rule4 -> chosen = m3)
  /\ (~ rule1 -> ~ rule2 -> ~ rule3 -> ~ rule4 -> chosen = m0)
  /\ (count chosen <= 500 -> 5 <= count chosen \/ length n <= 1000 ->
      paragraphs (splitTextIntoParagraphs t) = result chosen
      /\ chosenMethod info = name chosen)
  /\ (count m1 < count m0 -> 3 < count m0 -> count m0 <= 500 ->
      splitter (finalMethod n) = SepString [LF]
      /\ (finalMethod n = m0 \/ finalMethod n = m2))
  /\ (count m1 <= doubleNewlineCount info + 1
      /\ count m0 <= singleNewlineCount info + 1)
  /\ (doubleNewlineCount info = 1 -> singleNewlineCount info = 60 ->
      3 < count m0 ->
      splitter (finalMethod n) = SepString [LF]
      /\ (chosenMethod info = nameSingle \/ chosenMethod info = nameMeaningful)
      /\ (paragraphs (splitTextIntoParagraphs t) = result m0
          \/ paragraphs (splitTextIntoParagraphs t) = result m2))
  /\ (originalLength (splitInfo (splitTextIntoParagraphs doc1500)) = 1500
      /\ doubleNewlineCount (splitInfo (splitTextIntoParagraphs doc1500)) = 1
      /\ singleNewlineCount (splitInfo (splitTextIntoParagraphs doc1500)) = 60
      /\ chosenMethod (splitInfo (splitTextIntoParagraphs doc1500)) = nameSingle
      /\ paragraphs (splitTextIntoParagraphs doc1500)
         = result (method0 (normalize doc1500))
      /\ splitter (finalMethod (normalize doc1500)) = SepString [LF]).
Proof.
  cbv zeta.
  pose proof (counts_bounded_by_breaks t) as Hbounds.
  set (info := splitInfo (splitTextIntoParagraphs t)) in *.
  set (n := normalize t) in *. set (m0 := method0 n) in *.
  set (m1 := method1 n) in *.
  set (m2 := method2 n). set (m3 := method3 n).
  rewrite below_80_percent.
  assert (Hfinal :
    count (chooseMethod m0 m1 m2 m3) <= 500 ->
    5 <= count (chooseMethod m0 m1 m2 m3) \/ length n <= 1000 ->
    safetyTooFew m0 (length n) (safetyTooMany m1 m2 (chooseMethod m0 m1 m2 m3))
    = chooseMethod m0 m1 m2 m3).
  { intros H500 Hfew. unfold safetyTooMany, safetyTooFew.
    destruct (Nat.ltb_spec 500 (count (chooseMethod m0 m1 m2 m3))); [lia|].
    destruct (Nat.ltb_spec (count (chooseMethod m0 m1 m2 m3)) 5);
      destruct (Nat.ltb_spec 1000 (length n)); cbn [andb];
      try reflexivity; lia. }
  assert (Hsingle :
    count m1 < count m0 -> 3 < count m0 -> count m0 <= 500 ->
    splitter (finalMethod n) = SepString [LF]
    /\ (finalMethod n = m0 \/ finalMethod n = m2)).
  { intros Hab Ha3 Ha500. unfold finalMethod. fold m0 m1 m2 m3.
    assert (Hc : chooseMethod m0 m1 m2 m3 = m2 /\ 5 < count m2 < count m0
                 \/ chooseMethod m0 m1 m2 m3 = m0).
    { unfold chooseMethod. ltb_cases; cbn [andb]; try lia;
        first [left; split; [reflexivity|lia]|right; reflexivity]. }
    destruct Hc as [[Hc Hn]|Hc]; rewrite Hc in Hfinal.
    + rewrite Hc, Hfinal by lia. split; [reflexivity|right; reflexivity].
    + assert (Hm0 : safetyTooFew m0 (length n) (safetyTooMany m1 m2 m0) = m0).
      { unfold safetyTooMany, safetyTooFew.
        destruct (Nat.ltb_spec 500 (count m0)); [lia|].
        destruct ((count m0 <? 5) && (1000 <? length n)); [|reflexivity].
        destruct (count m0 * 2 <? count m0); reflexivity. }
      rewrite Hc, Hm0. split; [reflexivity|left; reflexivity]. }
  split; [rule_case|]. split; [rule_case|]. split; [rule_case|].
  split; [rule_case|]. split; [rule_case|]. split.
  { intros H500 Hfew. unfold info. destruct (splitText_final t) as [-> ->].
    fold n. unfold finalMethod. fold m0 m1 m2 m3.
    rewrite (Hfinal H500 Hfew). split; reflexivity. }
  split; [exact Hsingle|]. split; [exact Hbounds|].
  split; [|repeat split; vm_compute; reflexivity].
  intros Hd Hs Ha3. destruct Hbounds as [Hb Ha]. rewrite Hd in Hb.
  rewrite Hs in Ha.
  destruct (Hsingle ltac:(lia) Ha3 ltac:(lia)) as [Hsplit Hwhich].
  split; [exact Hsplit|]. unfold info.
  destruct (splitText_final t) as [-> ->]. fold n.
  destruct Hwhich as [-> | ->].
  - split; left; reflexivity.
  - split; right; reflexivity.
Qed.

Lemma chooseMethod_follows_rules_witness :
  let n := normalize doc1500 in
  let info := splitInfo (splitTextIntoParagraphs doc1500) in
  count (method0 n) = 60 /\ count (method1 n) = 2 /\ count (method2 n) = 60
  /\ chooseMethod (method0 n) (method1 n) (method2 n) (method3 n) = method0 n
  /\ doubleNewlineCount info = 1 /\ singleNewlineCount info = 60
  /\ splitter (finalMethod n) = SepString [LF].
Proof.
  cbv zeta. split; [vm_compute; reflexivity|].
  split; [vm_compute; reflexivity|]. split; [vm_compute; reflexivity|].
  split.
  { apply (proj1 (proj2 (chooseMethod_follows_rules doc1500))).
    - intros [_ H]. vm_compute in H. discriminate.
    - vm_compute. lia. }
  assert (Hd : doubleNewlineCount (splitInfo (splitTextIntoParagraphs doc1500))
               = 1) by (vm_compute; reflexivity).
  assert (Hs : singleNewlineCount (splitInfo (splitTextIntoParagraphs doc1500))
               = 60) by (vm_compute; reflexivity).
  split; [exact Hd|]. split; [exact Hs|].
  apply (proj1 (proj2 (proj2 (proj2 (proj2 (proj2 (proj2 (proj2 (proj2
           (chooseMethod_follows_rules doc1500))))))))));
    [exact Hd|exact Hs|].
  vm_compute. lia.
Defined.

(** C4, as stated, fails on the second check: candidate (a) holding
    exactly double the chosen count is not enough.  On [docBlocks] the
    first check leaves candidate (b) with one paragraph, the text is
    longer than 1000 characters and (a) has two paragraphs, yet (b) is
    returned. *)
Lemma exactly_double_does_not_switch :
  let n := normalize docBlocks in
  let chosen1 :=
    safetyTooMany (method1 n) (method2 n)
      (chooseMethod (method0 n) (method1 n) (method2 n) (method3 n)) in
  count chosen1 < 5
  /\ 1000 < length n
  /\ 2 * count chosen1 <= count (method0 n)
  /\ chosenMethod (splitInfo (splitTextIntoParagraphs docBlocks)) = nameDouble
  /\ paragraphs (splitTextIntoParagraphs docBlocks)
     <> result (method0 n).
Proof.
  cbv zeta. split; [vm_compute; lia|]. split; [vm_compute; lia|].
  split; [vm_compute; lia|]. split; [vm_compute; reflexivity|].
  intros H. apply (f_equal (@length jsstring)) in H.
  vm_compute in H. discriminate.
Qed.

(** C4, amended.  After the choice by the rules two safety checks apply,
    in this order.  If the chosen count exceeds 500: switch to (b) when
    its count is positive and below one fifth of the chosen count, else
    to (c) when its count is positive and below one third of it.  Then, if
    the count now chosen is under 5, the normalised text is longer than
    1000 characters and (a) has more than double that count: switch to
    (a).  Nothing else changes the choice, and the function returns the
    paragraphs and the name of the candidate so chosen. *)
Theorem safety_checks_after_choice (t : jsstring) :
  let n := normalize t in
  let m0 := method0 n in
  let m1 := method1 n in
  let m2 := method2 n in
  let chosen0 := chooseMethod m0 m1 m2 (method3 n) in
  let chosen1 := safetyTooMany m1 m2 chosen0 in
  let final := finalMethod n in
  let toB := 0 < count m1
             /\ (ofCount (count m1) < ofCount (count chosen0) / 5)%Q in
  let toC := 0 < count m2
             /\ (ofCount (count m2) < ofCount (count chosen0) / 3)%Q in
  (500 < count chosen0 -> toB -> chosen1 = m1)
  /\ (500 < count chosen0 -> ~ toB -> toC -> chosen1 = m2)
  /\ (count chosen0 <= 500 \/ (~ toB /\ ~ toC) -> chosen1 = chosen0)
  /\ (count chosen1 < 5 -> 1000 < length n -> 2 * count chosen1 < count m0 ->
      final = m0)
  /\ (5 <= count chosen1 \/ length n <= 1000 \/ count m0 <= 2 * count chosen1 ->
      final = chosen1)
  /\ paragraphs (splitTextIntoParagraphs t) = result final
  /\ chosenMethod (splitInfo (splitTextIntoParagraphs t)) = name final.
Proof.
  cbv zeta.
  set (n := normalize t). set (m0 := method0 n). set (m1 := method1 n).
  set (m2 := method2 n). set (chosen0 := chooseMethod m0 m1 m2 (method3 n)).
  change (ofCount (count chosen0) / 5)%Q
    with (ofCount (count chosen0) / inject_Z (Zpos 5))%Q.
  change (ofCount (count chosen0) / 3)%Q
    with (ofCount (count chosen0) / inject_Z (Zpos 3))%Q.
  rewrite !below_fraction.
  change (Pos.to_nat 5) with 5. change (Pos.to_nat 3) with 3.
  change (finalMethod n)
    with (safetyTooFew m0 (length n) (safetyTooMany m1 m2 chosen0)).
  split; [intros; unfold safetyTooMany; ltb_cases; cbn [andb];
          try reflexivity; lia|].
  split; [intros; unfold safetyTooMany; ltb_cases; cbn [andb];
          try reflexivity; lia|].
  split; [intros; unfold safetyTooMany; ltb_cases; cbn [andb];
          try reflexivity; lia|].
  split; [intros; unfold safetyTooFew; ltb_cases; cbn [andb];
          try reflexivity; lia|].
  split; [intros; unfold safetyTooFew; ltb_cases; cbn [andb];
          try reflexivity; lia|].
  split; reflexivity.
Qed.

Lemma safety_checks_after_choice_witness :
  let n := normalize docBlocks in
  let chosen0 := chooseMethod (method0 n) (method1 n) (method2 n) (method3 n) in
  chosen0 = method3 n
  /\ safetyTooMany (method1 n) (method2 n) chosen0 = method1 n
  /\ finalMethod n = safetyTooMany (method1 n) (method2 n) chosen0.
Proof.
  cbv zeta. split; [vm_compute; reflexivity|]. split.
  - apply (proj1 (safety_checks_after_choice docBlocks)).
    + vm_compute. lia.
    + split; [vm_compute; lia|]. vm_compute. reflexivity.
  - apply (proj1 (proj2 (proj2 (proj2 (proj2
             (safety_checks_after_choice docBlocks)))))).
    right. right. vm_compute. lia.
Defined.

(** ** Properties of the export renderer *)

Section ExportFacts.
Variable searchTerm : jsstring.

Lemma entryRuns_app (a b : list Paragraph) :
  entryRuns (a ++ b) = entryRuns a ++ entryRuns b.
Proof. unfold entryRuns. apply flat_map_app. Qed.

Lemma entryRuns_entries (l : list (list TextRun)) :
  entryRuns (map entryParagraph l) = l.
Proof. induction l as [|x l IH]; simpl; congruence. Qed.

Lemma entriesFrom_length (ps : list jsstring) :
  forall k, length (entriesFrom searchTerm k ps) = length ps.
Proof. induction ps as [|p ps IH]; intros k; simpl; auto. Qed.

Lemma entriesFrom_app (a b : list jsstring) :
  forall k,
    entriesFrom searchTerm k (a ++ b)
    = entriesFrom searchTerm k a ++ entriesFrom searchTerm (k + length a) b.
Proof.
  induction a as [|p a IH]; intros k; simpl.
  - rewrite Nat.add_0_r. reflexivity.
  - rewrite IH, Nat.add_succ_r. reflexivity.
Qed.

(** Entry [i] carries the number [k + i + 1]. *)
Lemma entriesFrom_nth (ps : list jsstring) :
  forall k i p,
    nth_error ps i = Some p ->
    nth_error (entriesFrom searchTerm k ps) i
    = Some (prefixRun (k + i + 1)
              :: map segmentRun (formattedSegments p searchTerm)).
Proof.
  induction ps as [|q ps IH]; intros k i p H.
  - destruct i; discriminate.
  - destruct i as [|i]; simpl in *.
    + injection H as ->. rewrite Nat.add_0_r, Nat.add_1_r. reflexivity.
    + rewrite (IH (S k) i p H).
      replace (k + S i + 1) with (S k + i + 1) by lia. reflexivity.
Qed.

Lemma forEachFound_returns (ps : list jsstring) :
  forall k ch,
    forEachFound searchTerm ps (k, ch)
    = Returns (k + length ps,
               ch ++ map entryParagraph (entriesFrom searchTerm k ps)).
Proof.
  induction ps as [|p ps IH]; intros k ch; simpl.
  - rewrite Nat.add_0_r, app_nil_r. reflexivity.
  - rewrite getFormatted_returns. simpl. rewrite IH, <- app_assoc.
    rewrite Nat.add_succ_r. reflexivity.
Qed.

(** The counter runs on from one result to the next. *)
Lemma forEachResult_returns (results : list SearchResult) :
  forall k ch,
    exists ch',
      forEachResult searchTerm results (k, ch)
      = Returns (k + length (flat_map foundParagraphs results), ch')
      /\ entryRuns ch'
         = entryRuns ch
           ++ entriesFrom searchTerm k (flat_map foundParagraphs results).
Proof.
  induction results as [|r results IH]; intros k ch; simpl.
  - exists ch. rewrite Nat.add_0_r, app_nil_r. auto.
  - rewrite forEachFound_returns. simpl.
    destruct (IH (k + length (foundParagraphs r))
                ((ch ++ fileHeader r)
                 ++ map entryParagraph
                      (entriesFrom searchTerm k (foundParagraphs r))))
      as (ch' & Hr & Hruns).
    exists ch'. rewrite Hr, Hruns, length_app, entriesFrom_app.
    rewrite !entryRuns_app, entryRuns_entries. simpl.
    rewrite app_nil_r, <- app_assoc, Nat.add_assoc. auto.
Qed.

Lemma exportToDocx_returns (localeDate isoNow : jsstring)
    (results : list SearchResult) :
  exists children,
    exportToDocx localeDate isoNow results searchTerm
    = Returns (children, exportFileName searchTerm isoNow)
    /\ entryRuns children
       = entriesFrom searchTerm 0 (flat_map foundParagraphs results).
Proof.
  unfold exportToDocx.
  destruct (forEachResult_returns results 0
              (titleParagraphs searchTerm localeDate)) as (ch & Hr & Hruns).
  rewrite Hr. simpl. eexists. split; [reflexivity|].
  rewrite entryRuns_app, Hruns. simpl. apply app_nil_r.
Qed.
End ExportFacts.

Lemma isAlnum_spec (c : ascii) : isAlnum c = true <-> asciiAlnum c.
Proof.
  unfold isAlnum, asciiAlnum.
  rewrite !orb_true_iff, !andb_true_iff, !Nat.leb_le. tauto.
Qed.

(** C7.  Export returns; the numbered entries are as many as the
    paragraphs of all results; entry [i], counting the paragraphs in
    result order and then in paragraph order, starts with a bold run whose
    text is the number [i + 1], padded with zeros to two digits, then a
    dot and a space, followed by the runs of the paragraph's highlighted
    spans.  The counter is never reset: two paragraphs of one document and
    one of the next are numbered 01, 02, 03; and 100 is written in full. *)
Theorem export_numbers_entries (localeDate isoNow : jsstring)
    (results : list SearchResult) (searchTerm : jsstring) :
  exists children fileName,
    exportToDocx localeDate isoNow results searchTerm
    = Returns (children, fileName)
    /\ length (entryRuns children) = length (flat_map foundParagraphs results)
    /\ (forall i paragraph,
          nth_error (flat_map foundParagraphs results) i = Some paragraph ->
          exists segments,
            getFormattedTextSegments paragraph searchTerm = Returns segments
            /\ nth_error (entryRuns children) i
               = Some (mkTextRun
                         (padStart (numToString (i + 1)) 2 "0" ++ str ". ")
                         (Some true) None None None None
                       :: map segmentRun segments))
    /\ (exists children' fileName',
          exportToDocx localeDate isoNow twoDocs (str "abc")
          = Returns (children', fileName')
          /\ map (fun runs => map runText (firstn 1 runs)) (entryRuns children')
             = [[str "01. "]; [str "02. "]; [str "03. "]])
    /\ numberPrefix 9 = str "09. "
    /\ numberPrefix 99 = str "99. "
    /\ numberPrefix 100 = str "100. ".
Proof.
  destruct (exportToDocx_returns searchTerm localeDate isoNow results)
    as (children & Hr & Hruns).
  exists children, (exportFileName searchTerm isoNow).
  split; [exact Hr|]. split; [rewrite Hruns; apply entriesFrom_length|].
  split.
  - intros i paragraph Hi. exists (formattedSegments paragraph searchTerm).
    split; [apply getFormatted_returns|].
    rewrite Hruns. apply (entriesFrom_nth searchTerm _ 0 _ Hi).
  - split; [|repeat split; reflexivity].
    destruct (exportToDocx_returns (str "abc") localeDate isoNow twoDocs)
      as (children' & Hr' & Hruns').
    exists children', (exportFileName (str "abc") isoNow).
    split; [exact Hr'|]. rewrite Hruns'. reflexivity.
Qed.

Lemma export_numbers_entries_witness :
  exists children fileName,
    exportToDocx (str "01/11/2026") (str "2026-11-01T09:30:00.000Z")
      twoDocs (str "ABC") = Returns (children, fileName)
    /\ nth_error (entryRuns children) 2
       = Some [mkTextRun (str "03. ") (Some true) None None None None;
               mkTextRun (str "third ") (Some false) (Some false) (Some false)
                 None None;
               mkTextRun (str "abc") (Some false) (Some false) (Some false)
                 (Some (str "yellow")) None].
Proof.
  destruct (export_numbers_entries (str "01/11/2026")
              (str "2026-11-01T09:30:00.000Z") twoDocs (str "ABC"))
    as (children & fileName & Hr & _ & Hnth & _).
  exists children, fileName. split; [exact Hr|].
  destruct (Hnth 2 (str "third abc") eq_refl) as (segments & Hs & Hrun).
  rewrite Hrun. vm_compute in Hs. injection Hs as <-. reflexivity.
Defined.

(** C9, as stated, fails: a character outside [A-Za-z0-9] is not removed
    from the term, an underscore takes its place. *)
Lemma slug_keeps_a_place_for_each_character :
  exists children,
    exportToDocx (str "01/11/2026") (str "2026-11-01T09:30:00.000Z")
      [] (str "a b")
    = Returns (children, str "search_results_a_b_2026-11-01.docx")
  /\ termSlug (str "a b") = str "a_b"
  /\ stripNonAlnum (str "a b") = str "ab"
  /\ termSlug (str "a b") <> stripNonAlnum (str "a b").
Proof.
  eexists. split; [reflexivity|]. split; [reflexivity|].
  split; [reflexivity|discriminate].
Qed.

(** C9, amended.  For every search term the file name given to the
    document writer is "search_results_", the term slug, "_", the date
    and ".docx", where the slug is the term with every character outside
    [A-Za-z0-9] replaced by an underscore: it has the length of the term,
    keeps the characters of the class in place and has "_" at every other
    index. *)
Theorem export_file_name_slug (localeDate isoNow : jsstring)
    (results : list SearchResult) (searchTerm : jsstring) :
  exists children,
    exportToDocx localeDate isoNow results searchTerm
    = Returns (children,
               str "search_results_" ++ termSlug searchTerm ++ str "_"
               ++ firstn 10 isoNow ++ str ".docx")
    /\ length (termSlug searchTerm) = length searchTerm
    /\ (forall i c, nth_error searchTerm i = Some c ->
          (asciiAlnum c -> nth_error (termSlug searchTerm) i = Some c)
          /\ (~ asciiAlnum c ->
              nth_error (termSlug searchTerm) i = Some "_"%char)).
Proof.
  destruct (exportToDocx_returns searchTerm localeDate isoNow results)
    as (children & Hr & _).
  exists children. split; [exact Hr|].
  split; [apply length_map|].
  intros i c Hi. unfold termSlug.
  rewrite nth_error_map, Hi. cbn [option_map].
  destruct (isAlnum c) eqn:E.
  - split; [reflexivity|]. intros Hn. apply isAlnum_spec in E. contradiction.
  - split; [|reflexivity]. intros Hc. apply isAlnum_spec in Hc. congruence.
Qed.

Lemma export_file_name_slug_witness :
  nth_error (str "R&D 2") 1 = Some "&"%char
  /\ ~ asciiAlnum "&"
  /\ nth_error (termSlug (str "R&D 2")) 1 = Some "_"%char.
Proof.
  assert (H1 : nth_error (str "R&D 2") 1 = Some "&"%char) by reflexivity.
  assert (H2 : ~ asciiAlnum "&") by (unfold asciiAlnum; vm_compute; lia).
  split; [exact H1|]. split; [exact H2|].
  destruct (export_file_name_slug (str "01/11/2026")
              (str "2026-11-01T09:30:00.000Z") [] (str "R&D 2"))
    as (children & _ & _ & Hnth).
  exact (proj2 (Hnth 1 "&"%char H1) H2).
Defined.

(** * Further properties of the code *)

Unset Implicit Arguments.

(** ** More facts about successive matches *)

Section ScanPieces.
Variable M : Type.
Variable here : jsstring -> option (M * jsstring).
Variable textOf : M -> jsstring.
Hypothesis here_sound :
  forall s m after,
    here s = Some (m, after) -> s = textOf m ++ after /\ textOf m <> [].

(** Where [exec] finds nothing the pattern matches at no position. *)
Lemma exec_none_here (s : jsstring) :
  exec here s = None -> forall u v, s = u ++ v -> here v = None.
Proof.
  induction s as [|c r IH]; intros H u v E; simpl in H.
  - destruct u; [|discriminate]. simpl in E. subst v.
    destruct (here []) as [[m a]|]; [discriminate|reflexivity].
  - destruct (here (c :: r)) as [[m a]|] eqn:Eh; [discriminate|].
    destruct (exec here r) as [[[b m] a]|] eqn:Er; [discriminate|].
    destruct u as [|x u]; simpl in E.
    + subst v. exact Eh.
    + injection E as _ E. apply (IH eq_refl u v E).
Qed.

(** The text before the match [exec] finds holds no earlier match. *)
Lemma exec_before_here (s before after : jsstring) (m : M) :
  exec here s = Some (before, m, after) ->
  forall u v, before = u ++ v -> v <> [] ->
              here (v ++ textOf m ++ after) = None.
Proof.
  revert before. induction s as [|c r IH]; intros before H u v E Hv;
    simpl in H.
  - destruct (here []) as [[m' a']|]; [|discriminate].
    injection H as <- <- <-. destruct u; destruct v; try discriminate.
    congruence.
  - destruct (here (c :: r)) as [[m' a']|] eqn:Eh.
    + injection H as <- <- <-. destruct u; destruct v; try discriminate.
      congruence.
    + destruct (exec here r) as [[[b' m'] a']|] eqn:Er; [|discriminate].
      injection H as <- <- <-.
      pose proof (exec_sound here textOf here_sound _ Er) as [Hr _].
      destruct u as [|x u]; simpl in E.
      * subst v. simpl. rewrite <- Hr. exact Eh.
      * injection E as _ E. apply (IH b' eq_refl u v E Hv).
Qed.

(** With enough fuel the text left at the end holds no match. *)
Lemma execAll_tail_none (fuel : nat) :
  forall s ms tail,
    length s <= fuel -> execAll here fuel s = (ms, tail) ->
    exec here tail = None.
Proof.
  induction fuel as [|fuel IH]; intros s ms tail Hlen H; simpl in H.
  - injection H as <- <-. destruct s; [|simpl in Hlen; lia].
    apply (exec_nil here textOf here_sound).
  - destruct (exec here s) as [[[b m] a]|] eqn:E.
    + destruct (execAll here fuel a) as [ms' tail'] eqn:E'.
      injection H as <- <-.
      apply (exec_sound here textOf here_sound) in E as [_ Hlt].
      apply (IH a ms' tail'); [lia|exact E'].
    + injection H as <- <-. exact E.
Qed.

(** Every text between two matches is a piece of the scanned text, and
    holds no match of its own. *)
Lemma execAll_pieces (fuel : nat) :
  forall s ms tail,
    execAll here fuel s = (ms, tail) ->
    (forall b m, In (b, m) ms ->
       (exists u v, s = u ++ b ++ v)
       /\ (exists u v, s = u ++ textOf m ++ v)
       /\ exists rest, forall u v, b = u ++ v -> v <> [] ->
                                   here (v ++ rest) = None)
    /\ exists u, s = u ++ tail.
Proof.
  induction fuel as [|fuel IH]; intros s ms tail H; simpl in H.
  - injection H as <- <-. split; [contradiction|]. exists []. reflexivity.
  - destruct (exec here s) as [[[b m] a]|] eqn:E.
    + destruct (execAll here fuel a) as [ms' tail'] eqn:E'.
      injection H as <- <-.
      pose proof (exec_before_here _ _ _ _ E) as Hbefore.
      apply (exec_sound here textOf here_sound) in E as [-> _].
      destruct (IH _ _ _ E') as [Hms [u Hu]]. split.
      * intros b0 m0 [Heq|Hin].
        -- injection Heq as <- <-. split; [exists [], (textOf m ++ a); reflexivity|].
           split; [exists b, a; reflexivity|].
           exists (textOf m ++ a). exact Hbefore.
        -- destruct (Hms _ _ Hin) as [(u1 & v1 & H1) [(u2 & v2 & H2) H3]].
           split; [exists (b ++ textOf m ++ u1), v1|split].
           ++ rewrite H1 at 1. rewrite <- !app_assoc. reflexivity.
           ++ exists (b ++ textOf m ++ u2), v2. rewrite H2 at 1.
              rewrite <- !app_assoc. reflexivity.
           ++ exact H3.
      * exists (b ++ textOf m ++ u). rewrite Hu at 1.
        rewrite <- !app_assoc. reflexivity.
    + injection H as <- <-. split; [contradiction|]. exists []. reflexivity.
Qed.

End ScanPieces.

Lemma splitWith_piece (here : jsstring -> option (jsstring * jsstring))
    (capture : bool) (s p : jsstring) :
  (forall s m after,
      here s = Some (m, after) -> s = m ++ after /\ m <> []) ->
  In p (splitWith here capture s) -> exists u v, s = u ++ p ++ v.
Proof.
  intros Hsound. unfold splitWith.
  destruct (execAll here (length s) s) as [ms tail] eqn:E.
  destruct (execAll_pieces _ here (fun x => x) Hsound _ _ _ _ E) as [Hms [u Hu]].
  intros Hin. apply in_app_or in Hin as [Hin|[<-|[]]].
  - apply in_flat_map in Hin as ([b m] & Hbm & Hin).
    destruct (Hms _ _ Hbm) as [Hb [Hm _]]. cbn [fst snd] in Hin.
    destruct Hin as [<-|Hin]; [exact Hb|].
    destruct capture; [|contradiction]. destruct Hin as [<-|[]]. exact Hm.
  - exists u, []. rewrite app_nil_r. exact Hu.
Qed.

(** A piece of a split on one character does not hold that character. *)
Lemma split_char_piece (c : ascii) (s p : jsstring) :
  In p (split s [c]) -> ~ In c p.
Proof.
  unfold split, splitWith.
  destruct (execAll (literalHere [c]) (length s) s) as [ms tail] eqn:E.
  assert (Hnone : forall x rest,
             (forall u v, x = u ++ v -> v <> [] ->
                          literalHere [c] (v ++ rest) = None) ->
             ~ In c x).
  { intros x rest H Hin. apply in_split in Hin as (u & v & ->).
    specialize (H u (c :: v) eq_refl). unfold literalHere in H.
    cbn [app startsWith] in H. rewrite char_eqb_refl in H.
    cbn in H. discriminate H. discriminate. }
  intros Hin. apply in_app_or in Hin as [Hin|[<-|[]]].
  - apply in_flat_map in Hin as ([b m] & Hbm & Hin).
    destruct (execAll_pieces _ _ (fun x => x) (@literalHere_sound [c]) _ _ _ _ E)
      as [Hms _].
    destruct (Hms _ _ Hbm) as (_ & _ & rest & Hrest).
    cbn [fst snd] in Hin. destruct Hin as [<-|[]].
    apply (Hnone _ _ Hrest).
  - pose proof (execAll_tail_none _ _ (fun x => x) (@literalHere_sound [c])
                  _ _ _ _ (le_n _) E) as Htail.
    intros Hin. apply in_split in Hin as (u & v & Huv).
    pose proof (exec_none_here _ _ _ Htail u (c :: v) Huv) as H.
    unfold literalHere in H. cbn [startsWith] in H.
    rewrite char_eqb_refl in H. discriminate H.
Qed.

(** ** Further properties of the segmentation engine *)

Section SegmentationMore.

Lemma blankRunTail_sound (s : jsstring) :
  forall m after, blankRunTail s = Some (m, after) -> s = m ++ after.
Proof.
  induction s as [|c r IH]; intros m after H; simpl in H; [discriminate|].
  destruct (isWhiteSpace c).
  - destruct (blankRunTail r) as [[m' a']|] eqn:E.
    + injection H as <- <-. rewrite (IH _ _ eq_refl). reflexivity.
    + destruct (char_eqb c LF); [|discriminate].
      injection H as <- <-. reflexivity.
  - destruct (char_eqb c LF); [|discriminate].
    injection H as <- <-. reflexivity.
Qed.

Lemma blankRunHere_sound (s m after : jsstring) :
  blankRunHere s = Some (m, after) -> s = m ++ after /\ m <> [].
Proof.
  unfold blankRunHere. destruct s as [|c r]; [discriminate|].
  destruct (char_eqb c LF); [|discriminate].
  destruct (blankRunTail r) as [[m' a']|] eqn:E; [|discriminate].
  intros H. injection H as <- <-.
  rewrite (blankRunTail_sound _ _ _ E). split; [reflexivity|discriminate].
Qed.

Lemma dropWhile_all (p : ascii -> bool) (s : jsstring) :
  forallb p s = true -> dropWhile p s = [].
Proof.
  induction s as [|c r IH]; [reflexivity|]. simpl.
  intros H. apply andb_true_iff in H as [Hc Hr]. rewrite Hc. auto.
Qed.

Lemma trim_blank (s : jsstring) :
  forallb isWhiteSpace s = true -> trim s = [].
Proof.
  intros H. unfold trim, trimStart, trimEnd.
  rewrite (dropWhile_all _ _ H). reflexivity.
Qed.

(** The candidate returned is one of the four. *)
Lemma finalMethod_cases (n : jsstring) :
  finalMethod n = method0 n \/ finalMethod n = method1 n
  \/ finalMethod n = method2 n \/ finalMethod n = method3 n.
Proof.
  unfold finalMethod, safetyTooFew, safetyTooMany, chooseMethod.
  repeat match goal with
         | |- context [if ?b then _ else _] => destruct b
         end; auto.
Qed.

Lemma result_nonblank (n p : jsstring) :
  In p (result (finalMethod n)) -> trim p <> [].
Proof.
  assert (Hlen : forall q : jsstring, (0 <? length q) = true -> q <> []).
  { intros [|x q]; [discriminate|discriminate]. }
  destruct (finalMethod_cases n) as [-> | [-> | [-> | ->]]]; cbn [result];
    intros H; apply filter_In in H as [_ H].
  - unfold keepLine in H. apply andb_true_iff in H as [H _]. auto.
  - apply Hlen. exact H.
  - unfold meaningful in H. repeat (apply andb_true_iff in H as [H _]).
    apply Nat.ltb_lt in H. destruct (trim p); [simpl in H; lia|discriminate].
  - apply Hlen. exact H.
Qed.

Lemma result_piece (n p : jsstring) :
  In p (result (finalMethod n)) -> exists u v, n = u ++ p ++ v.
Proof.
  destruct (finalMethod_cases n) as [-> | [-> | [-> | ->]]]; cbn [result];
    intros H; apply filter_In in H as [H _].
  - apply (splitWith_piece _ _ _ _ (@literalHere_sound [LF]) H).
  - apply (splitWith_piece _ _ _ _ (@literalHere_sound [LF; LF]) H).
  - apply (splitWith_piece _ _ _ _ (@literalHere_sound [LF]) H).
  - apply (splitWith_piece _ _ _ _ blankRunHere_sound H).
Qed.

(** What a literal replacement is made of. *)
Lemma replaceAll_chars (s x y : jsstring) (c : ascii) :
  In c (replaceAll s x y) -> In c s \/ In c y.
Proof.
  unfold replaceAll.
  destruct (execAll (literalHere x) (length s) s) as [ms tail] eqn:E.
  destruct (execAll_pieces _ _ (fun z => z) (@literalHere_sound x) _ _ _ _ E)
    as [Hms [u Hu]].
  intros H. apply in_app_or in H as [H|H].
  - apply in_flat_map in H as ([b m] & Hbm & H). cbn [fst] in H.
    apply in_app_or in H as [H|H]; [|auto].
    destruct (Hms _ _ Hbm) as [(u1 & v1 & ->) _]. left.
    apply in_or_app. right. apply in_or_app. left. exact H.
  - left. rewrite Hu. apply in_or_app. right. exact H.
Qed.

(** Replacing every [c] leaves none. *)
Lemma replaceAll_removes (s y : jsstring) (c : ascii) :
  ~ In c y -> ~ In c (replaceAll s [c] y).
Proof.
  intros Hy. unfold replaceAll.
  destruct (execAll (literalHere [c]) (length s) s) as [ms tail] eqn:E.
  assert (Hsplit : split s [c] = map fst ms ++ [tail]).
  { unfold split, splitWith. rewrite E. f_equal. }
  intros H. apply in_app_or in H as [H|H].
  - apply in_flat_map in H as ([b m] & Hbm & H). cbn [fst] in H.
    apply in_app_or in H as [H|H]; [|auto].
    apply (split_char_piece c s b); [|exact H].
    rewrite Hsplit. apply in_or_app. left.
    apply (in_map fst _ _ Hbm).
  - apply (split_char_piece c s tail); [|exact H].
    rewrite Hsplit. apply in_or_app. right. left. reflexivity.
Qed.

(** Nothing to replace, nothing changed. *)
Lemma replaceAll_absent (s y : jsstring) (c : ascii) (x : jsstring) :
  ~ In c s -> replaceAll s (c :: x) y = s.
Proof.
  intros Hc.
  assert (Hexec : forall r, ~ In c r -> exec (literalHere (c :: x)) r = None).
  { induction r as [|d r IH]; intros Hr; [reflexivity|].
    cbn [exec literalHere startsWith].
    destruct (char_eqb c d) eqn:Ed.
    - apply char_eqb_eq in Ed. subst d. exfalso. apply Hr. left. reflexivity.
    - cbn [andb]. rewrite IH; [reflexivity|].
      intros Hin. apply Hr. right. exact Hin. }
  unfold replaceAll. destruct s as [|d s]; [reflexivity|].
  cbn [length execAll]. rewrite (Hexec _ Hc). reflexivity.
Qed.

Lemma normalize_no_CR (t : jsstring) : ~ In CR (normalize t).
Proof.
  unfold normalize. apply replaceAll_removes.
  intros [H|[]]. discriminate H.
Qed.

Lemma normalize_chars (t : jsstring) (c : ascii) :
  In c (normalize t) -> In c t \/ c = LF.
Proof.
  unfold normalize. intros H.
  apply replaceAll_chars in H as [H|[H|[]]]; [|auto].
  apply replaceAll_chars in H as [H|[H|[]]]; auto.
Qed.

Lemma meaningful_keepLine (p : jsstring) :
  meaningful p = true -> keepLine p = true.
Proof.
  unfold meaningful, keepLine. intros H.
  repeat (apply andb_true_iff in H as [H _]). apply Nat.ltb_lt in H.
  apply andb_true_iff. split; [apply Nat.ltb_lt|apply Nat.leb_le]; lia.
Qed.

End SegmentationMore.

(** X1.  Every paragraph the segmentation returns is a contiguous piece
    of the normalised text, taken as it stands, and is not blank. *)
Theorem paragraphs_are_nonblank_pieces (t p : jsstring) :
  In p (paragraphs (splitTextIntoParagraphs t)) ->
  trim p <> [] /\ exists u v, normalize t = u ++ p ++ v.
Proof.
  intros H. destruct (splitText_final t) as [Hp _]. rewrite Hp in H.
  split; [apply (result_nonblank _ _ H)|apply (result_piece _ _ H)].
Qed.

Lemma paragraphs_are_nonblank_pieces_witness :
  In (str "second line") (paragraphs (splitTextIntoParagraphs
                                        (str "first line" ++ [CR; LF]
                                         ++ str "second line")))
  /\ trim (str "second line") <> [].
Proof.
  assert (H : In (str "second line")
                (paragraphs (splitTextIntoParagraphs
                               (str "first line" ++ [CR; LF]
                                ++ str "second line"))))
    by (right; left; reflexivity).
  split; [exact H|].
  exact (proj1 (paragraphs_are_nonblank_pieces _ _ H)).
Defined.

(** X2.  A text made of white space only, the empty text included, has
    no paragraphs. *)
Theorem blank_text_has_no_paragraphs (t : jsstring) :
  forallb isWhiteSpace t = true ->
  paragraphs (splitTextIntoParagraphs t) = [] /\ countParagraphs t = 0.
Proof.
  intros Hblank.
  assert (H : paragraphs (splitTextIntoParagraphs t) = []).
  { destruct (paragraphs (splitTextIntoParagraphs t)) as [|p ps] eqn:E;
      [reflexivity|].
    assert (Hin : In p (paragraphs (splitTextIntoParagraphs t)))
      by (rewrite E; left; reflexivity).
    destruct (paragraphs_are_nonblank_pieces _ _ Hin) as [Hne (u & v & Huv)].
    exfalso. apply Hne. apply trim_blank. apply forallb_forall.
    intros c Hc.
    assert (Hn : In c (normalize t)).
    { rewrite Huv. apply in_or_app. right. apply in_or_app. left. exact Hc. }
    apply normalize_chars in Hn as [Hn| ->]; [|reflexivity].
    rewrite forallb_forall in Hblank. apply Hblank. exact Hn. }
  split; [exact H|]. unfold countParagraphs. rewrite H. reflexivity.
Qed.

Lemma blank_text_has_no_paragraphs_witness :
  forallb isWhiteSpace ([SP; CR; LF; LF] ++ str "  ") = true
  /\ countParagraphs ([SP; CR; LF; LF] ++ str "  ") = 0.
Proof.
  assert (H : forallb isWhiteSpace ([SP; CR; LF; LF] ++ str "  ") = true)
    by reflexivity.
  split; [exact H|]. exact (proj2 (blank_text_has_no_paragraphs _ H)).
Defined.

(** X3.  Normalising line endings leaves no carriage return, and
    normalising again changes nothing; so no paragraph holds a carriage
    return. *)
Theorem normalize_removes_carriage_returns (t : jsstring) :
  ~ In CR (normalize t)
  /\ normalize (normalize t) = normalize t
  /\ forall p, In p (paragraphs (splitTextIntoParagraphs t)) -> ~ In CR p.
Proof.
  split; [apply normalize_no_CR|]. split.
  - unfold normalize at 1.
    rewrite (replaceAll_absent _ _ _ _ (normalize_no_CR t)).
    apply (replaceAll_absent _ _ _ [] (normalize_no_CR t)).
  - intros p Hp Hin.
    destruct (paragraphs_are_nonblank_pieces _ _ Hp) as [_ (u & v & Huv)].
    apply (normalize_no_CR t). rewrite Huv.
    apply in_or_app. right. apply in_or_app. left. exact Hin.
Qed.

Lemma normalize_removes_carriage_returns_witness :
  In (str "second line") (paragraphs (splitTextIntoParagraphs
                                        (str "first line" ++ [CR; LF]
                                         ++ str "second line" ++ [CR])))
  /\ ~ In CR (str "second line").
Proof.
  assert (H : In (str "second line")
                (paragraphs (splitTextIntoParagraphs
                               (str "first line" ++ [CR; LF]
                                ++ str "second line" ++ [CR]))))
    by (right; left; reflexivity).
  split; [exact H|].
  exact (proj2 (proj2 (normalize_removes_carriage_returns _)) _ H).
Defined.

(** X4.  When the strategy reported is one of the two that split on
    single line breaks, every paragraph is a single line. *)
Theorem line_strategies_give_single_lines (t p : jsstring) :
  chosenMethod (splitInfo (splitTextIntoParagraphs t)) = nameSingle
  \/ chosenMethod (splitInfo (splitTextIntoParagraphs t)) = nameMeaningful ->
  In p (paragraphs (splitTextIntoParagraphs t)) ->
  ~ In LF p.
Proof.
  destruct (splitText_final t) as [-> ->].
  intros Hname Hin.
  assert (Hline : In p (split (normalize t) [LF])).
  { destruct (finalMethod_cases (normalize t)) as [E|[E|[E|E]]];
      rewrite E in Hname, Hin; cbn [name result] in *.
    - apply filter_In in Hin as [Hin _]. exact Hin.
    - destruct Hname as [Hname|Hname]; discriminate Hname.
    - apply filter_In in Hin as [Hin _]. exact Hin.
    - destruct Hname as [Hname|Hname]; discriminate Hname. }
  apply (split_char_piece _ _ _ Hline).
Qed.

Lemma line_strategies_give_single_lines_witness :
  chosenMethod (splitInfo (splitTextIntoParagraphs doc1500)) = nameSingle
  /\ In line24 (paragraphs (splitTextIntoParagraphs doc1500))
  /\ ~ In LF line24.
Proof.
  assert (H1 : chosenMethod (splitInfo (splitTextIntoParagraphs doc1500))
               = nameSingle) by (vm_compute; reflexivity).
  assert (H2 : In line24 (paragraphs (splitTextIntoParagraphs doc1500)))
    by (vm_compute; left; reflexivity).
  split; [exact H1|]. split; [exact H2|].
  exact (line_strategies_give_single_lines _ _ (or_introl H1) H2).
Defined.

(** X5.  The "meaningful lines" candidate keeps a part of what the
    "single newline" candidate keeps, in the same order: it never has
    more paragraphs. *)
Theorem meaningful_lines_among_single_lines (n : jsstring) :
  result (method2 n) = filter meaningful (result (method0 n))
  /\ count (method2 n) <= count (method0 n).
Proof.
  assert (H : result (method2 n) = filter meaningful (result (method0 n))).
  { cbn [method0 method2 result].
    induction (split n [LF]) as [|p l IH]; [reflexivity|]. cbn [filter].
    destruct (meaningful p) eqn:E.
    - rewrite (meaningful_keepLine _ E). cbn [filter]. rewrite E. congruence.
    - destruct (keepLine p); [cbn [filter]; rewrite E|]; exact IH. }
  split; [exact H|]. unfold count. rewrite H. apply filter_length_le.
Qed.

(** ** Further properties of the search matcher *)

Section SearchMore.
Variable allFiles : list FileData.
Variable term : jsstring.

Local Abbreviation pt := (toLowerCase (trim term)).

Lemma forEachParagraph_spec (file : FileData) (ps : list jsstring) :
  forall idx found occ dbg found' occ' dbg',
    forEachParagraph file term pt ps idx (found, occ, dbg)
    = Returns (found', occ', dbg') ->
    exists D,
      found' = found ++ map processedParagraph D
      /\ dbg' = dbg ++ D
      /\ length D <= length ps
      /\ Forall (fun d =>
                   idx <= paragraphIndex d
                   /\ debugFileName d = fileDataName file
                   /\ nth_error ps (paragraphIndex d - idx)
                      = Some (originalParagraph d)
                   /\ includes (toLowerCase (originalParagraph d)) pt = true
                   /\ processedParagraph d
                      = fst (processFoundParagraph (originalParagraph d) term
                               (fileDataName file) (paragraphIndex d))) D.
Proof.
  induction ps as [|p ps IH]; intros idx found occ dbg found' occ' dbg' H;
    cbn [forEachParagraph] in H.
  - injection H as <- <- <-. exists []. rewrite !app_nil_r.
    repeat split; auto.
  - destruct (includes (toLowerCase p) pt) eqn:Einc.
    + destruct (countOccurrences (toLowerCase p) pt) as [n| |];
        cbn [bind] in H; try discriminate.
      destruct (processFoundParagraph p term (fileDataName file) idx)
        as [processed debug] eqn:Ep.
      apply IH in H as (D & -> & -> & Hlen & HD).
      exists (mkDebugInfo (fileDataName file) idx p processed debug :: D).
      cbn [map processedParagraph length]. rewrite <- !app_assoc.
      split; [reflexivity|]. split; [reflexivity|]. split; [lia|].
      constructor.
      * cbn. rewrite Nat.sub_diag, Ep. auto.
      * eapply Forall_impl; [|exact HD]. cbn beta.
        intros d (H1 & H2 & H3 & H4 & H5). split; [lia|]. split; [exact H2|].
        split; [|auto].
        replace (paragraphIndex d - idx) with (S (paragraphIndex d - S idx))
          by lia. exact H3.
    + apply IH in H as (D & -> & -> & Hlen & HD).
      exists D. split; [reflexivity|]. split; [reflexivity|].
      split; [cbn [length]; lia|].
      eapply Forall_impl; [|exact HD]. cbn beta.
      intros d (H1 & H2 & H3 & H4 & H5). split; [lia|]. split; [exact H2|].
      split; [|auto].
      replace (paragraphIndex d - idx) with (S (paragraphIndex d - S idx))
        by lia. exact H3.
Qed.

Lemma forEachFile_spec (ids : list jsstring) :
  forall acc out,
    forEachFile allFiles term pt ids acc = Returns out ->
    exists R D,
      out = (fst acc ++ R, snd acc ++ D)
      /\ length R <= length ids
      /\ map processedParagraph D = flat_map foundParagraphs R
      /\ Forall (resultOf allFiles ids) R
      /\ Forall (traceRecord allFiles term) D.
Proof.
  induction ids as [|fileId ids IH]; intros acc out H; cbn [forEachFile] in H.
  - injection H as <-. exists [], []. rewrite !app_nil_r.
    destruct acc. repeat split; auto.
  - assert (Hweak : forall R, Forall (resultOf allFiles ids) R ->
                              Forall (resultOf allFiles (fileId :: ids)) R).
    { intros R HR. eapply Forall_impl; [|exact HR].
      intros r (f & H1 & H2 & H3). exists f. split; [exact H1|].
      split; [right; exact H2|exact H3]. }
    destruct (find (fun f => str_eqb (id f) fileId) allFiles) as [file|] eqn:Ef.
    + apply find_some in Ef as [Hin Hid]. apply str_eqb_eq in Hid.
      destruct (forEachParagraph file term pt
                  (paragraphs (splitTextIntoParagraphs (content file))) 0
                  ([], 0, [])) as [[[found occ] dbg]| |] eqn:Ep;
        cbn [bind] in H; try discriminate.
      apply forEachParagraph_spec in Ep as (D0 & Hf & Hd & Hlen & HD0).
      cbn [app] in Hf, Hd. subst found dbg.
      assert (HD0' : Forall (traceRecord allFiles term) D0).
      { eapply Forall_impl; [|exact HD0]. cbn beta.
        intros d (_ & H2 & H3 & H4 & H5). exists file. split; [exact Hin|].
        rewrite Nat.sub_0_r in H3. repeat split; assumption. }
      destruct (0 <? length (map processedParagraph D0)) eqn:Epos.
      * apply IH in H as (R & D & -> & HlenR & Hmap & HR & HD).
        cbn [fst snd].
        exists (mkSearchResult (fileDataName file) (map processedParagraph D0)
                  (length (paragraphs (splitTextIntoParagraphs (content file))))
                  occ :: R), (D0 ++ D).
        rewrite <- !app_assoc. split; [reflexivity|].
        split; [cbn [length]; lia|].
        split; [rewrite map_app, Hmap; reflexivity|].
        split; [|apply Forall_app; auto].
        constructor; [|apply Hweak; exact HR].
        exists file. cbn. split; [exact Hin|]. split; [left; symmetry; exact Hid|].
        split; [reflexivity|]. split; [reflexivity|].
        apply Nat.ltb_lt in Epos. rewrite length_map in *.
        split; [|exact Hlen].
        destruct D0; [simpl in Epos; lia|discriminate].
      * apply IH in H as (R & D & -> & HlenR & Hmap & HR & HD).
        exists R, D. split; [reflexivity|]. split; [cbn [length]; lia|].
        split; [exact Hmap|]. split; [apply Hweak; exact HR|exact HD].
    + apply IH in H as (R & D & -> & HlenR & Hmap & HR & HD).
      exists R, D. split; [reflexivity|]. split; [cbn [length]; lia|].
      split; [exact Hmap|]. split; [apply Hweak; exact HR|exact HD].
Qed.

(** The loop over the ids starts from what is already collected and adds
    to it. *)
Lemma forEachFile_acc (ids : list jsstring) :
  forall acc,
    forEachFile allFiles term pt ids acc
    = bind (forEachFile allFiles term pt ids ([], []))
        (fun out => Returns (fst acc ++ fst out, snd acc ++ snd out)).
Proof.
  induction ids as [|fileId ids IH]; intros acc; cbn [forEachFile].
  - cbn. rewrite !app_nil_r. destruct acc. reflexivity.
  - destruct (find (fun f => str_eqb (id f) fileId) allFiles) as [file|];
      [|apply IH].
    destruct (forEachParagraph file term pt
                (paragraphs (splitTextIntoParagraphs (content file))) 0
                ([], 0, [])) as [[[found occ] dbg]| |]; cbn [bind];
      try reflexivity.
    destruct (0 <? length found); [|apply IH].
    rewrite IH. rewrite (IH (fst ([], []) ++ _, _)). cbn [fst snd app].
    destruct (forEachFile allFiles term pt ids ([], [])) as [[r d]| |];
      cbn [bind fst snd]; try reflexivity.
    rewrite <- !app_assoc. reflexivity.
Qed.

Lemma forEachFile_app (ids1 ids2 : list jsstring) :
  forall acc,
    forEachFile allFiles term pt (ids1 ++ ids2) acc
    = bind (forEachFile allFiles term pt ids1 acc)
        (fun a => forEachFile allFiles term pt ids2 a).
Proof.
  induction ids1 as [|fileId ids1 IH]; intros acc; cbn [app forEachFile];
    [reflexivity|].
  destruct (find (fun f => str_eqb (id f) fileId) allFiles) as [file|];
    [|apply IH].
  destruct (forEachParagraph file term pt
              (paragraphs (splitTextIntoParagraphs (content file))) 0
              ([], 0, [])) as [[[found occ] dbg]| |]; cbn [bind];
    try reflexivity.
  destruct (0 <? length found); apply IH.
Qed.

End SearchMore.

Section SearchOrdinary.
Variable allFiles : list FileData.
Variable term : jsstring.
Hypothesis term_ordinary : ordinary (toLowerCase (trim term)) = true.
Hypothesis term_not_blank : toLowerCase (trim term) <> [].

Local Abbreviation pt := (toLowerCase (trim term)).

Lemma includes_exec (t : jsstring) :
  t <> [] ->
  forall s, includes s t = true -> exec (literalHere t) s <> None.
Proof.
  intros Ht. destruct t as [|x t]; [congruence|].
  induction s as [|c r IH]; intros H.
  - cbn in H. discriminate H.
  - cbn [includes] in H. cbn [exec]. unfold literalHere at 1.
    destruct (startsWith (c :: r) (x :: t)); [discriminate|].
    cbn [orb] in H. specialize (IH H).
    destruct (exec (literalHere (x :: t)) r) as [[[b m] a]|];
      [discriminate|congruence].
Qed.

(** A paragraph that contains the term has at least one occurrence. *)
Lemma includes_counted (s : jsstring) :
  includes s pt = true -> 1 <= length (matchAll (literalHere pt) s).
Proof.
  intros H. pose proof (includes_exec pt term_not_blank s H) as He.
  unfold matchAll. destruct s as [|c r].
  { rewrite (exec_nil _ (fun x => x) (@literalHere_sound pt)) in He.
    congruence. }
  cbn [length execAll].
  destruct (exec (literalHere pt) (c :: r)) as [[[b m] a]|]; [|congruence].
  destruct (execAll (literalHere pt) (length r) a). cbn. lia.
Qed.

Local Abbreviation countedIn := (countedIn term).

Lemma forEachParagraph_ordinary (file : FileData) (ps : list jsstring) :
  forall idx found occ dbg,
    exists D found',
      forEachParagraph file term pt ps idx (found, occ, dbg)
      = Returns (found', occ + list_sum (map countedIn D), dbg ++ D)
      /\ Forall (fun d => 1 <= countedIn d) D.
Proof.
  induction ps as [|p ps IH]; intros idx found occ dbg;
    cbn [forEachParagraph].
  - exists [], found. cbn. rewrite Nat.add_0_r, app_nil_r. auto.
  - destruct (includes (toLowerCase p) pt) eqn:Einc.
    + rewrite (countOccurrences_ordinary (toLowerCase p)
                 term_not_blank term_ordinary). cbn [bind].
      destruct (processFoundParagraph p term (fileDataName file) idx)
        as [processed debug].
      destruct (IH (S idx) (found ++ [processed])
                  (occ + length (matchAll (literalHere pt) (toLowerCase p)))
                  (dbg ++ [mkDebugInfo (fileDataName file) idx p processed
                             debug])) as (D & found' & Hr & HD).
      exists (mkDebugInfo (fileDataName file) idx p processed debug :: D),
        found'.
      rewrite Hr. cbn [map list_sum fold_right]. unfold list_sum.
      rewrite <- app_assoc. cbn [app]. split.
      * unfold MoreProps.countedIn at 2, nonOverlappingCount. cbn [originalParagraph].
        rewrite Nat.add_assoc. reflexivity.
      * constructor; [|exact HD]. unfold MoreProps.countedIn, nonOverlappingCount.
        cbn [originalParagraph]. apply includes_counted. exact Einc.
    + apply IH.
Qed.

Lemma forEachFile_ordinary (ids : list jsstring) :
  forall acc,
    exists R D,
      forEachFile allFiles term pt ids acc
      = Returns (fst acc ++ R, snd acc ++ D)
      /\ list_sum (map occurrenceCount R) = list_sum (map countedIn D)
      /\ Forall (fun r => length (foundParagraphs r) <= occurrenceCount r) R.
Proof.
  induction ids as [|fileId ids IH]; intros acc; cbn [forEachFile].
  - exists [], []. rewrite !app_nil_r. destruct acc. auto.
  - destruct (find (fun f => str_eqb (id f) fileId) allFiles) as [file|];
      [|apply IH].
    destruct (forEachParagraph_ordinary file
                (paragraphs (splitTextIntoParagraphs (content file))) 0
                [] 0 []) as (D0 & found & Hr & HD0).
    pose proof Hr as Hspec.
    apply forEachParagraph_spec in Hspec as (D0' & Hf & Hd & _ & _).
    cbn [app] in Hf, Hd. subst D0' found.
    rewrite Hr. cbn [bind app Nat.add].
    assert (Hsum : length D0 <= list_sum (map countedIn D0)).
    { clear Hr. induction HD0 as [|d D0 Hd HD0 IHD]; [cbn; lia|].
      cbn [length map list_sum fold_right]. unfold list_sum in IHD. lia. }
    destruct (0 <? length (map processedParagraph D0)) eqn:Epos.
    + destruct (IH (fst acc
                    ++ [mkSearchResult (fileDataName file)
                          (map processedParagraph D0)
                          (length (paragraphs
                                     (splitTextIntoParagraphs (content file))))
                          (list_sum (map countedIn D0))],
                    snd acc ++ D0)) as (R & D & Hrec & Hs & HR).
      exists (mkSearchResult (fileDataName file) (map processedParagraph D0)
                (length (paragraphs (splitTextIntoParagraphs (content file))))
                (list_sum (map countedIn D0)) :: R), (D0 ++ D).
      rewrite Hrec. cbn [fst snd]. rewrite <- !app_assoc.
      split; [reflexivity|]. split.
      * cbn [map list_sum fold_right occurrenceCount]. rewrite map_app.
        unfold list_sum in *. rewrite fold_right_app.
        rewrite <- Hs. clear.
        induction (map countedIn D0) as [|x l IHl]; cbn; [reflexivity|].
        rewrite <- IHl. lia.
      * constructor; [|exact HR]. cbn. rewrite length_map. exact Hsum.
    + destruct (IH acc) as (R & D & Hrec & Hs & HR).
      apply Nat.ltb_ge in Epos. rewrite length_map in Epos.
      assert (D0 = []) by (destruct D0; [reflexivity|simpl in Epos; lia]).
      subst D0. exists R, D. rewrite Hrec. auto.
Qed.

End SearchOrdinary.

Lemma fold_left_sum {A : Type} (f : A -> nat) (l : list A) :
  forall k, fold_left (fun sum x => sum + f x) l k = k + list_sum (map f l).
Proof.
  induction l as [|x l IH]; intros k; cbn [fold_left map list_sum fold_right].
  - lia.
  - rewrite IH. unfold list_sum. lia.
Qed.

Lemma length_flat_found (results : list SearchResult) :
  length (flat_map foundParagraphs results)
  = list_sum (map (fun r => length (foundParagraphs r)) results).
Proof.
  induction results as [|r results IH]; [reflexivity|].
  cbn [flat_map map list_sum fold_right]. rewrite length_app, IH.
  reflexivity.
Qed.



(** X7.  When the search returns, the trace has one record per found
    paragraph, in the order of the results: the processed paragraphs of
    the records are the found paragraphs, their number is the paragraph
    total of the statistics, and each record points at a paragraph of its
    file that contains the term and holds what [processFoundParagraph]
    made of it. *)
Theorem search_trace_follows_results (allFiles : list FileData)
    (ids : list jsstring) (term : jsstring)
    (results : list SearchResult) (debug : list DebugInfo) :
  searchInFiles allFiles ids term = Returns (results, debug) ->
  map processedParagraph debug = flat_map foundParagraphs results
  /\ length debug = totalParagraphsFound results
  /\ Forall (traceRecord allFiles term) debug.
Proof.
  intros H.
  assert (Hmap : map processedParagraph debug
                 = flat_map foundParagraphs results
                 /\ Forall (traceRecord allFiles term) debug).
  { unfold searchInFiles in H.
    destruct ((length (trim term) =? 0) || (length ids =? 0)).
    - injection H as <- <-. split; [reflexivity|constructor].
    - apply forEachFile_spec in H as (R & D & H & _ & Hmap & _ & HD).
      injection H as -> ->. auto. }
  destruct Hmap as [Hmap HD]. split; [exact Hmap|]. split; [|exact HD].
  unfold totalParagraphsFound. rewrite fold_left_sum.
  rewrite <- length_flat_found, <- Hmap, length_map. reflexivity.
Qed.

Lemma search_trace_follows_results_witness :
  exists results debug,
    searchInFiles [file (str "abc one" ++ [LF] ++ str "two" ++ [LF]
                         ++ str "ABC | x | three abc")]
      [str "1"] (str "abc") = Returns (results, debug)
    /\ map processedParagraph debug = [str "abc one"; str "ABC three abc"].
Proof.
  eexists. eexists.
  match goal with |- ?A /\ _ => assert (H : A) by reflexivity end.
  split; [exact H|].
  rewrite (proj1 (search_trace_follows_results _ _ _ _ _ H)). reflexivity.
Defined.

(** X8.  For a term without pattern syntax in it the search returns, and
    every result counts at least one occurrence per found paragraph. *)
Theorem search_returns_for_ordinary_terms (allFiles : list FileData)
    (ids : list jsstring) (term : jsstring) :
  ordinary (toLowerCase (trim term)) = true ->
  exists results debug,
    searchInFiles allFiles ids term = Returns (results, debug)
    /\ Forall (fun r => length (foundParagraphs r) <= occurrenceCount r)
         results.
Proof.
  intros Hord. unfold searchInFiles.
  destruct (length (trim term) =? 0) eqn:E; cbn [orb].
  - exists [], []. split; [reflexivity|constructor].
  - destruct (length ids =? 0).
    + exists [], []. split; [reflexivity|constructor].
    + destruct (forEachFile_ordinary allFiles term Hord
                  (trimmed_term_nonempty _ E) ids ([], []))
        as (R & D & Hr & _ & HR).
      exists R, D. split; [exact Hr|exact HR].
Qed.

Lemma search_returns_for_ordinary_terms_witness :
  ordinary (toLowerCase (trim (str " R&D "))) = true
  /\ exists results debug,
       searchInFiles [file (str "the r&d unit, R&D again")] [str "1"]
         (str " R&D ") = Returns (results, debug)
       /\ map occurrenceCount results = [2].
Proof.
  assert (H : ordinary (toLowerCase (trim (str " R&D "))) = true)
    by reflexivity.
  split; [exact H|].
  destruct (search_returns_for_ordinary_terms
              [file (str "the r&d unit, R&D again")] [str "1"] _ H)
    as (results & debug & Hr & _).
  exists results, debug. split; [exact Hr|].
  vm_compute in Hr. injection Hr as <- _. reflexivity.
Defined.

(** X9.  For a term without pattern syntax in it, the occurrence total
    of the statistics is the number of non-overlapping, case-insensitive
    occurrences of the trimmed term in the paragraphs the trace records
    as matched. *)
Theorem ordinary_term_total_occurrences (allFiles : list FileData)
    (ids : list jsstring) (term : jsstring)
    (results : list SearchResult) (debug : list DebugInfo) :
  ordinary (toLowerCase (trim term)) = true ->
  searchInFiles allFiles ids term = Returns (results, debug) ->
  totalOccurrences results
  = list_sum (map (fun d => nonOverlappingCount (originalParagraph d) term)
                debug).
Proof.
  intros Hord H. unfold totalOccurrences. rewrite fold_left_sum.
  unfold searchInFiles in H.
  destruct (length (trim term) =? 0) eqn:E; cbn [orb] in H.
  - injection H as <- <-. reflexivity.
  - destruct (length ids =? 0).
    + injection H as <- <-. reflexivity.
    + destruct (forEachFile_ordinary allFiles term Hord
                  (trimmed_term_nonempty _ E) ids ([], []))
        as (R & D & Hr & Hsum & _).
      rewrite Hr in H. injection H as <- <-. exact Hsum.
Qed.

Lemma ordinary_term_total_occurrences_witness :
  exists results debug,
    ordinary (toLowerCase (trim (str "abc"))) = true
    /\ searchInFiles [file (str "abcabc and ABC" ++ [LF] ++ str "no match"
                            ++ [LF] ++ str "xabcx")]
         [str "1"] (str "abc") = Returns (results, debug)
    /\ totalOccurrences results = 4.
Proof.
  eexists. eexists.
  assert (H1 : ordinary (toLowerCase (trim (str "abc"))) = true)
    by reflexivity.
  split; [exact H1|].
  match goal with |- ?A /\ _ => assert (H : A) by reflexivity end.
  split; [exact H|].
  rewrite (ordinary_term_total_occurrences _ _ _ _ _ H1 H). reflexivity.
Defined.

(** X10.  Searching a selection made of two parts gives the results of
    the first part followed by those of the second, and the same for the
    trace. *)
Theorem search_of_appended_selection (allFiles : list FileData)
    (ids1 ids2 : list jsstring) (term : jsstring)
    (r1 r2 : list SearchResult) (d1 d2 : list DebugInfo) :
  searchInFiles allFiles ids1 term = Returns (r1, d1) ->
  searchInFiles allFiles ids2 term = Returns (r2, d2) ->
  searchInFiles allFiles (ids1 ++ ids2) term = Returns (r1 ++ r2, d1 ++ d2).
Proof.
  unfold searchInFiles.
  destruct (length (trim term) =? 0); cbn [orb].
  - intros H1 H2. injection H1 as <- <-. injection H2 as <- <-. reflexivity.
  - destruct ids1 as [|i1 ids1].
    + cbn [length Nat.eqb app]. intros H1. injection H1 as <- <-.
      intros H2. exact H2.
    + destruct ids2 as [|i2 ids2].
      * cbn [length Nat.eqb]. intros H1 H2. injection H2 as <- <-.
        rewrite !app_nil_r. cbn [length Nat.eqb]. exact H1.
      * cbn [length Nat.eqb app]. intros H1 H2.
        change (i1 :: ids1 ++ i2 :: ids2) with ((i1 :: ids1) ++ i2 :: ids2).
        rewrite forEachFile_app, H1. cbn [bind].
        rewrite forEachFile_acc, H2. reflexivity.
Qed.

Lemma search_of_appended_selection_witness :
  exists r1 d1 r2 d2,
    searchInFiles [file (str "abc here"); mkFileData (str "2") (str "b.md")
                     (str "more ABC") 8 (str "text/markdown")]
      [str "2"] (str "abc") = Returns (r1, d1)
    /\ searchInFiles [file (str "abc here"); mkFileData (str "2") (str "b.md")
                        (str "more ABC") 8 (str "text/markdown")]
         [str "1"] (str "abc") = Returns (r2, d2)
    /\ searchInFiles [file (str "abc here"); mkFileData (str "2") (str "b.md")
                        (str "more ABC") 8 (str "text/markdown")]
         ([str "2"] ++ [str "1"]) (str "abc") = Returns (r1 ++ r2, d1 ++ d2)
    /\ map fileName (r1 ++ r2) = [str "b.md"; str "notes.md"].
Proof.
  do 4 eexists.
  match goal with |- ?A /\ ?B /\ _ =>
    assert (H1 : A) by reflexivity; assert (H2 : B) by reflexivity end.
  split; [exact H1|]. split; [exact H2|].
  split; [exact (search_of_appended_selection _ _ _ _ _ _ _ _ H1 H2)|].
  reflexivity.
Defined.

(** X11.  A selected id that no file of the list carries is skipped: the
    search gives what it gives without that id. *)
Theorem search_skips_unknown_ids (allFiles : list FileData)
    (ids1 ids2 : list jsstring) (unknown term : jsstring) :
  (forall f, In f allFiles -> id f <> unknown) ->
  searchInFiles allFiles (ids1 ++ unknown :: ids2) term
  = searchInFiles allFiles (ids1 ++ ids2) term.
Proof.
  intros Hunknown.
  assert (Hfind : find (fun f => str_eqb (id f) unknown) allFiles = None).
  { destruct (find (fun f => str_eqb (id f) unknown) allFiles) as [f|] eqn:E;
      [|reflexivity].
    apply find_some in E as [Hin Hid]. apply str_eqb_eq in Hid.
    exfalso. apply (Hunknown _ Hin Hid). }
  unfold searchInFiles.
  destruct (length (trim term) =? 0); cbn [orb]; [reflexivity|].
  assert (Hloop : forall acc,
             forEachFile allFiles term (toLowerCase (trim term))
               (ids1 ++ unknown :: ids2) acc
             = forEachFile allFiles term (toLowerCase (trim term))
                 (ids1 ++ ids2) acc).
  { intros acc. rewrite !forEachFile_app.
    destruct (forEachFile allFiles term (toLowerCase (trim term)) ids1 acc);
      cbn [bind]; try reflexivity.
    cbn [forEachFile]. rewrite Hfind. reflexivity. }
  rewrite Hloop.
  destruct (length (ids1 ++ unknown :: ids2) =? 0) eqn:E1.
  - apply Nat.eqb_eq in E1. rewrite length_app in E1. cbn in E1. lia.
  - destruct (length (ids1 ++ ids2) =? 0) eqn:E2; [|reflexivity].
    apply Nat.eqb_eq in E2. apply length_zero_iff_nil in E2.
    rewrite E2. reflexivity.
Qed.

Lemma search_skips_unknown_ids_witness :
  (forall f, In f [file (str "abc here")] -> id f <> str "gone")
  /\ searchInFiles [file (str "abc here")] ([] ++ str "gone" :: [str "1"])
       (str "abc")
     = searchInFiles [file (str "abc here")] ([] ++ [str "1"]) (str "abc").
Proof.
  assert (H : forall f, In f [file (str "abc here")] -> id f <> str "gone").
  { intros f [<-|[]]. discriminate. }
  split; [exact H|]. exact (search_skips_unknown_ids _ _ _ _ _ H).
Defined.

(** ** Further properties of the format parser and the compositor *)

Section CaseFacts.

Lemma all_chars (P : ascii -> bool) :
  forallb (fun n => P (ascii_of_nat n)) (seq 0 256) = true ->
  forall c, P c = true.
Proof.
  intros H c. rewrite forallb_forall in H.
  rewrite <- (ascii_nat_embedding c). apply H. apply in_seq.
  pose proof (nat_ascii_bounded c). lia.
Qed.

(** Lower-casing does not change what a case-insensitive pattern
    compares, and what it compares determines the lower-case form. *)
Lemma canonicalize_of_lower (c : ascii) :
  canonicalize (lowerChar c) = canonicalize c.
Proof.
  apply Nat.eqb_eq. revert c.
  apply (all_chars (fun c => canonicalize (lowerChar c) =? canonicalize c)).
  vm_compute. reflexivity.
Qed.

Lemma lower_of_canonical (c : ascii) :
  lowerChar c
  = if canonicalize c =? 376 then ascii_of_nat 255
    else if canonicalize c =? 924 then ascii_of_nat 181
    else lowerChar (ascii_of_nat (canonicalize c)).
Proof.
  apply char_eqb_eq. revert c.
  apply (all_chars
           (fun c => char_eqb (lowerChar c)
                       (if canonicalize c =? 376 then ascii_of_nat 255
                        else if canonicalize c =? 924 then ascii_of_nat 181
                        else lowerChar (ascii_of_nat (canonicalize c))))).
  vm_compute. reflexivity.
Qed.

(** Two Latin-1 characters are equal for a case-insensitive pattern
    exactly when their lower-case forms are equal. *)
Lemma canonicalize_lower (x c : ascii) :
  (canonicalize x =? canonicalize c) = char_eqb (lowerChar x) (lowerChar c).
Proof.
  destruct (Nat.eqb_spec (canonicalize x) (canonicalize c)) as [E|E].
  - symmetry. apply char_eqb_eq.
    rewrite (lower_of_canonical x), (lower_of_canonical c), E. reflexivity.
  - destruct (char_eqb (lowerChar x) (lowerChar c)) eqn:El; [|reflexivity].
    apply char_eqb_eq in El. exfalso. apply E.
    rewrite <- (canonicalize_of_lower x), <- (canonicalize_of_lower c), El.
    reflexivity.
Qed.

Lemma lowerChar_idem (c : ascii) : lowerChar (lowerChar c) = lowerChar c.
Proof.
  apply char_eqb_eq.
  apply (all_chars (fun c => char_eqb (lowerChar (lowerChar c)) (lowerChar c))).
  vm_compute. reflexivity.
Qed.

Lemma toLowerCase_idem (s : jsstring) :
  toLowerCase (toLowerCase s) = toLowerCase s.
Proof.
  unfold toLowerCase. rewrite map_map. apply map_ext. apply lowerChar_idem.
Qed.

(** A case-insensitive literal pattern matches where the lower-cased
    text starts with the lower-cased literal. *)
Lemma atomsHere_ci (t : jsstring) :
  forall s,
    atomsHere true (map Lit t) s
    = if startsWith (toLowerCase s) (toLowerCase t)
      then Some (firstn (length t) s, skipn (length t) s) else None.
Proof.
  unfold toLowerCase.
  induction t as [|x t IH]; intros s; [reflexivity|].
  cbn [map atomsHere startsWith length].
  destruct s as [|c r]; [reflexivity|].
  cbn [atomMatches map firstn skipn]. rewrite canonicalize_lower.
  destruct (char_eqb (lowerChar x) (lowerChar c)); [|reflexivity].
  cbn [andb]. rewrite IH.
  destruct (startsWith (map lowerChar r) (map lowerChar t)); reflexivity.
Qed.

Lemma includes_split (s t : jsstring) :
  includes s t = true -> exists u v, s = u ++ v /\ startsWith v t = true.
Proof.
  induction s as [|c r IH]; cbn [includes]; intros H.
  - rewrite orb_false_r in H. exists [], []. auto.
  - apply orb_true_iff in H as [H|H].
    + exists [], (c :: r). auto.
    + destruct (IH H) as (u & v & -> & Hv). exists (c :: u), v. auto.
Qed.

Lemma split_includes (u v t : jsstring) :
  startsWith v t = true -> includes (u ++ v) t = true.
Proof.
  intros H. induction u as [|c u IH]; cbn [app].
  - destruct v; cbn [includes]; rewrite H; reflexivity.
  - cbn [includes]. rewrite IH. apply orb_true_r.
Qed.

Lemma startsWith_app_l (s t rest : jsstring) :
  startsWith s t = true -> startsWith (s ++ rest) t = true.
Proof.
  revert s. induction t as [|x t IH]; intros s H; [reflexivity|].
  destruct s as [|c s]; [discriminate|]. cbn [app startsWith] in *.
  apply andb_true_iff in H as [H1 H2]. rewrite H1. cbn [andb]. auto.
Qed.

End CaseFacts.

Lemma execAll_match_here (M : Type)
    (here : jsstring -> option (M * jsstring)) (fuel : nat) :
  forall s ms tail b m,
    execAll here fuel s = (ms, tail) -> In (b, m) ms ->
    exists s' a, here s' = Some (m, a).
Proof.
  induction fuel as [|fuel IH]; intros s ms tail b m E Hbm; cbn [execAll] in E.
  - injection E as <- <-. contradiction.
  - destruct (exec here s) as [[[b' m'] a']|] eqn:Ee.
    + destruct (execAll here fuel a') as [ms' tail'] eqn:E'.
      injection E as <- <-. destruct Hbm as [Heq|Hbm].
      * injection Heq as -> ->. apply exec_here in Ee as (s' & _ & Hs').
        exists s', a'. exact Hs'.
      * apply (IH _ _ _ _ _ E' Hbm).
    + injection E as <- <-. contradiction.
Qed.

Section FormatMore.

Lemma lazyUntil_one_line (close : jsstring) :
  forall s m after,
    lazyUntil close s = Some (m, after) ->
    exists x, m = x ++ close
              /\ forallb (fun c => negb (isLineTerminator c)) x = true.
Proof.
  induction s as [|c r IH]; intros m after H; simpl in H.
  - destruct (startsWith [] close); [|discriminate].
    injection H as <- <-. exists []. auto.
  - destruct (startsWith (c :: r) close).
    + injection H as <- <-. exists []. auto.
    + destruct (isLineTerminator c) eqn:E; [discriminate|].
      destruct (lazyUntil close r) as [[m' after']|] eqn:E'; [|discriminate].
      injection H as <- <-. destruct (IH _ _ eq_refl) as (x & -> & Hx).
      exists (c :: x). split; [reflexivity|]. cbn [forallb].
      rewrite E, Hx. reflexivity.
Qed.

(** What is kept of a run lies on one line. *)
Lemma run_one_line (s m after : jsstring) (a : alternative) :
  markdownHere s = Some (a, m, after) ->
  forallb (fun c => negb (isLineTerminator c)) (innerOf (a, m)) = true.
Proof.
  intros H. apply markdownHere_delimited in H. unfold delimited in H.
  destruct (startsWith s (delimiterOf a)); [|discriminate].
  destruct (lazyUntil (delimiterOf a) (skipn (length (delimiterOf a)) s))
    as [[m' after']|] eqn:E; [|discriminate].
  injection H as <- <-. apply lazyUntil_one_line in E as (x & -> & Hx).
  unfold innerOf. cbn [fst snd]. rewrite slice_delimited. exact Hx.
Qed.

Lemma styled_wellFormed (s m after : jsstring) (a : alternative) :
  markdownHere s = Some (a, m, after) -> wellFormedSpan (styled m).
Proof.
  intros H. pose proof (run_one_line _ _ _ _ H) as Hline.
  rewrite <- (styled_inner _ H) in Hline.
  apply markdownHere_sound in H as [_ Hm]. cbn [snd] in Hm.
  unfold wellFormedSpan, styleOf. revert Hline. unfold styled.
  repeat match goal with
         | |- context [if ?b then _ else _] => destruct b
         end; cbn; intros Hline;
    (split; [reflexivity|]); (split; [congruence|]); intros Hs;
    try (split; [exact Hline|]); auto 6; congruence.
Qed.

Lemma plainIfAny_wellFormed (t : jsstring) :
  Forall wellFormedSpan (plainIfAny t).
Proof.
  destruct t as [|c t]; constructor; [|constructor].
  unfold wellFormedSpan, styleOf. cbn.
  split; [reflexivity|]. split; [discriminate|congruence].
Qed.

Lemma loop_wellFormed (fuel : nat) :
  forall s, Forall wellFormedSpan (splitByMarkdownLoop fuel s).
Proof.
  induction fuel as [|fuel IH]; intros s; cbn [splitByMarkdownLoop].
  - apply plainIfAny_wellFormed.
  - destruct (exec markdownHere s) as [[[b [a m]] after]|] eqn:E;
      [|apply plainIfAny_wellFormed].
    apply exec_here in E as (s' & _ & E).
    apply Forall_app. split; [apply plainIfAny_wellFormed|].
    constructor; [apply (styled_wellFormed _ _ _ _ E)|apply IH].
Qed.

(** Where the pattern finds nothing at any position, the term is not
    there. *)
Lemma no_match_no_term (t b rest : jsstring) :
  t <> [] -> toLowerCase t = t ->
  (forall u v, b = u ++ v -> v <> [] ->
               atomsHere true (map Lit t) (v ++ rest) = None) ->
  includes (toLowerCase b) t = false.
Proof.
  intros Ht Hlow Hnone.
  destruct (includes (toLowerCase b) t) eqn:E; [|reflexivity].
  apply includes_split in E as (u' & v' & Huv & Hstart).
  unfold toLowerCase in Huv. apply map_eq_app in Huv as (u & v & -> & <- & <-).
  assert (Hv : v <> []).
  { intros ->. destruct t; [congruence|discriminate Hstart]. }
  specialize (Hnone u v eq_refl Hv). rewrite atomsHere_ci, Hlow in Hnone.
  unfold toLowerCase in Hnone. rewrite map_app in Hnone.
  rewrite (startsWith_app_l _ _ _ Hstart) in Hnone. discriminate Hnone.
Qed.

Lemma capture_is_term (t s m after : jsstring) :
  toLowerCase t = t ->
  atomsHere true (map Lit t) s = Some (m, after) ->
  toLowerCase m = t /\ length m = length t.
Proof.
  intros Hlow H. rewrite atomsHere_ci, Hlow in H.
  destruct (startsWith (toLowerCase s) t) eqn:E; [|discriminate].
  injection H as <- <-. apply startsWith_split in E.
  unfold toLowerCase in *. rewrite <- firstn_map, E, firstn_exact.
  split; [reflexivity|].
  rewrite <- (length_map lowerChar), <- firstn_map, E, firstn_exact.
  reflexivity.
Qed.

(** Every piece of the capturing split either reads as the term or does
    not contain it. *)
Lemma parts_classified (c : ascii) (t s p : jsstring) :
  toLowerCase (c :: t) = c :: t ->
  In p (splitWith (atomsHere true (map Lit (c :: t))) true s) ->
  includes (toLowerCase p) (c :: t) = false \/ toLowerCase p = c :: t.
Proof.
  intros Hlow. unfold splitWith.
  destruct (execAll (atomsHere true (map Lit (c :: t))) (length s) s)
    as [ms tail] eqn:E.
  intros Hin. apply in_app_or in Hin as [Hin|[<-|[]]].
  - apply in_flat_map in Hin as ([b m] & Hbm & Hin).
    destruct (execAll_pieces _ _ (fun x => x) (@literal_here_sound c t)
                _ _ _ _ E) as [Hms _].
    destruct (Hms _ _ Hbm) as (_ & (u & v & Hm) & rest & Hrest).
    cbn [fst snd] in Hin. destruct Hin as [<-|[<-|[]]].
    + left. apply (no_match_no_term (c :: t) b rest); [discriminate|exact Hlow|].
      exact Hrest.
    + right.
      destruct (execAll_match_here _ _ _ _ _ _ _ _ E Hbm) as (s' & a & Hs').
      apply (capture_is_term _ _ _ _ Hlow Hs').
  - left.
    pose proof (execAll_tail_none _ _ (fun x => x) (@literal_here_sound c t)
                  _ _ _ _ (le_n _) E) as Htail.
    apply (no_match_no_term (c :: t) tail []); [discriminate|exact Hlow|].
    intros u v Huv _. rewrite app_nil_r.
    apply (exec_none_here _ _ _ Htail u v Huv).
Qed.

Lemma includes_refl (t : jsstring) : includes t t = true.
Proof.
  destruct t; cbn [includes].
  - reflexivity.
  - replace (a :: t) with ((a :: t) ++ []) at 1 by apply app_nil_r.
    rewrite startsWith_app. reflexivity.
Qed.

(** The split of a text that reads as the term is the text itself,
    captured. *)
Lemma split_of_term (c : ascii) (t p : jsstring) :
  toLowerCase (c :: t) = c :: t -> toLowerCase p = c :: t ->
  splitWith (atomsHere true (map Lit (c :: t))) true p = [[]; p; []].
Proof.
  intros Hlow Hp.
  assert (Hlen : length p = length (c :: t)).
  { rewrite <- Hp. unfold toLowerCase. rewrite length_map. reflexivity. }
  assert (Hhere : atomsHere true (map Lit (c :: t)) p = Some (p, [])).
  { rewrite atomsHere_ci, Hlow, Hp.
    replace (c :: t) with ((c :: t) ++ []) at 1 by apply app_nil_r.
    rewrite startsWith_app, <- Hlen, firstn_all, skipn_all. reflexivity. }
  unfold splitWith. destruct p as [|x p]; [discriminate|].
  cbn [length execAll exec]. rewrite Hhere.
  assert (Hnil : forall fuel, execAll (atomsHere true (map Lit (c :: t)))
                                fuel [] = ([], [])).
  { intros [|fuel]; reflexivity. }
  rewrite Hnil. reflexivity.
Qed.

End FormatMore.

(** X12.  Every span of the format parser is well formed: it is not
    highlighted; a span without style is not empty; a span with a style
    has exactly one of the four and its text lies on one line. *)
Theorem splitByMarkdown_spans_well_formed (t : jsstring)
    (s : ParsedMarkdownSegment) :
  In s (splitByMarkdown t) -> wellFormedSpan s.
Proof.
  intros H. pose proof (loop_wellFormed (length t) t) as Hall.
  rewrite Forall_forall in Hall. apply Hall. exact H.
Qed.

Lemma splitByMarkdown_spans_well_formed_witness :
  In (mkSegment (str "b c") false true false false false)
     (splitByMarkdown (str "a *b c*" ++ [LF] ++ str "*d" ++ [LF] ++ str "e*"))
  /\ wellFormedSpan (mkSegment (str "b c") false true false false false).
Proof.
  assert (H : In (mkSegment (str "b c") false true false false false)
                (splitByMarkdown (str "a *b c*" ++ [LF] ++ str "*d" ++ [LF]
                                  ++ str "e*")))
    by (right; left; reflexivity).
  split; [exact H|]. exact (splitByMarkdown_spans_well_formed _ _ H).
Defined.

Lemma highlightParts_origin (t : jsstring) (s o : ParsedMarkdownSegment) :
  In o (highlightParts t s) ->
  o = s
  \/ exists p, p <> []
               /\ In p (splitWith (atomsHere true (map Lit t)) true (text s))
               /\ includes (toLowerCase (text s)) t = true
               /\ o = withText s p (str_eqb (toLowerCase p) t).
Proof.
  unfold highlightParts.
  destruct (includes (toLowerCase (text s)) t).
  - intros H. apply in_flat_map in H as (p & Hp & H).
    destruct p as [|x p]; [contradiction|]. destruct H as [<-|[]].
    right. exists (x :: p). split; [discriminate|]. auto.
  - intros [<-|[]]. left. reflexivity.
Qed.

(** X13.  Highlighting keeps the style: every span of the result has the
    four style flags of the input span it is a piece of, and only an
    input span passed on unchanged can be empty. *)
Theorem highlight_keeps_style (segments out : list ParsedMarkdownSegment)
    (searchTerm : jsstring) (o : ParsedMarkdownSegment) :
  applyHighlightToSegments segments searchTerm = Returns out ->
  In o out ->
  exists s,
    In s segments
    /\ styleOf o = styleOf s
    /\ (exists u v, text s = u ++ text o ++ v)
    /\ (o = s \/ text o <> []).
Proof.
  rewrite applyHighlight_returns. intros H Ho. injection H as <-.
  assert (Hself : forall s, exists u v, text s = u ++ text s ++ v).
  { intros s. exists [], []. rewrite app_nil_r. reflexivity. }
  destruct (length (trim searchTerm) =? 0) eqn:E.
  - exists o. split; [exact Ho|]. split; [reflexivity|]. split; [apply Hself|].
    left. reflexivity.
  - apply in_flat_map in Ho as (s & Hs & Ho). exists s. split; [exact Hs|].
    pose proof (trimmed_term_nonempty _ E) as Ht.
    destruct (toLowerCase (trim searchTerm)) as [|c t]; [congruence|].
    apply highlightParts_origin in Ho as [->|(p & Hp & Hin & _ & ->)].
    + split; [reflexivity|]. split; [apply Hself|]. left. reflexivity.
    + split; [reflexivity|]. cbn [text withText]. split; [|right; exact Hp].
      apply in_split in Hin as (l1 & l2 & Hsplit).
      exists (concat l1), (concat l2).
      rewrite <- (split_capture_concat c t (text s)) at 1.
      rewrite Hsplit, concat_app. reflexivity.
Qed.

Lemma highlight_keeps_style_witness :
  exists out,
    applyHighlightToSegments
      [mkSegment (str "an ABC here") true false false false false] (str "abc")
    = Returns out
    /\ In (mkSegment (str "ABC") true false false false true) out
    /\ styleOf (mkSegment (str "ABC") true false false false true)
       = (true, false, false, false).
Proof.
  eexists.
  match goal with |- ?A /\ _ => assert (H : A) by reflexivity end.
  split; [exact H|].
  split; [right; left; reflexivity|].
  destruct (highlight_keeps_style _ _ _
              (mkSegment (str "ABC") true false false false true) H)
    as (s & Hs & Hstyle & _); [right; left; reflexivity|].
  destruct Hs as [<-|[]]. exact Hstyle.
Defined.

(** X14.  On strings of code units below U+0100, which are the strings
    of this development, no span left unmarked by the highlighting
    contains the term: the lower-cased text of an unmarked span of the
    result does not include the lower-cased trimmed term.  (Nothing is
    said of overlapping occurrences: of two that overlap only the first
    is marked, and what is left of the second is not the term.) *)
Theorem highlight_leaves_no_occurrence
    (segments out : list ParsedMarkdownSegment) (searchTerm : jsstring)
    (o : ParsedMarkdownSegment) :
  trim searchTerm <> [] ->
  applyHighlightToSegments segments searchTerm = Returns out ->
  In o out -> isHighlighted o = false ->
  includes (toLowerCase (text o)) (toLowerCase (trim searchTerm)) = false.
Proof.
  intros Hterm. rewrite applyHighlight_returns. intros H Ho Hflag.
  injection H as <-.
  destruct (length (trim searchTerm) =? 0) eqn:E.
  { apply Nat.eqb_eq in E. destruct (trim searchTerm);
      [congruence|discriminate]. }
  apply in_flat_map in Ho as (s & Hs & Ho).
  pose proof (toLowerCase_idem (trim searchTerm)) as Hlow.
  pose proof (trimmed_term_nonempty _ E) as Ht.
  destruct (toLowerCase (trim searchTerm)) as [|c t] eqn:Et; [congruence|].
  unfold highlightParts in Ho.
  destruct (includes (toLowerCase (text s)) (c :: t)) eqn:Einc.
  - apply in_flat_map in Ho as (p & Hin & Ho).
    destruct p as [|x p]; [contradiction|]. destruct Ho as [<-|[]].
    cbn [isHighlighted text withText] in *.
    destruct (parts_classified c t _ _ Hlow Hin) as [Hno|Hyes]; [exact Hno|].
    apply str_eqb_eq in Hyes. congruence.
  - destruct Ho as [<-|[]]. exact Einc.
Qed.

Lemma highlight_leaves_no_occurrence_witness :
  exists out,
    trim (str "ab") <> []
    /\ applyHighlightToSegments [plain (str "xABabAbay")] (str "ab")
       = Returns out
    /\ In (plain (str "ay")) out
    /\ includes (toLowerCase (str "ay")) (toLowerCase (trim (str "ab")))
       = false.
Proof.
  eexists.
  assert (H0 : trim (str "ab") <> []) by discriminate.
  split; [exact H0|].
  match goal with |- ?A /\ _ => assert (H : A) by reflexivity end.
  split; [exact H|].
  assert (Hin : In (plain (str "ay"))
                  [plain (str "x");
                   mkSegment (str "AB") false false false false true;
                   mkSegment (str "ab") false false false false true;
                   mkSegment (str "Ab") false false false false true;
                   plain (str "ay")])
    by (do 4 right; left; reflexivity).
  split; [exact Hin|].
  exact (highlight_leaves_no_occurrence _ _ _ _ H0 H Hin eq_refl).
Defined.

Lemma flat_map_fixed {A : Type} (f : A -> list A) (l : list A) :
  (forall x, In x l -> f x = [x]) -> flat_map f l = l.
Proof.
  induction l as [|x l IH]; intros H; [reflexivity|]. cbn [flat_map].
  rewrite (H x (or_introl eq_refl)), IH; [reflexivity|].
  intros y Hy. apply H. right. exact Hy.
Qed.

(** X15.  Highlighting is idempotent: applied to its own result with the
    same term it returns that result unchanged. *)
Theorem highlight_twice_is_highlight_once
    (segments : list ParsedMarkdownSegment) (searchTerm : jsstring) :
  exists out,
    applyHighlightToSegments segments searchTerm = Returns out
    /\ applyHighlightToSegments out searchTerm = Returns out.
Proof.
  rewrite applyHighlight_returns. eexists. split; [reflexivity|].
  rewrite applyHighlight_returns.
  destruct (length (trim searchTerm) =? 0) eqn:E; [reflexivity|].
  f_equal. apply flat_map_fixed. intros o Ho.
  apply in_flat_map in Ho as (s & _ & Ho).
  pose proof (toLowerCase_idem (trim searchTerm)) as Hlow.
  pose proof (trimmed_term_nonempty _ E) as Ht.
  destruct (toLowerCase (trim searchTerm)) as [|c t] eqn:Et; [congruence|].
  assert (Hkeep : forall q, includes (toLowerCase (text q)) (c :: t) = false ->
                            highlightParts (c :: t) q = [q]).
  { intros q Hq. unfold highlightParts. rewrite Hq. reflexivity. }
  pose proof Ho as Ho'. unfold highlightParts in Ho'.
  destruct (includes (toLowerCase (text s)) (c :: t)) eqn:Einc.
  - apply in_flat_map in Ho' as (p & Hin & Ho').
    destruct p as [|x p]; [contradiction|]. destruct Ho' as [<-|[]].
    destruct (parts_classified c t _ _ Hlow Hin) as [Hno|Hyes].
    + apply Hkeep. exact Hno.
    + unfold highlightParts. cbn [text withText]. rewrite Hyes.
      rewrite includes_refl, (split_of_term c t _ Hlow Hyes).
      cbn [flat_map partSpans app]. rewrite Hyes.
      replace (str_eqb (c :: t) (c :: t)) with true
        by (symmetry; apply str_eqb_eq; reflexivity).
      reflexivity.
  - destruct Ho' as [<-|[]]. apply Hkeep. exact Einc.
Qed.

(** ** Further properties of the export renderer *)

Lemma forEachResult_blocks (searchTerm : jsstring)
    (results : list SearchResult) :
  forall k ch,
    forEachResult searchTerm results (k, ch)
    = Returns (k + length (flat_map foundParagraphs results),
               ch ++ blocksFrom searchTerm k results).
Proof.
  induction results as [|r results IH]; intros k ch;
    cbn [forEachResult blocksFrom flat_map].
  - rewrite Nat.add_0_r, app_nil_r. reflexivity.
  - cbn [fst snd]. rewrite forEachFound_returns. cbn [bind].
    rewrite IH, length_app, Nat.add_assoc, <- !app_assoc. reflexivity.
Qed.

Lemma blocksFrom_length (searchTerm : jsstring) (results : list SearchResult) :
  forall k,
    length (blocksFrom searchTerm k results)
    = 2 * length results + length (flat_map foundParagraphs results).
Proof.
  induction results as [|r results IH]; intros k; [reflexivity|].
  cbn [blocksFrom flat_map]. rewrite !length_app, length_map.
  rewrite entriesFrom_length, IH. cbn [fileHeader length]. lia.
Qed.

(** X16.  Export returns for every result list and term.  The document
    is the two title lines, then for each result in order its two header
    lines followed by its numbered entries, then the closing rule: three
    paragraphs, two per result and one per found paragraph. *)
Theorem export_document_layout (localeDate isoNow : jsstring)
    (results : list SearchResult) (searchTerm : jsstring) :
  exportToDocx localeDate isoNow results searchTerm
  = Returns (titleParagraphs searchTerm localeDate
             ++ blocksFrom searchTerm 0 results ++ [closingRule],
             exportFileName searchTerm isoNow)
  /\ length (titleParagraphs searchTerm localeDate
             ++ blocksFrom searchTerm 0 results ++ [closingRule])
     = 3 + 2 * length results + totalParagraphsFound results.
Proof.
  split.
  - unfold exportToDocx. rewrite forEachResult_blocks. cbn [bind snd].
    rewrite <- app_assoc. reflexivity.
  - rewrite !length_app, blocksFrom_length. unfold totalParagraphsFound.
    rewrite fold_left_sum, <- length_flat_found. cbn [length titleParagraphs].
    lia.
Qed.

(** ** Properties of the loader service and of the file list *)

Section LoaderFacts.

Lemma exec_line (a b : jsstring) :
  ~ In LF a ->
  exec (literalHere [LF]) (a ++ LF :: b) = Some (a, [LF], b).
Proof.
  induction a as [|c a IH]; intros Ha.
  - cbn [app exec literalHere startsWith]. rewrite char_eqb_refl. reflexivity.
  - cbn [app exec literalHere startsWith].
    destruct (char_eqb LF c) eqn:E.
    + apply char_eqb_eq in E. subst c. exfalso. apply Ha. left. reflexivity.
    + cbn [andb]. rewrite IH; [reflexivity|].
      intros Hin. apply Ha. right. exact Hin.
Qed.

Lemma exec_no_line (a : jsstring) :
  ~ In LF a -> exec (literalHere [LF]) a = None.
Proof.
  induction a as [|c a IH]; intros Ha; [reflexivity|].
  cbn [exec literalHere startsWith].
  destruct (char_eqb LF c) eqn:E.
  - apply char_eqb_eq in E. subst c. exfalso. apply Ha. left. reflexivity.
  - cbn [andb]. rewrite IH; [reflexivity|].
    intros Hin. apply Ha. right. exact Hin.
Qed.

(** Splitting into lines, one line at a time. *)
Lemma split_first_line (a b : jsstring) :
  ~ In LF a -> split (a ++ LF :: b) [LF] = a :: split b [LF].
Proof.
  intros Ha. unfold split, splitWith.
  rewrite length_app. cbn [length]. rewrite Nat.add_succ_r.
  cbn [execAll]. rewrite (exec_line _ _ Ha).
  rewrite (@execAll_fuel _ (literalHere [LF]) (fun x => x)
             (@literalHere_sound [LF]) (length a + length b) (length b) b)
    by lia.
  destruct (execAll (literalHere [LF]) (length b) b) as [ms tail].
  reflexivity.
Qed.

Lemma split_one_line (a : jsstring) : ~ In LF a -> split a [LF] = [a].
Proof.
  intros Ha. unfold split, splitWith. destruct a as [|c a]; [reflexivity|].
  cbn [length execAll]. rewrite (exec_no_line _ Ha). reflexivity.
Qed.

(** Joining lines and splitting them again gives the lines back. *)
Lemma split_join_lines (lines : list jsstring) :
  Forall (fun l => ~ In LF l) lines -> lines <> [] ->
  split (join [LF] lines) [LF] = lines.
Proof.
  induction lines as [|l lines IH]; intros Hall Hne; [congruence|].
  inversion Hall as [|? ? Hl Hrest]; subst.
  destruct lines as [|l' lines].
  - cbn [join]. apply (split_one_line _ Hl).
  - change (join [LF] (l :: l' :: lines))
      with (l ++ LF :: join [LF] (l' :: lines)).
    rewrite (split_first_line _ _ Hl), IH; [reflexivity|exact Hrest|discriminate].
Qed.

Lemma not_in_LF (a : jsstring) :
  forallb (fun c => negb (char_eqb LF c)) a = true -> ~ In LF a.
Proof.
  intros H Hin. rewrite forallb_forall in H. specialize (H _ Hin).
  rewrite char_eqb_refl in H. discriminate H.
Qed.

Lemma endsWith_nonempty (s suffix : jsstring) :
  suffix <> [] -> endsWith s suffix = true -> s <> [].
Proof.
  intros Hs H ->. unfold endsWith in H. cbn [rev] in H.
  destruct (rev suffix) eqn:E; [|discriminate H].
  apply (f_equal (@rev ascii)) in E. rewrite rev_involutive in E.
  cbn in E. congruence.
Qed.

Lemma indexable_kept (names : list jsstring) :
  Forall indexable names ->
  filter (fun filename => endsWith filename (str ".md")
                          || endsWith filename (str ".txt"))
    (filter (fun line => (0 <? length line) && negb (startsWith line (str "#")))
       (map trim names)) = names.
Proof.
  induction 1 as [|n names (Htrim & _ & Hhash & Hext) _ IH]; [reflexivity|].
  cbn [map filter]. rewrite Htrim, Hhash.
  assert (Hne : n <> []).
  { destruct Hext as [H|H];
      [apply (endsWith_nonempty n (str ".md"))
      |apply (endsWith_nonempty n (str ".txt"))];
      (discriminate || exact H). }
  replace (0 <? length n) with true
    by (symmetry; apply Nat.ltb_lt; destruct n; [congruence|cbn; lia]).
  cbn [andb negb filter].
  replace (endsWith n (str ".md") || endsWith n (str ".txt")) with true
    by (symmetry; apply orb_true_iff; exact Hext).
  rewrite IH. reflexivity.
Qed.

End LoaderFacts.

(** X17.  The index file written for a list of file names reads back as
    that list: the comment header and the blank line are ignored, every
    name that is trimmed, on one line, not a comment and ends in ".md" or
    ".txt" is kept, in order. *)
Theorem index_file_round_trip (filenames : list jsstring) :
  Forall indexable filenames ->
  loadFromIndexFile (Some (generateIndexFileContent filenames)) = filenames.
Proof.
  intros Hall. unfold loadFromIndexFile, generateIndexFileContent, indexHeader.
  replace ((headerLine1 ++ [LF] ++ headerLine2 ++ [LF] ++ headerLine3 ++ [LF]
            ++ headerLine4 ++ [LF] ++ [LF]) ++ join [LF] filenames)
    with (headerLine1 ++ LF :: headerLine2 ++ LF :: headerLine3 ++ LF
          :: headerLine4 ++ LF :: [] ++ LF :: join [LF] filenames)
    by (rewrite <- !app_assoc; reflexivity).
  rewrite (split_first_line headerLine1)
    by (apply not_in_LF; vm_compute; reflexivity).
  rewrite (split_first_line headerLine2)
    by (apply not_in_LF; vm_compute; reflexivity).
  rewrite (split_first_line headerLine3)
    by (apply not_in_LF; vm_compute; reflexivity).
  rewrite (split_first_line headerLine4)
    by (apply not_in_LF; vm_compute; reflexivity).
  rewrite (split_first_line []) by (intros []).
  assert (Hheader :
    forall rest,
      filter (fun line => (0 <? length line) && negb (startsWith line (str "#")))
        (map trim (headerLine1 :: headerLine2 :: headerLine3 :: headerLine4
                   :: [] :: rest))
      = filter (fun line => (0 <? length line)
                            && negb (startsWith line (str "#")))
          (map trim rest)).
  { intros rest. reflexivity. }
  rewrite Hheader.
  destruct filenames as [|n names].
  - vm_compute. reflexivity.
  - rewrite split_join_lines; [|
      eapply Forall_impl; [|exact Hall]; intros a (_ & H & _); exact H
      |discriminate].
    apply (indexable_kept _ Hall).
Qed.

Lemma index_file_round_trip_witness :
  Forall indexable [str "LO.md"; str "notes v2.txt"]
  /\ loadFromIndexFile
       (Some (generateIndexFileContent [str "LO.md"; str "notes v2.txt"]))
     = [str "LO.md"; str "notes v2.txt"].
Proof.
  assert (H : Forall indexable [str "LO.md"; str "notes v2.txt"]).
  { constructor; [|constructor; [|constructor]].
    - split; [reflexivity|]. split; [apply not_in_LF; reflexivity|].
      split; [reflexivity|left; reflexivity].
    - split; [reflexivity|]. split; [apply not_in_LF; reflexivity|].
      split; [reflexivity|right; reflexivity]. }
  split; [exact H|]. exact (index_file_round_trip _ H).
Defined.

Section ListState.

Lemma filter_filter_same {A : Type} (p : A -> bool) (l : list A) :
  filter p (filter p l) = filter p l.
Proof.
  induction l as [|x l IH]; [reflexivity|]. cbn [filter].
  destruct (p x) eqn:E; [cbn [filter]; rewrite E, IH|]; auto.
Qed.

Lemma filter_none {A : Type} (p : A -> bool) (l : list A) :
  Forall (fun x => p x = false) l -> filter p l = [].
Proof.
  induction 1 as [|x l Hx _ IH]; [reflexivity|]. cbn [filter].
  rewrite Hx. exact IH.
Qed.

Lemma filter_of_kept {A : Type} (keep p : A -> bool) (l : list A) :
  (forall x, p x = false -> keep x = false) ->
  filter keep (filter p l) = filter keep l.
Proof.
  intros H. induction l as [|x l IH]; [reflexivity|]. cbn [filter].
  destruct (p x) eqn:E.
  - cbn [filter]. rewrite IH. reflexivity.
  - rewrite (H x E). exact IH.
Qed.

Lemma str_neqb (a b : jsstring) : negb (str_eqb a b) = true <-> a <> b.
Proof.
  rewrite negb_true_iff. split.
  - intros H E. apply str_eqb_eq in E. congruence.
  - intros H. destruct (str_eqb a b) eqn:E; [|reflexivity].
    apply str_eqb_eq in E. contradiction.
Qed.

Lemma loadFiles_data (fetchFile : jsstring -> option jsstring)
    (names : list jsstring) :
  Forall (fun f => id f = dataPrefix ++ fileDataName f
                   /\ In (fileDataName f) names
                   /\ fetchFile (fileDataName f) = Some (content f))
    (loadFiles fetchFile names).
Proof.
  induction names as [|n names IH]; [constructor|].
  unfold loadFiles in *. cbn [flat_map]. apply Forall_app. split.
  - unfold loadDataFile. destruct (fetchFile n) eqn:E; [|constructor].
    constructor; [|constructor]. cbn [id fileDataName content].
    split; [reflexivity|]. split; [left; reflexivity|exact E].
  - eapply Forall_impl; [|exact IH]. intros f (H1 & H2 & H3).
    split; [exact H1|]. split; [right; exact H2|exact H3].
Qed.

End ListState.

(** X18.  A file brought in by the loader has the id "data-" followed by
    its name and the body that was fetched; a file that could not be
    fetched is left out; and removing the id of a loaded file changes
    nothing, whatever the state. *)
Theorem data_files_are_never_removed
    (fetchFile : jsstring -> option jsstring) (names : list jsstring)
    (f : FileData) (st : ModuleState) :
  In f (loadFiles fetchFile names) ->
  id f = str "data-" ++ fileDataName f
  /\ In (fileDataName f) names
  /\ fetchFile (fileDataName f) = Some (content f)
  /\ isDataFile (id f) = true
  /\ handleRemoveFile (id f) st = st.
Proof.
  intros Hin. pose proof (loadFiles_data fetchFile names) as Hall.
  rewrite Forall_forall in Hall. destruct (Hall _ Hin) as (H1 & H2 & H3).
  split; [exact H1|]. split; [exact H2|]. split; [exact H3|].
  assert (Hdata : startsWith (id f) (str "data-") = true).
  { rewrite H1. apply startsWith_app. }
  split; [exact Hdata|]. unfold handleRemoveFile. rewrite Hdata. reflexivity.
Qed.

Lemma data_files_are_never_removed_witness :
  exists f,
    In f (loadFiles (fun n => if str_eqb n (str "LO.md")
                              then Some (str "body") else None)
            [str "DAC.md"; str "LO.md"])
    /\ id f = str "data-LO.md"
    /\ handleRemoveFile (id f) (mkState [f] [id f]) = mkState [f] [id f].
Proof.
  eexists.
  match goal with |- ?A /\ _ => assert (H : A) by (left; reflexivity) end.
  split; [exact H|]. split; [reflexivity|].
  exact (proj2 (proj2 (proj2 (proj2
           (data_files_are_never_removed _ _ _ _ H))))).
Defined.

(** X19.  Removing a file that is not a data file takes every file
    carrying that id out of the list and the id out of the selection, and
    touches nothing else: whatever is kept of the other files, or of the
    other selected ids, is the same list as before, with the same order
    and the same repetitions.  A selection that named only files of the
    list still does, and removing the same id again changes nothing. *)
Theorem removing_an_uploaded_file (fileId : jsstring) (st : ModuleState) :
  isDataFile fileId = false ->
  Forall (fun f => id f <> fileId)
    (Lexical.files (handleRemoveFile fileId st))
  /\ ~ In fileId (selectedFileIds (handleRemoveFile fileId st))
  /\ (forall keep : FileData -> bool,
        (forall f, id f = fileId -> keep f = false) ->
        filter keep (Lexical.files (handleRemoveFile fileId st))
        = filter keep (Lexical.files st))
  /\ (forall keep : jsstring -> bool,
        keep fileId = false ->
        filter keep (selectedFileIds (handleRemoveFile fileId st))
        = filter keep (selectedFileIds st))
  /\ (selectionKnown st -> selectionKnown (handleRemoveFile fileId st))
  /\ handleRemoveFile fileId (handleRemoveFile fileId st)
     = handleRemoveFile fileId st.
Proof.
  intros Hdata. unfold handleRemoveFile, isDataFile, dataPrefix in *.
  rewrite Hdata. cbn [Lexical.files selectedFileIds].
  split.
  { apply Forall_forall. intros f Hf. apply filter_In in Hf as [_ Hf].
    apply str_neqb. exact Hf. }
  split.
  { intros Hin. apply filter_In in Hin as [_ Hin].
    apply str_neqb in Hin. congruence. }
  split.
  { intros keep Hkeep. apply filter_of_kept. intros f Hf. apply Hkeep.
    apply negb_false_iff in Hf. apply str_eqb_eq. exact Hf. }
  split.
  { intros keep Hkeep. apply filter_of_kept. intros i Hi.
    apply negb_false_iff in Hi. apply str_eqb_eq in Hi. congruence. }
  split.
  { intros Hknown i Hi. cbn [Lexical.files selectedFileIds] in *.
    apply filter_In in Hi as [Hi Hne]. apply str_neqb in Hne.
    destruct (Hknown i Hi) as (f & Hf & Hid).
    exists f. split; [|exact Hid]. apply filter_In. split; [exact Hf|].
    apply str_neqb. congruence. }
  rewrite !filter_filter_same. reflexivity.
Qed.

Lemma removing_an_uploaded_file_witness :
  isDataFile (str "u-1") = false
  /\ handleRemoveFile (str "u-1")
       (mkState [file (str "a"); mkFileData (str "u-1") (str "up.txt")
                                   (str "b") 1 (str "text/plain");
                 file (str "c")]
          [str "u-1"; str "1"])
     = mkState [file (str "a"); file (str "c")] [str "1"]
  /\ filter (fun f => str_eqb (id f) (str "1"))
       (Lexical.files
          (handleRemoveFile (str "u-1")
             (mkState [file (str "a"); mkFileData (str "u-1") (str "up.txt")
                                         (str "b") 1 (str "text/plain");
                       file (str "c")]
                [str "u-1"; str "1"])))
     = [file (str "a"); file (str "c")].
Proof.
  assert (H : isDataFile (str "u-1") = false) by reflexivity.
  split; [exact H|]. split; [reflexivity|].
  rewrite (proj1 (proj2 (proj2 (removing_an_uploaded_file _ _ H)))).
  - reflexivity.
  - intros f Hf. rewrite Hf. reflexivity.
Defined.

(** X20.  Loading the data files keeps the uploaded files, puts the data
    files first and selects only files of the list; loading the same
    data files again changes nothing. *)
Theorem reloading_data_files (dataFiles : list FileData) (st : ModuleState) :
  Forall (fun f => isDataFile (id f) = true) dataFiles ->
  filter (fun f => negb (isDataFile (id f)))
    (Lexical.files (loadDataFiles dataFiles st))
  = filter (fun f => negb (isDataFile (id f))) (Lexical.files st)
  /\ filter (fun f => isDataFile (id f))
       (Lexical.files (loadDataFiles dataFiles st)) = dataFiles
  /\ selectionKnown (loadDataFiles dataFiles st)
  /\ loadDataFiles dataFiles (loadDataFiles dataFiles st)
     = loadDataFiles dataFiles st.
Proof.
  intros Hdata. unfold loadDataFiles, isDataFile, dataPrefix in *.
  cbn [Lexical.files selectedFileIds].
  assert (Hnone : filter (fun f => negb (startsWith (id f) (str "data-")))
                    dataFiles = []).
  { apply filter_none. eapply Forall_impl; [|exact Hdata].
    intros f H. cbn beta in H. rewrite H. reflexivity. }
  assert (Hall : filter (fun f => startsWith (id f) (str "data-")) dataFiles
                 = dataFiles).
  { clear Hnone. induction Hdata as [|f l Hf _ IH]; [reflexivity|].
    cbn [filter]. rewrite Hf, IH. reflexivity. }
  assert (Hup : filter (fun f => startsWith (id f) (str "data-"))
                  (filter (fun f => negb (startsWith (id f) (str "data-")))
                     (Lexical.files st)) = []).
  { apply filter_none. apply Forall_forall. intros f Hf.
    apply filter_In in Hf as [_ Hf]. apply negb_true_iff in Hf. exact Hf. }
  split; [rewrite filter_app, Hnone, filter_filter_same; reflexivity|].
  split; [rewrite filter_app, Hall, Hup; apply app_nil_r|].
  split.
  - intros i Hi. cbn [Lexical.files selectedFileIds] in *.
    destruct (find (fun f => str_eqb (fileDataName f) (str "LO.md")) dataFiles)
      as [lo|] eqn:E.
    + destruct Hi as [<-|[]]. apply find_some in E as [Hin _].
      exists lo. split; [apply in_or_app; left; exact Hin|reflexivity].
    + apply in_map_iff in Hi as (f & <- & Hf).
      exists f. split; [apply in_or_app; left; exact Hf|reflexivity].
  - rewrite filter_app, Hnone, filter_filter_same. reflexivity.
Qed.

Lemma reloading_data_files_witness :
  Forall (fun f => isDataFile (id f) = true)
    [mkFileData (str "data-LO.md") (str "LO.md") (str "x") 1 (str "text/markdown")]
  /\ Lexical.files
       (loadDataFiles
          [mkFileData (str "data-LO.md") (str "LO.md") (str "x") 1
             (str "text/markdown")]
          (mkState [mkFileData (str "data-OLD.md") (str "OLD.md") (str "o") 1
                      (str "text/markdown");
                    mkFileData (str "u-1") (str "up.txt") (str "b") 1
                      (str "text/plain")] []))
     = [mkFileData (str "data-LO.md") (str "LO.md") (str "x") 1
          (str "text/markdown");
        mkFileData (str "u-1") (str "up.txt") (str "b") 1 (str "text/plain")]
  /\ selectionKnown
       (loadDataFiles
          [mkFileData (str "data-LO.md") (str "LO.md") (str "x") 1
             (str "text/markdown")]
          (mkState [mkFileData (str "data-OLD.md") (str "OLD.md") (str "o") 1
                      (str "text/markdown");
                    mkFileData (str "u-1") (str "up.txt") (str "b") 1
                      (str "text/plain")] [])).
Proof.
  assert (H : Forall (fun f => isDataFile (id f) = true)
                [mkFileData (str "data-LO.md") (str "LO.md") (str "x") 1
                   (str "text/markdown")])
    by (repeat constructor).
  split; [exact H|]. split; [reflexivity|].
  exact (proj1 (proj2 (proj2 (reloading_data_files _ _ H)))).
Defined.

(** ** Properties of the on-screen rendering *)

Section DisplayFacts.
Variable c : ascii.
Variable t : jsstring.

Local Abbreviation rx := (mkRegex true (Lit c) (map Lit t) true).
Local Abbreviation hereTerm := (atomsHere true (map Lit (c :: t))).

Lemma exec_none_intro (M : Type) (here : jsstring -> option (M * jsstring))
    (s : jsstring) :
  (forall u v, s = u ++ v -> here v = None) -> exec here s = None.
Proof.
  induction s as [|x r IH]; intros H; cbn [exec].
  - rewrite (H [] [] eq_refl). reflexivity.
  - rewrite (H [] (x :: r) eq_refl). rewrite IH; [reflexivity|].
    intros u v ->. apply (H (x :: u) v eq_refl).
Qed.

Lemma hereTerm_shorter (v rest : jsstring) :
  hereTerm (v ++ rest) = None -> hereTerm v = None.
Proof.
  rewrite !atomsHere_ci. unfold toLowerCase. rewrite map_app.
  destruct (startsWith (map lowerChar v) (map lowerChar (c :: t))) eqn:E;
    [|reflexivity].
  rewrite (startsWith_app_l _ _ _ E). discriminate.
Qed.

(** A part without a match fails the test and resets [lastIndex]. *)
Lemma test_of_unmatched (b rest : jsstring) :
  (forall u v, b = u ++ v -> v <> [] -> hereTerm (v ++ rest) = None) ->
  forall lastIndex, regexTest rx lastIndex b = (false, 0).
Proof.
  intros Hnone lastIndex. unfold regexTest.
  destruct (length b <? lastIndex); [reflexivity|].
  change (here rx) with hereTerm.
  rewrite exec_none_intro; [reflexivity|].
  intros u v Huv. destruct v as [|x v]; [reflexivity|].
  apply (hereTerm_shorter _ rest). apply (Hnone (firstn lastIndex b ++ u)).
  - rewrite <- app_assoc, <- Huv. symmetry. apply firstn_skipn.
  - discriminate.
Qed.

(** A captured part passes the test when [lastIndex] is 0. *)
Lemma startsWith_same_length (a b p : jsstring) :
  startsWith (a ++ b) p = true -> length a = length p -> a = p.
Proof.
  revert a. induction p as [|x p IH]; intros a H Hlen.
  - destruct a; [reflexivity|discriminate].
  - destruct a as [|y a]; [discriminate|]. cbn [app startsWith] in H.
    apply andb_true_iff in H as [H1 H2]. apply char_eqb_eq in H1.
    injection Hlen as Hlen. rewrite (IH a H2 Hlen). congruence.
Qed.

Lemma test_of_captured (s m after : jsstring) :
  hereTerm s = Some (m, after) -> regexTest rx 0 m = (true, length m).
Proof.
  intros H. pose proof (atomsHere_sound _ _ _ H) as [Hs Hlen].
  rewrite length_map in Hlen.
  rewrite atomsHere_ci in H.
  destruct (startsWith (toLowerCase s) (toLowerCase (c :: t))) eqn:E;
    [|discriminate].
  clear H.
  assert (Hlow : toLowerCase m = toLowerCase (c :: t)).
  { rewrite Hs in E. unfold toLowerCase in *. rewrite map_app in E.
    apply (startsWith_same_length _ _ _ E). rewrite !length_map. exact Hlen. }
  clear E Hs s.
  assert (Hhere : hereTerm m = Some (m, [])).
  { rewrite atomsHere_ci, Hlow.
    replace (toLowerCase (c :: t)) with (toLowerCase (c :: t) ++ []) at 1
      by apply app_nil_r.
    rewrite startsWith_app, <- Hlen, firstn_all, skipn_all. reflexivity. }
  unfold regexTest. change (here rx) with hereTerm.
  destruct m as [|x m']; [discriminate Hlen|].
  cbn [length Nat.ltb Nat.leb skipn exec]. rewrite Hhere. reflexivity.
Qed.

Lemma renderParts_flags (ms : list (jsstring * jsstring)) (tail : jsstring) :
  Forall (fun bm => (forall li, regexTest rx li (fst bm) = (false, 0))
                    /\ regexTest rx 0 (snd bm) = (true, length (snd bm))) ms ->
  (forall li, regexTest rx li tail = (false, 0)) ->
  forall li,
    renderParts rx li (flat_map (fun bm => [fst bm; snd bm]) ms ++ [tail])
    = map (fun pf => (snd pf, processMarkdown (fst pf))) (captureFlags ms tail).
Proof.
  intros Hms Htail. unfold captureFlags.
  induction Hms as [|[b m] ms [Hb Hm] _ IH]; intros li.
  - cbn [flat_map app renderParts map fst snd]. rewrite Htail. reflexivity.
  - cbn [flat_map app renderParts map fst snd] in *.
    rewrite Hb, Hm, IH. reflexivity.
Qed.

End DisplayFacts.

Lemma display_parts (text term : jsstring) :
  trim term <> [] ->
  exists parts,
    processTextWithHighlight text term = Returns (Parts parts)
    /\ parts
       = map (fun pf => (snd pf, processMarkdown (fst pf)))
           (captureFlags
              (fst (execAll (atomsHere true (map Lit term)) (length text) text))
              (snd (execAll (atomsHere true (map Lit term)) (length text) text))).
Proof.
  intros Hterm. unfold processTextWithHighlight.
  destruct (length (trim term) =? 0) eqn:E.
  { apply Nat.eqb_eq in E. destruct (trim term); [congruence|discriminate]. }
  destruct term as [|c t]; [exfalso; apply Hterm; reflexivity|].
  rewrite RegExp_escaped. cbn [bind]. eexists. split; [reflexivity|].
  unfold splitRx, splitWith, here. cbn [capture ignoreCase first others].
  change (atomsHere true (Lit c :: map Lit t))
    with (atomsHere true (map Lit (c :: t))).
  destruct (execAll (atomsHere true (map Lit (c :: t))) (length text) text)
    as [ms tail] eqn:Eall.
  cbn [fst snd]. apply renderParts_flags.
  - apply Forall_forall. intros [b m] Hbm. cbn [fst snd].
    destruct (execAll_pieces _ _ (fun x => x) (@literal_here_sound c t)
                _ _ _ _ Eall) as [Hms _].
    destruct (Hms _ _ Hbm) as (_ & _ & rest & Hrest). split.
    + apply (test_of_unmatched c t b rest Hrest).
    + destruct (execAll_match_here _ _ _ _ _ _ _ _ Eall Hbm) as (s' & a & Hs').
      apply (test_of_captured c t _ _ _ Hs').
  - pose proof (execAll_tail_none _ _ (fun x => x) (@literal_here_sound c t)
                  _ _ _ _ (le_n _) Eall) as Htail.
    apply (test_of_unmatched c t tail []).
    intros u v Huv _. rewrite app_nil_r.
    apply (exec_none_here _ _ _ Htail u v Huv).
Qed.

(** X21.  For a term that is not blank the on-screen rendering returns,
    and although one pattern object with its [lastIndex] is tested on
    every part in turn, the parts it marks are exactly the captured
    occurrences of the term as typed: every part cut out as a match is
    marked and no other part is. *)
Theorem display_marks_the_captured_parts (text term : jsstring) :
  trim term <> [] ->
  exists parts,
    processTextWithHighlight text term = Returns (Parts parts)
    /\ parts
       = map (fun pf => (snd pf, processMarkdown (fst pf)))
           (captureFlags
              (fst (execAll (atomsHere true (map Lit term)) (length text) text))
              (snd (execAll (atomsHere true (map Lit term)) (length text) text))).
Proof. exact (display_parts text term). Qed.

Lemma display_marks_the_captured_parts_witness :
  trim (str "ab") <> []
  /\ exists parts,
       processTextWithHighlight (str "ABab x") (str "ab")
       = Returns (Parts parts)
       /\ map fst parts = [false; true; false; true; false].
Proof.
  assert (H : trim (str "ab") <> []) by discriminate.
  split; [exact H|].
  destruct (display_marks_the_captured_parts (str "ABab x") (str "ab") H)
    as (parts & Hr & Hparts).
  exists parts. split; [exact Hr|]. rewrite Hparts. reflexivity.
Defined.

(** ** Properties of the plain-text rendering *)

Section PlainFacts.

Lemma delimited_here_sound (d0 : ascii) (d s m after : jsstring) :
  delimited (d0 :: d) s = Some (m, after) ->
  s = (fun x : jsstring => x) m ++ after /\ (fun x : jsstring => x) m <> [].
Proof.
  intros H. apply delimited_sound in H as [[x ->] ->].
  split; [reflexivity|discriminate].
Qed.

Lemma slice_shorter (m : jsstring) (k : nat) : length (slice m k k) <= length m.
Proof.
  unfold slice. rewrite length_firstn, length_skipn. lia.
Qed.

Lemma replaceDelimited_shorter (d0 : ascii) (d s : jsstring) :
  length (replaceDelimited (d0 :: d) s) <= length s.
Proof.
  unfold replaceDelimited.
  destruct (execAll (delimited (d0 :: d)) (length s) s) as [ms tail] eqn:E.
  apply (execAll_sound _ (fun x => x) (@delimited_here_sound d0 d)) in E.
  rewrite E. rewrite !length_app.
  apply Nat.add_le_mono_r. clear E.
  induction ms as [|[b m] ms IH]; [reflexivity|].
  cbn [flat_map fst snd]. rewrite !length_app.
  pose proof (slice_shorter m (length (d0 :: d))). lia.
Qed.

Lemma replaceDelimited_absent (d0 : ascii) (d s : jsstring) :
  ~ In d0 s -> replaceDelimited (d0 :: d) s = s.
Proof.
  intros Hs.
  assert (Hexec : forall r, ~ In d0 r -> exec (delimited (d0 :: d)) r = None).
  { induction r as [|x r IH]; intros Hr; [reflexivity|].
    cbn [exec]. unfold delimited at 1. cbn [startsWith].
    destruct (char_eqb d0 x) eqn:Ex.
    - apply char_eqb_eq in Ex. subst x. exfalso. apply Hr. left. reflexivity.
    - cbn [andb]. rewrite IH; [reflexivity|].
      intros Hin. apply Hr. right. exact Hin. }
  unfold replaceDelimited. destruct s as [|x s]; [reflexivity|].
  cbn [length execAll]. rewrite (Hexec _ Hs). reflexivity.
Qed.

End PlainFacts.

(** X22.  Removing the markdown syntax never makes a text longer, and a
    text holding no asterisk, backtick or tilde comes out unchanged. *)
Theorem removeMarkdownSyntax_only_removes (t : jsstring) :
  length (removeMarkdownSyntax t) <= length t
  /\ (~ In "*"%char t -> ~ In "`"%char t -> ~ In "~"%char t ->
      removeMarkdownSyntax t = t).
Proof.
  unfold removeMarkdownSyntax. split.
  - eapply Nat.le_trans; [apply (replaceDelimited_shorter "~" (str "~"))|].
    eapply Nat.le_trans; [apply (replaceDelimited_shorter "`" [])|].
    eapply Nat.le_trans; [apply (replaceDelimited_shorter "*" [])|].
    apply (replaceDelimited_shorter "*" (str "*")).
  - intros H1 H2 H3.
    rewrite (replaceDelimited_absent "*" (str "*") t H1
             : replaceDelimited (str "**") t = t).
    rewrite (replaceDelimited_absent "*" [] t H1
             : replaceDelimited (str "*") t = t).
    rewrite (replaceDelimited_absent "`" [] t H2
             : replaceDelimited (str "`") t = t).
    apply (replaceDelimited_absent "~" (str "~") t H3).
Qed.

Lemma removeMarkdownSyntax_only_removes_witness :
  ~ In "*"%char (str "plain_text-1") /\ ~ In "`"%char (str "plain_text-1")
  /\ ~ In "~"%char (str "plain_text-1")
  /\ removeMarkdownSyntax (str "plain_text-1") = str "plain_text-1".
Proof.
  assert (H : forall x, forallb (fun c => negb (char_eqb x c))
                          (str "plain_text-1") = true ->
                        ~ In x (str "plain_text-1")).
  { intros x Hx Hin. rewrite forallb_forall in Hx. specialize (Hx _ Hin).
    rewrite char_eqb_refl in Hx. discriminate Hx. }
  assert (H1 := H "*"%char eq_refl). assert (H2 := H "`"%char eq_refl).
  assert (H3 := H "~"%char eq_refl).
  split; [exact H1|]. split; [exact H2|]. split; [exact H3|].
  exact (proj2 (removeMarkdownSyntax_only_removes _) H1 H2 H3).
Defined.

(** ** Restructured paragraphs, the pipeline and the report *)

Section RestructureFacts.

Lemma dropWhile_In (p : ascii -> bool) (s : jsstring) (c : ascii) :
  In c (dropWhile p s) -> In c s.
Proof.
  induction s as [|x s IH]; [auto|]. cbn [dropWhile].
  destruct (p x); [intros H; right; auto|auto].
Qed.

Lemma trim_In (s : jsstring) (c : ascii) : In c (trim s) -> In c s.
Proof.
  unfold trim, trimEnd, trimStart. intros H.
  apply in_rev in H. apply dropWhile_In in H. apply in_rev in H.
  apply (dropWhile_In _ _ _ H).
Qed.

Lemma join_In (sep : jsstring) (l : list jsstring) (c : ascii) :
  In c (join sep l) -> In c sep \/ exists p, In p l /\ In c p.
Proof.
  induction l as [|p l IH]; [contradiction|].
  destruct l as [|q l].
  - cbn [join]. intros H. right. exists p. split; [left; reflexivity|exact H].
  - change (join sep (p :: q :: l)) with (p ++ sep ++ join sep (q :: l)).
    intros H. apply in_app_or in H as [H|H].
    + right. exists p. split; [left; reflexivity|exact H].
    + apply in_app_or in H as [H|H]; [left; exact H|].
      destruct (IH H) as [Hs|(r & Hr & Hc)]; [left; exact Hs|].
      right. exists r. split; [right; exact Hr|exact Hc].
Qed.

Lemma join_starts (sep base : jsstring) (l : list jsstring) :
  startsWith (join sep (base :: l)) base = true.
Proof.
  destruct l as [|q l].
  - cbn [join]. replace base with (base ++ []) at 1 by apply app_nil_r.
    apply startsWith_app.
  - change (join sep (base :: q :: l)) with (base ++ sep ++ join sep (q :: l)).
    apply startsWith_app.
Qed.

Lemma search_map_processed (allFiles : list FileData) (ids : list jsstring)
    (term : jsstring) (results : list SearchResult) (debug : list DebugInfo) :
  searchInFiles allFiles ids term = Returns (results, debug) ->
  map processedParagraph debug = flat_map foundParagraphs results.
Proof.
  unfold searchInFiles.
  destruct ((length (trim term) =? 0) || (length ids =? 0)).
  - intros H. injection H as <- <-. reflexivity.
  - intros H. apply forEachFile_spec in H as (R & D & H & _ & Hmap & _).
    injection H as -> ->. exact Hmap.
Qed.

Lemma replaceAll_shorter (s x y : jsstring) :
  length y <= length x -> length (replaceAll s x y) <= length s.
Proof.
  intros Hxy. unfold replaceAll.
  destruct (execAll (literalHere x) (length s) s) as [ms tail] eqn:E.
  pose proof (fun b m => execAll_match_here _ _ _ _ _ _ b m E) as Hm.
  apply (execAll_sound _ (fun z => z) (@literalHere_sound x)) in E.
  rewrite E. rewrite !length_app. apply Nat.add_le_mono_r. clear E.
  induction ms as [|[b m] ms IH]; [reflexivity|].
  cbn [flat_map fst snd]. rewrite !length_app.
  assert (Hmx : m = x).
  { destruct (Hm b m (or_introl eq_refl)) as (s' & a & Hs').
    unfold literalHere in Hs'. destruct x; [discriminate|].
    destruct (startsWith s' (a0 :: x)); [|discriminate].
    injection Hs' as <- _. reflexivity. }
  pose proof (IH (fun b' m' Hin => Hm b' m' (or_intror Hin))) as IH'.
  subst m. lia.
Qed.

Lemma includes_prefix (s t u : jsstring) :
  includes s (t ++ u) = true -> includes s t = true.
Proof.
  intros H. apply includes_split in H as (a & b & -> & Hb).
  apply split_includes. apply startsWith_split in Hb. rewrite Hb.
  rewrite <- app_assoc. apply startsWith_app.
Qed.

End RestructureFacts.

(** X23.  A restructured paragraph begins with the trimmed first piece
    and holds no "|": the separators never reach the reader. *)
Theorem restructured_paragraph_has_no_separator
    (paragraph searchTerm fileName : jsstring) (index : nat) :
  includes paragraph PIPE = true ->
  3 <= length (split paragraph PIPE) ->
  ~ In "|"%char (fst (processFoundParagraph paragraph searchTerm fileName index))
  /\ startsWith (fst (processFoundParagraph paragraph searchTerm fileName index))
       (trim (hd [] (split paragraph PIPE))) = true.
Proof.
  intros Hpipe Hlen. unfold processFoundParagraph. rewrite Hpipe.
  pose proof Hlen as Hlen'. apply Nat.leb_le in Hlen'. rewrite Hlen'.
  cbn [andb].
  assert (Hpieces : forall p, In p (map trim (split paragraph PIPE)) ->
                              ~ In "|"%char p).
  { intros p Hp Hin. apply in_map_iff in Hp as (q & <- & Hq).
    apply trim_In in Hin. apply (split_char_piece "|" paragraph q Hq Hin). }
  destruct (split paragraph PIPE) as [|first pieces] eqn:E;
    [cbn in Hlen; lia|].
  cbn [map hd] in *.
  pose proof (selectSentences_filter (toLowerCase (trim searchTerm))
                (map trim pieces) [trim first]
                [str "[BASE] " ++ trim first]) as Hsel.
  destruct (selectSentences (toLowerCase (trim searchTerm)) (map trim pieces)
              [trim first] [str "[BASE] " ++ trim first]) as [parts selected].
  cbn [fst] in *. subst parts. cbn [app]. split; [|apply join_starts].
  intros Hin. apply join_In in Hin as [[Hsp|[]]|(p & Hp & Hc)].
  - discriminate Hsp.
  - apply (Hpieces p); [|exact Hc]. destruct Hp as [<-|Hp].
    + left. reflexivity.
    + right. apply filter_In in Hp as [Hp _]. exact Hp.
Qed.

Lemma restructured_paragraph_has_no_separator_witness :
  includes (str " a | B here | c") PIPE = true
  /\ 3 <= length (split (str " a | B here | c") PIPE)
  /\ ~ In "|"%char (fst (processFoundParagraph (str " a | B here | c")
                           (str "b") (str "f") 0)).
Proof.
  assert (H1 : includes (str " a | B here | c") PIPE = true) by reflexivity.
  assert (H2 : 3 <= length (split (str " a | B here | c") PIPE))
    by (vm_compute; lia).
  split; [exact H1|]. split; [exact H2|].
  exact (proj1 (restructured_paragraph_has_no_separator _ (str "b") (str "f")
                  0 H1 H2)).
Defined.

(** X24.  Exporting the results of a search returns, and its numbered
    entries follow the trace of the search: entry [i] carries the number
    [i + 1] and the spans of the processed paragraph of trace record
    [i]. *)
Theorem export_follows_the_trace (allFiles : list FileData)
    (ids : list jsstring) (term localeDate isoNow : jsstring)
    (results : list SearchResult) (debug : list DebugInfo) :
  searchInFiles allFiles ids term = Returns (results, debug) ->
  exists children fileName,
    exportToDocx localeDate isoNow results term = Returns (children, fileName)
    /\ length (entryRuns children) = length debug
    /\ forall i d,
         nth_error debug i = Some d ->
         exists segments,
           getFormattedTextSegments (processedParagraph d) term
           = Returns segments
           /\ nth_error (entryRuns children) i
              = Some (prefixRun (i + 1) :: map segmentRun segments).
Proof.
  intros H. apply search_map_processed in H.
  destruct (exportToDocx_returns term localeDate isoNow results)
    as (children & Hr & Hruns).
  exists children, (exportFileName term isoNow). split; [exact Hr|].
  rewrite Hruns, <- H. split.
  - rewrite entriesFrom_length, length_map. reflexivity.
  - intros i d Hd. exists (formattedSegments (processedParagraph d) term).
    split; [apply getFormatted_returns|].
    apply (entriesFrom_nth term _ 0 i).
    rewrite nth_error_map, Hd. reflexivity.
Qed.

Lemma export_follows_the_trace_witness :
  exists results debug children fileName,
    searchInFiles [file (str "x | **abc** | y | abc z")] [str "1"] (str "abc")
    = Returns (results, debug)
    /\ exportToDocx (str "01/11/2026") (str "2026-11-01T09:30:00.000Z")
         results (str "abc") = Returns (children, fileName)
    /\ length (entryRuns children) = 1.
Proof.
  eexists. eexists.
  match goal with |- exists c f, ?A /\ _ =>
    assert (H : A) by reflexivity end.
  destruct (export_follows_the_trace _ _ _ (str "01/11/2026")
              (str "2026-11-01T09:30:00.000Z") _ _ H)
    as (children & fileName & Hr & Hlen & _).
  exists children, fileName. split; [exact H|]. split; [exact Hr|exact Hlen].
Defined.

(** X25.  The report agrees with the result: the strategy it names is
    one of the four candidates it lists, and that candidate's paragraph
    count is the number of paragraphs returned; the normalised length is
    never above the original length; and a text with Windows line endings
    is reported as having carriage returns. *)
Theorem split_report_is_consistent (t : jsstring) :
  let r := splitTextIntoParagraphs t in
  length (splitMethods (splitInfo r)) = 4
  /\ (exists info, In info (splitMethods (splitInfo r))
                   /\ infoName info = chosenMethod (splitInfo r)
                   /\ paragraphCount info = length (paragraphs r))
  /\ normalizedLength (splitInfo r) <= originalLength (splitInfo r)
  /\ (hasWindowsLineEndings (splitInfo r) = true ->
      hasCarriageReturns (splitInfo r) = true).
Proof.
  cbv zeta. split; [reflexivity|]. split.
  - destruct (splitText_final t) as [-> ->].
    cbn [splitInfo splitMethods map].
    destruct (finalMethod_cases (normalize t)) as [-> | [-> | [-> | ->]]].
    + exists (describe (method0 (normalize t))). split; [left; reflexivity|].
      split; reflexivity.
    + exists (describe (method1 (normalize t))).
      split; [right; left; reflexivity|]. split; reflexivity.
    + exists (describe (method2 (normalize t))).
      split; [do 2 right; left; reflexivity|]. split; reflexivity.
    + exists (describe (method3 (normalize t))).
      split; [do 3 right; left; reflexivity|]. split; reflexivity.
  - split.
    + cbn [splitInfo normalizedLength originalLength splitTextIntoParagraphs].
      unfold normalize.
      eapply Nat.le_trans; [apply replaceAll_shorter; cbn; lia|].
      apply replaceAll_shorter. cbn. lia.
    + cbn [splitInfo hasWindowsLineEndings hasCarriageReturns
             splitTextIntoParagraphs].
      apply (includes_prefix t [CR] [LF]).
Qed.

(** ** The screen and the export side by side *)

Section SideBySide.

Lemma atomsHere_lowered (t s : jsstring) :
  atomsHere true (map Lit (toLowerCase t)) s = atomsHere true (map Lit t) s.
Proof.
  rewrite !atomsHere_ci, toLowerCase_idem. unfold toLowerCase.
  rewrite length_map. reflexivity.
Qed.

Lemma no_term_no_match (t s : jsstring) :
  t <> [] -> toLowerCase t = t ->
  includes (toLowerCase s) t = false ->
  exec (atomsHere true (map Lit t)) s = None.
Proof.
  intros Ht Hlow Hinc. apply exec_none_intro. intros u v ->.
  rewrite atomsHere_ci, Hlow.
  destruct (startsWith (toLowerCase v) t) eqn:E; [|reflexivity].
  unfold toLowerCase in Hinc, E. rewrite map_app in Hinc.
  rewrite (split_includes _ _ _ E) in Hinc. discriminate Hinc.
Qed.

Lemma lower_neq_term (t b : jsstring) :
  includes (toLowerCase b) t = false -> str_eqb (toLowerCase b) t = false.
Proof.
  intros H. destruct (str_eqb (toLowerCase b) t) eqn:E; [|reflexivity].
  apply str_eqb_eq in E. rewrite E, includes_refl in H. discriminate H.
Qed.

(** The spans cut from one plain span, read as pairs of text and mark,
    are the non-empty parts of the split with the captures marked. *)
Lemma partSpans_flags (t : jsstring) (seg : ParsedMarkdownSegment)
    (ms : list (jsstring * jsstring)) (tail : jsstring) :
  Forall (fun bm => str_eqb (toLowerCase (fst bm)) t = false
                    /\ str_eqb (toLowerCase (snd bm)) t = true) ms ->
  str_eqb (toLowerCase tail) t = false ->
  map (fun o => (text o, isHighlighted o))
    (flat_map (partSpans t seg)
       (flat_map (fun bm => [fst bm; snd bm]) ms ++ [tail]))
  = filter (fun pf => negb (length (fst pf) =? 0)) (captureFlags ms tail).
Proof.
  intros Hms Htail. unfold captureFlags.
  induction Hms as [|[b m] ms [Hb Hm] _ IH]; cbn [flat_map app fst snd].
  - destruct tail as [|x tail]; [reflexivity|].
    cbn [partSpans map filter length Nat.eqb negb app text isHighlighted
           withText fst]. rewrite Htail. reflexivity.
  - cbn [fst snd] in *. rewrite map_app, map_app, IH.
    destruct b as [|x b]; destruct m as [|y m];
      cbn [partSpans map filter length Nat.eqb negb app text isHighlighted
             withText fst]; rewrite ?Hb, ?Hm; reflexivity.
Qed.

End SideBySide.

(** X26.  On strings of code units below U+0100, which are the strings
    of this development: for a text without formatting runs and a term
    without surrounding white space, the screen and the export mark the
    same pieces.  The screen marks exactly the captured parts of the
    split by the term, and the spans of the export are the non-empty
    parts of that split, marked where captured.  (The screen decides by
    the pattern, the export by comparing lower case; the two agree on
    these code units.) *)
Theorem screen_and_export_mark_alike (text term : jsstring) :
  text <> [] -> term <> [] -> trim term = term ->
  fst (markdownRuns text) = [] ->
  exists out parts,
    getFormattedTextSegments text term = Returns out
    /\ processTextWithHighlight text term = Returns (Parts parts)
    /\ map fst parts
       = map snd
           (captureFlags
              (fst (execAll (atomsHere true (map Lit term)) (length text) text))
              (snd (execAll (atomsHere true (map Lit term)) (length text) text)))
    /\ map (fun o => (Format.text o, isHighlighted o)) out
       = filter (fun pf => negb (length (fst pf) =? 0))
           (captureFlags
              (fst (execAll (atomsHere true (map Lit term)) (length text) text))
              (snd (execAll (atomsHere true (map Lit term)) (length text) text))).
Proof.
  intros Htext Hterm Htrim Hruns.
  assert (Hnb : trim term <> []) by (rewrite Htrim; exact Hterm).
  destruct (display_parts text term Hnb) as (parts & Hdisp & Hparts).
  exists (formattedSegments text term), parts.
  split; [apply getFormatted_returns|]. split; [exact Hdisp|]. split.
  { rewrite Hparts, map_map. apply map_ext. intros [p f]. reflexivity. }
  unfold formattedSegments. rewrite (no_runs_plain _ Hruns), Htrim.
  destruct (length term =? 0) eqn:E.
  { apply Nat.eqb_eq in E. destruct term; [congruence|discriminate]. }
  assert (Hplain : plainIfAny text = [plain text])
    by (destruct text; [congruence|reflexivity]).
  rewrite Hplain. cbn [flat_map]. rewrite app_nil_r.
  pose proof (toLowerCase_idem term) as Hlow.
  assert (Hpt : toLowerCase term <> []).
  { destruct term; [congruence|discriminate]. }
  rewrite <- (execAll_ext _ _ (atomsHere_lowered term)).
  destruct (toLowerCase term) as [|c t] eqn:Ept; [congruence|].
  unfold highlightParts. cbn [Format.text plain].
  destruct (includes (toLowerCase text) (c :: t)) eqn:Einc.
  - unfold splitWith.
    destruct (execAll (atomsHere true (map Lit (c :: t))) (length text) text)
      as [ms tail] eqn:Eall.
    cbn [fst snd]. apply partSpans_flags.
    + apply Forall_forall. intros [b m] Hbm. cbn [fst snd].
      assert (Hb : In b (splitWith (atomsHere true (map Lit (c :: t))) true text)).
      { unfold splitWith. rewrite Eall. apply in_or_app. left.
        apply in_flat_map. exists (b, m). split; [exact Hbm|left; reflexivity]. }
      destruct (execAll_pieces _ _ (fun x => x) (@literal_here_sound c t)
                  _ _ _ _ Eall) as [Hms _].
      destruct (Hms _ _ Hbm) as (_ & _ & rest & Hrest).
      split.
      * apply lower_neq_term.
        apply (no_match_no_term (c :: t) b rest); [discriminate|exact Hlow|].
        exact Hrest.
      * destruct (execAll_match_here _ _ _ _ _ _ _ _ Eall Hbm)
          as (s' & a & Hs').
        apply str_eqb_eq. apply (capture_is_term _ _ _ _ Hlow Hs').
    + apply lower_neq_term.
      pose proof (execAll_tail_none _ _ (fun x => x) (@literal_here_sound c t)
                    _ _ _ _ (le_n _) Eall) as Htail.
      apply (no_match_no_term (c :: t) tail []); [discriminate|exact Hlow|].
      intros u v Huv _. rewrite app_nil_r.
      apply (exec_none_here _ _ _ Htail u v Huv).
  - assert (Hall : execAll (atomsHere true (map Lit (c :: t))) (length text)
                     text = ([], text)).
    { destruct (length text); [reflexivity|]. cbn [execAll].
      rewrite (no_term_no_match (c :: t) text ltac:(discriminate) Hlow Einc).
      reflexivity. }
    rewrite Hall. unfold captureFlags.
    cbn [fst snd flat_map app map filter Format.text plain isHighlighted].
    destruct text; [congruence|reflexivity].
Qed.

Lemma screen_and_export_mark_alike_witness :
  exists out parts,
    getFormattedTextSegments (str "an ABC or abc") (str "Abc") = Returns out
    /\ processTextWithHighlight (str "an ABC or abc") (str "Abc")
       = Returns (Parts parts)
    /\ map fst parts = [false; true; false; true; false]
    /\ map (fun o => (Format.text o, isHighlighted o)) out
       = [(str "an ", false); (str "ABC", true); (str " or ", false);
          (str "abc", true)].
Proof.
  destruct (screen_and_export_mark_alike (str "an ABC or abc") (str "Abc"))
    as (out & parts & H1 & H2 & H3 & H4);
    [discriminate|discriminate|reflexivity|reflexivity|].
  exists out, parts. split; [exact H1|]. split; [exact H2|].
  split; [rewrite H3; reflexivity|rewrite H4; reflexivity].
Defined.

Lemma split_report_is_consistent_witness :
  hasWindowsLineEndings
    (splitInfo (splitTextIntoParagraphs (str "one" ++ [CR; LF] ++ str "two")))
  = true
  /\ hasCarriageReturns
       (splitInfo (splitTextIntoParagraphs (str "one" ++ [CR; LF] ++ str "two")))
     = true.
Proof.
  assert (H : hasWindowsLineEndings
                (splitInfo (splitTextIntoParagraphs
                              (str "one" ++ [CR; LF] ++ str "two"))) = true)
    by reflexivity.
  split; [exact H|].
  exact (proj2 (proj2 (proj2 (split_report_is_consistent _))) H).
Defined.
